(** * Vokt VS Code extension: change filtering, edit buffering, scope
    resolution and dispatch health.

    A shallow embedding of the core of the extension
    (changeFilter.ts, editBuffer.ts, scopeTracker.ts, smartDiagnostics.ts)
    together with the properties its specification states about it.

    Conventions.
    - Line and character numbers are JavaScript non-negative integers: [N].
    - Text is a [string] of UTF-16 code units below 256 (the characters of
      Latin-1): an [ascii] [c] is the code unit [N_of_ascii c].  Text with
      a code unit from 256 on is outside the model.
    - A JavaScript [Map] whose iteration order matters is an association
      list in insertion order; a [Map] used only by key is a [gmap].
    - Code that may throw returns a [Completion]. *)

From Stdlib Require Import ZArith NArith List String Ascii Bool Lia.
From stdpp Require Import base option list gmap strings.

Local Open Scope string_scope.
Local Open Scope list_scope.

(** ** JavaScript values used by the code: completions and strings *)

Module Js.

(** The outcome of running code that may throw. *)
Inductive Completion (A : Type) :=
  | Normal (value : A)
  | Throw (error : string).
Arguments Normal {A} value.
Arguments Throw {A} error.

Definition bind {A B} (m : Completion A) (f : A → Completion B) : Completion B :=
  match m with
  | Normal a => f a
  | Throw e => Throw e
  end.

(** [try { m } catch { handler }] *)
Definition tryCatch {A} (m : Completion A) (handler : string → Completion A)
  : Completion A :=
  match m with
  | Normal a => Normal a
  | Throw e => handler e
  end.

(** [xs.map(f)] where [f] may throw: the first exception ends the map. *)
Fixpoint mapM {A B} (f : A → Completion B) (xs : list A) : Completion (list B) :=
  match xs with
  | [] => Normal []
  | x :: xs' =>
      bind (f x) (λ y, bind (mapM f xs') (λ ys, Normal (y :: ys)))
  end.

(** The regular expression class [\s] and the characters [trim] removes:
    the white space and line terminators of ECMAScript.  Below 256 these
    are tab, line feed, vertical tab, form feed, carriage return, space and
    the no-break space U+00A0; the others (U+1680, U+2000 to U+200A, U+2028,
    U+2029, U+202F, U+205F, U+3000, U+FEFF) are code units from 256 on. *)
Definition isWhiteSpace (c : ascii) : bool :=
  let n := N_of_ascii c in
  (n =? 9)%N || (n =? 10)%N || (n =? 11)%N || (n =? 12)%N || (n =? 13)%N
  || (n =? 32)%N || (n =? 160)%N.

Fixpoint trimStart (s : string) : string :=
  match s with
  | EmptyString => EmptyString
  | String c s' => if isWhiteSpace c then trimStart s' else s
  end.

Definition reverse (s : string) : string :=
  string_of_list_ascii (rev (list_ascii_of_string s)).

Definition trimEnd (s : string) : string := reverse (trimStart (reverse s)).

Definition trim (s : string) : string := trimEnd (trimStart s).

(** [s.replace(/\s+/g, '')] *)
Fixpoint removeWhiteSpace (s : string) : string :=
  match s with
  | EmptyString => EmptyString
  | String c s' =>
      if isWhiteSpace c then removeWhiteSpace s' else String c (removeWhiteSpace s')
  end.

Definition startsWith (p s : string) : bool := String.prefix p s.

Definition endsWith (p s : string) : bool := String.prefix (reverse p) (reverse s).

(** Index of the first occurrence of the literal [p] in [s]. *)
Fixpoint search (p s : string) : option nat :=
  if String.prefix p s then Some 0
  else match s with
       | EmptyString => None
       | String _ s' => S <$> search p s'
       end.

Definition isSome {A} (o : option A) : bool :=
  match o with Some _ => true | None => false end.

(** [s.substring(start)] *)
Fixpoint substringFrom (start : nat) (s : string) : string :=
  match start, s with
  | O, _ => s
  | S n, EmptyString => EmptyString
  | S n, String _ s' => substringFrom n s'
  end.

(** [s.substring(0, stop)] *)
Fixpoint substringTo (stop : nat) (s : string) : string :=
  match stop, s with
  | O, _ => EmptyString
  | S n, EmptyString => EmptyString
  | S n, String c s' => String c (substringTo n s')
  end.

(** [s.substring(start, stop)] for [start <= stop] *)
Definition substring (start stop : nat) (s : string) : string :=
  substringFrom start (substringTo stop s).

(** [parts.join(sep)] *)
Fixpoint join (sep : string) (parts : list string) : string :=
  match parts with
  | [] => EmptyString
  | [x] => x
  | x :: rest => (x ++ sep ++ join sep rest)%string
  end.

Definition strEq (a b : string) : bool := String.eqb a b.

(** The line feed, the usual end-of-line sequence of a document. *)
Definition LF : string := String (ascii_of_nat 10) EmptyString.

(** Every character of [s] is white space. *)
Fixpoint allWhiteSpace (s : string) : bool :=
  match s with
  | EmptyString => true
  | String c s' => isWhiteSpace c && allWhiteSpace s'
  end.

(** The property names an object literal inherits from [Object.prototype]:
    indexing the literal by one of them yields a function (or, for
    [__proto__], the prototype object itself), not [undefined]. *)
Definition objectPrototypeKeys : list string :=
  ["constructor"; "__defineGetter__"; "__defineSetter__"; "hasOwnProperty";
   "__lookupGetter__"; "__lookupSetter__"; "isPrototypeOf";
   "propertyIsEnumerable"; "toString"; "valueOf"; "__proto__"; "toLocaleString"].

Definition inObjectPrototype (key : string) : bool :=
  existsb (strEq key) objectPrototypeKeys.

(** The [TypeError] of [x.test(...)] for an [x] that is [undefined]. *)
Definition undefinedTest : string :=
  "TypeError: Cannot read properties of undefined (reading 'test')".

End Js.

(** ** The host editor's value types (vscode.Position, vscode.Range) *)

Module Vscode.

Record Position := mkPosition { line : N; character : N }.

Definition isBefore (a b : Position) : bool :=
  if (line a <? line b)%N then true
  else if (line b <? line a)%N then false
  else (character a <? character b)%N.

Definition isBeforeOrEqual (a b : Position) : bool :=
  if (line a <? line b)%N then true
  else if (line b <? line a)%N then false
  else (character a <=? character b)%N.

(** The earlier and the later of two positions. *)
Definition posMin (p x : Position) : Position := if isBefore x p then x else p.
Definition posMax (q x : Position) : Position := if isBefore q x then x else q.

Record Range := mkRange { start : Position; end_ : Position }.

(** [new vscode.Range(startLine, startCharacter, endLine, endCharacter)]:
    the constructor orders its two positions. *)
Definition Range_new (startLine startChar endLine endChar : N) : Range :=
  let s := mkPosition startLine startChar in
  let e := mkPosition endLine endChar in
  if isBefore s e then mkRange s e else mkRange e s.

(** Every [vscode.Range] object has [start] before or equal to [end]. *)
Definition Range_ok (r : Range) : Prop := isBeforeOrEqual (start r) (end_ r) = true.

Definition containsPosition (r : Range) (p : Position) : bool :=
  if isBefore p (start r) then false
  else if isBefore (end_ r) p then false
  else true.

(** [range.contains(other)] for a range argument. *)
Definition contains (r other : Range) : bool :=
  containsPosition r (start other) && containsPosition r (end_ other).

(** *** vscode.TextDocument

    The host's document object, as its API documents it: the text as a
    list of lines; [lineAt] throws for a line number outside the document;
    [getText(range)] first clamps the range to the document. *)

Record TextDocument := mkTextDocument {
  uri : string;
  languageId : string;
  version : N;
  lines : list string;
  eol : string }.

Definition lineCount (doc : TextDocument) : N := N.of_nat (length (lines doc)).

Definition lineText (doc : TextDocument) (l : N) : string :=
  nth (N.to_nat l) (lines doc) EmptyString.

(** [document.lineAt(line).text] *)
Definition lineAt (doc : TextDocument) (l : N) : Js.Completion string :=
  if (l <? lineCount doc)%N then Js.Normal (lineText doc l)
  else Js.Throw "Illegal value for line".

Definition validatePosition (doc : TextDocument) (p : Position) : Position :=
  if (lineCount doc =? 0)%N then mkPosition 0 0
  else if (lineCount doc <=? line p)%N then
    let l := (lineCount doc - 1)%N in
    mkPosition l (N.of_nat (String.length (lineText doc l)))
  else
    let maxCharacter := N.of_nat (String.length (lineText doc (line p))) in
    if (maxCharacter <? character p)%N then mkPosition (line p) maxCharacter
    else p.

Definition validateRange (doc : TextDocument) (r : Range) : Range :=
  mkRange (validatePosition doc (start r)) (validatePosition doc (end_ r)).

(** The lines [from], [from + 1], ..., [from + count - 1]. *)
Definition linesBetween (doc : TextDocument) (from : N) (count : nat) : list string :=
  firstn count (skipn (N.to_nat from) (lines doc)).

(** [document.getText(range)] *)
Definition getText (doc : TextDocument) (r0 : Range) : Js.Completion string :=
  let r := validateRange doc r0 in
  let s := start r in
  let e := end_ r in
  if (line s =? line e)%N then
    Js.Normal (Js.substring (N.to_nat (character s)) (N.to_nat (character e))
                 (lineText doc (line s)))
  else
    Js.Normal
      (Js.join (eol doc)
         (Js.substringFrom (N.to_nat (character s)) (lineText doc (line s))
          :: linesBetween doc (line s + 1) (N.to_nat (line e - line s - 1))
          ++ [Js.substringTo (N.to_nat (character e)) (lineText doc (line e))])).

(** [vscode.TextDocumentContentChangeEvent] *)
Record TextDocumentContentChangeEvent := mkChange {
  range : Range;
  rangeOffset : N;
  rangeLength : N;
  text : string }.

End Vscode.

(** ** scopeTracker.ts: the LRU symbol cache *)

Module LRU.

(** A JavaScript [Map<string, V>]: entries in insertion order, keys unique. *)
Abbreviation JsMap V := (list (string * V)).

Section WithValue.
Context {V : Type}.

Fixpoint Map_get (k : string) (m : JsMap V) : option V :=
  match m with
  | [] => None
  | (k', v) :: m' => if decide (k' = k) then Some v else Map_get k m'
  end.

Definition Map_has (k : string) (m : JsMap V) : bool :=
  match Map_get k m with Some _ => true | None => false end.

Definition Map_delete (k : string) (m : JsMap V) : JsMap V :=
  filter (λ e, e.1 ≠ k) m.

(** [Map.prototype.set]: an existing key keeps its position, a new key
    goes last. *)
Fixpoint Map_set (k : string) (v : V) (m : JsMap V) : JsMap V :=
  match m with
  | [] => [(k, v)]
  | (k', v') :: m' =>
      if decide (k' = k) then (k, v) :: m' else (k', v') :: Map_set k v m'
  end.

(** [map.keys().next().value] *)
Definition Map_firstKey (m : JsMap V) : option string :=
  match m with [] => None | (k, _) :: _ => Some k end.

Definition Map_size (m : JsMap V) : nat := length m.

(** [maxSize] is the capacity, a number of entries.  The extension builds
    its one cache with [DEFAULT_SYMBOL_CACHE_SIZE], 50, which is also the
    default of the constructor. *)
Record LRUCache := mkLRU { cache : JsMap V; maxSize : Z }.

Definition new (maxSize : Z) : LRUCache := mkLRU [] maxSize.

Definition get (key : string) (c : LRUCache) : option V * LRUCache :=
  match Map_get key (cache c) with
  | Some value =>
      (Some value,
       mkLRU (Map_set key value (Map_delete key (cache c))) (maxSize c))
  | None => (None, c)
  end.

Definition set (key : string) (value : V) (c : LRUCache) : LRUCache :=
  let m := cache c in
  let m1 :=
    if Map_has key m then Map_delete key m
    else if (maxSize c <=? Z.of_nat (Map_size m))%Z then
      match Map_firstKey m with
      | Some firstKey => Map_delete firstKey m
      | None => m
      end
    else m in
  mkLRU (Map_set key value m1) (maxSize c).

Definition has (key : string) (c : LRUCache) : bool := Map_has key (cache c).

Definition size (c : LRUCache) : nat := Map_size (cache c).

Definition keys (c : LRUCache) : list string := (cache c).*1.

(** Sequences of cache operations. *)
Inductive Op := OpGet (key : string) | OpSet (key : string) (value : V).

Definition step (o : Op) (c : LRUCache) : LRUCache :=
  match o with
  | OpGet k => (get k c).2
  | OpSet k v => set k v c
  end.

Fixpoint run (ops : list Op) (c : LRUCache) : LRUCache :=
  match ops with
  | [] => c
  | o :: ops' => run ops' (step o c)
  end.

(** The keys an operation touches: [set] always touches its key, [get]
    touches it on a hit. *)
Definition touched (o : Op) (c : LRUCache) : list string :=
  match o with
  | OpSet k _ => [k]
  | OpGet k => if has k c then [k] else []
  end.

(** The touch history of a run, most recent touch first. *)
Fixpoint touches (ops : list Op) (c : LRUCache) (h : list string) : list string :=
  match ops with
  | [] => h
  | o :: ops' => touches ops' (step o c) (touched o c ++ h)
  end.

End WithValue.

Arguments LRUCache : clear implicits.
Arguments Op : clear implicits.

(** [age k h]: how many touches ago key [k] was last touched. *)
Fixpoint age (k : string) (h : list string) : option nat :=
  match h with
  | [] => None
  | x :: h' => if decide (x = k) then Some 0 else S <$> age k h'
  end.

(** [a] was last touched strictly before [b] was. *)
Definition olderThan (h : list string) (a b : string) : Prop :=
  ∃ na nb, age a h = Some na ∧ age b h = Some nb ∧ nb < na.

(** A key list in the order of last touch, oldest first. *)
Fixpoint recencyOrdered (h : list string) (l : list string) : Prop :=
  match l with
  | [] => True
  | k :: l' =>
      is_Some (age k h) ∧ Forall (olderThan h k) l' ∧ recencyOrdered h l'
  end.

(** The representation invariant of a cache of capacity [N] whose touch
    history is [h]. *)
Definition lruInv {V : Type} (N : Z) (c : LRUCache V) (h : list string) : Prop :=
  maxSize c = N ∧ NoDup (keys c) ∧
  (Z.of_nat (size c) ≤ N)%Z ∧ recencyOrdered h (keys c).

(** The remaining operations of the cache. *)
Definition delete {V : Type} (key : string) (c : LRUCache V) : bool * LRUCache V :=
  (Map_has key (cache c), mkLRU (Map_delete key (cache c)) (maxSize c)).

Definition clear {V : Type} (c : LRUCache V) : LRUCache V := mkLRU [] (maxSize c).

(** The map a [set] writes into: the cache without the key, and without
    the first entry when the cache is full. *)
Definition setTarget {V : Type} (key : string) (c : LRUCache V) : JsMap V :=
  if Map_has key (cache c) then Map_delete key (cache c)
  else if (maxSize c <=? Z.of_nat (Map_size (cache c)))%Z then
    match Map_firstKey (cache c) with
    | Some firstKey => Map_delete firstKey (cache c)
    | None => cache c
    end
  else cache c.

End LRU.

(** ** scopeTracker.ts: scope resolution over the document outline *)

Module ScopeTracker.
Import Vscode.

(** [vscode.SymbolKind] *)
Inductive SymbolKind :=
  | SkFile | SkModule | SkNamespace | SkPackage | SkClass | SkMethod
  | SkProperty | SkField | SkConstructor | SkEnum | SkInterface | SkFunction
  | SkVariable | SkConstant | SkString | SkNumber | SkBoolean | SkArray
  | SkObject | SkKey | SkNull | SkEnumMember | SkStruct | SkEvent
  | SkOperator | SkTypeParameter.

(** [vscode.DocumentSymbol]: a node of the outline tree.  Its induction
    principle, over the nested list of children, is proved below. *)
Local Unset Elimination Schemes.
Inductive DocumentSymbol :=
  mkSymbol { name : string; kind : SymbolKind; range : Range;
             children : list DocumentSymbol }.
Local Set Elimination Schemes.

Inductive ScopeKind :=
  | ScopeFunction | ScopeMethod | ScopeClass | ScopeModule | ScopeUnknown.

Record EditScope := mkEditScope {
  scopeName : string;
  scopeKind : ScopeKind;
  className : option string;
  scopeRange : Range;
  symbolKind : SymbolKind }.

Definition isRelevantSymbol (symbol : DocumentSymbol) : bool :=
  match kind symbol with
  | SkFunction | SkMethod | SkClass | SkConstructor
  | SkModule | SkNamespace | SkInterface | SkStruct => true
  | _ => false
  end.

Definition isClassLike (symbol : DocumentSymbol) : bool :=
  match kind symbol with
  | SkClass | SkStruct | SkInterface => true
  | _ => false
  end.

Definition mapSymbolKind (k : SymbolKind) : ScopeKind :=
  match k with
  | SkFunction => ScopeFunction
  | SkMethod | SkConstructor => ScopeMethod
  | SkClass | SkStruct | SkInterface => ScopeClass
  | SkModule | SkNamespace => ScopeModule
  | _ => ScopeUnknown
  end.

(** One iteration of the [for] loop of [findEnclosingSymbolForRange] at
    [symbol]: [Some m] when the loop returns [m] there, [None] when it goes
    on to the next symbol.  The inner [fix] is the recursive call on
    [symbol.children] (on an empty list the call returns [undefined], which
    is what the source's guard on [children.length] yields). *)
Fixpoint enclosingForRangeAt (r : Range) (symbol : DocumentSymbol)
  : option DocumentSymbol :=
  match symbol with
  | mkSymbol _ _ rg ch =>
      if contains rg r then
        match (fix loop (l : list DocumentSymbol) : option DocumentSymbol :=
                 match l with
                 | [] => None
                 | c :: l' =>
                     match enclosingForRangeAt r c with
                     | Some m => Some m
                     | None => loop l'
                     end
                 end) ch with
        | Some childMatch => Some childMatch
        | None => if isRelevantSymbol symbol then Some symbol else None
        end
      else None
  end.

Fixpoint findEnclosingSymbolForRange (symbols : list DocumentSymbol) (r : Range)
  : option DocumentSymbol :=
  match symbols with
  | [] => None
  | symbol :: rest =>
      match enclosingForRangeAt r symbol with
      | Some m => Some m
      | None => findEnclosingSymbolForRange rest r
      end
  end.

(** JavaScript truthiness of a [string | undefined]. *)
Definition truthy (s : option string) : bool :=
  match s with
  | Some EmptyString => false
  | Some _ => true
  | None => false
  end.

(** One iteration of the [for] loop of [findParentClassName] at [symbol]:
    [inl res] when the loop returns [res] there, [inr tt] when it goes on. *)
Fixpoint parentClassNameAt (method symbol : DocumentSymbol) : option string + unit :=
  match symbol with
  | mkSymbol nm _ rg ch =>
      if isClassLike symbol && contains rg (range method) then inl (Some nm)
      else
        let nested :=
          (fix loop (l : list DocumentSymbol) : option string :=
             match l with
             | [] => None
             | c :: l' =>
                 match parentClassNameAt method c with
                 | inl res => res
                 | inr _ => loop l'
                 end
             end) ch in
        if truthy nested then inl nested else inr tt
  end.

Fixpoint findParentClassName (method : DocumentSymbol) (symbols : list DocumentSymbol)
  : option string :=
  match symbols with
  | [] => None
  | symbol :: rest =>
      match parentClassNameAt method symbol with
      | inl res => res
      | inr _ => findParentClassName method rest
      end
  end.

Definition symbolToEditScope (symbol : DocumentSymbol) (allSymbols : list DocumentSymbol)
  : EditScope :=
  let kind_ := mapSymbolKind (kind symbol) in
  let className :=
    match kind_ with
    | ScopeMethod => findParentClassName symbol allSymbols
    | _ => None
    end in
  mkEditScope (name symbol) kind_ className (range symbol) (kind symbol).

(** [getEnclosingScopeForRange], given the outline the provider returned
    ([None] when the fetch failed or returned nothing). *)
Definition getEnclosingScopeForRange (outline : option (list DocumentSymbol)) (r : Range)
  : option EditScope :=
  match outline with
  | None | Some [] => None
  | Some symbols =>
      match findEnclosingSymbolForRange symbols r with
      | None => None
      | Some enclosing => Some (symbolToEditScope enclosing symbols)
      end
  end.

(** The specification's reading of [className], for comparison with
    [findParentClassName]: the nearest (innermost) class-like node whose
    range contains the method's range, so nested nodes are tried before the
    node itself. *)
Fixpoint nearestClassNameAt (method symbol : DocumentSymbol) : option string :=
  match symbol with
  | mkSymbol nm _ rg ch =>
      match (fix loop (l : list DocumentSymbol) : option string :=
               match l with
               | [] => None
               | c :: l' =>
                   match nearestClassNameAt method c with
                   | Some n => Some n
                   | None => loop l'
                   end
               end) ch with
      | Some n => Some n
      | None =>
          if isClassLike symbol && contains rg (range method) then Some nm else None
      end
  end.

Fixpoint nearestClassName (method : DocumentSymbol) (symbols : list DocumentSymbol)
  : option string :=
  match symbols with
  | [] => None
  | symbol :: rest =>
      match nearestClassNameAt method symbol with
      | Some n => Some n
      | None => nearestClassName method rest
      end
  end.

(** [Enclosing r symbols s]: [s] is a node of the outline [symbols] such
    that [s] and all its ancestors contain the range [r]. *)
Inductive Enclosing (r : Range) : list DocumentSymbol → DocumentSymbol → Prop :=
  | Enclosing_here symbols s :
      s ∈ symbols → contains (range s) r = true → Enclosing r symbols s
  | Enclosing_child symbols p s :
      p ∈ symbols → contains (range p) r = true →
      Enclosing r (children p) s → Enclosing r symbols s.

(** [InOutline symbols s]: [s] is a node of the outline. *)
Inductive InOutline : list DocumentSymbol → DocumentSymbol → Prop :=
  | InOutline_here symbols s : s ∈ symbols → InOutline symbols s
  | InOutline_child symbols p s :
      p ∈ symbols → InOutline (children p) s → InOutline symbols s.

(** What one loop iteration returns at [s]: a relevant node below (or at)
    [s], reached through containing nodes only, none of whose children
    matches. *)
Definition goodMatch (r : Range) (s m : DocumentSymbol) : Prop :=
  contains (range s) r = true ∧
  (m = s ∨ Enclosing r (children s) m) ∧
  isRelevantSymbol m = true ∧
  findEnclosingSymbolForRange (children m) r = None.

(** When the descent returns nothing, no relevant node is reachable
    through containing nodes. *)
Definition noMatch (r : Range) (s : DocumentSymbol) : Prop :=
  contains (range s) r = true →
  isRelevantSymbol s = false ∧
  ∀ m, Enclosing r (children s) m → isRelevantSymbol m = false.

(** One iteration of the [for] loop of [findEnclosingSymbol], the lookup at
    a position; same shape as [enclosingForRangeAt]. *)
Fixpoint enclosingAt (position : Position) (symbol : DocumentSymbol)
  : option DocumentSymbol :=
  match symbol with
  | mkSymbol _ _ rg ch =>
      if containsPosition rg position then
        match (fix loop (l : list DocumentSymbol) : option DocumentSymbol :=
                 match l with
                 | [] => None
                 | c :: l' =>
                     match enclosingAt position c with
                     | Some m => Some m
                     | None => loop l'
                     end
                 end) ch with
        | Some childMatch => Some childMatch
        | None => if isRelevantSymbol symbol then Some symbol else None
        end
      else None
  end.

Fixpoint findEnclosingSymbol (symbols : list DocumentSymbol) (position : Position)
  : option DocumentSymbol :=
  match symbols with
  | [] => None
  | symbol :: rest =>
      match enclosingAt position symbol with
      | Some m => Some m
      | None => findEnclosingSymbol rest position
      end
  end.

(** [getEnclosingScope], given the outline the provider returned. *)
Definition getEnclosingScope (outline : option (list DocumentSymbol))
    (position : Position) : option EditScope :=
  match outline with
  | None | Some [] => None
  | Some symbols =>
      match findEnclosingSymbol symbols position with
      | None => None
      | Some enclosing => Some (symbolToEditScope enclosing symbols)
      end
  end.

(** A value of the symbol cache. *)
Record CachedSymbols := mkCached { symbols : list DocumentSymbol; cachedVersion : N }.

(** [getDocumentSymbols].  [provider] is the completion of the
    [vscode.executeDocumentSymbolProvider] command, should it be run: it
    throws, returns [undefined] or returns an outline. *)
Definition getDocumentSymbols (provider : Js.Completion (option (list DocumentSymbol)))
    (document : TextDocument) (symbolCache : LRU.LRUCache CachedSymbols)
  : option (list DocumentSymbol) * LRU.LRUCache CachedSymbols :=
  let uri := Vscode.uri document in
  let '(cached, symbolCache) := LRU.get uri symbolCache in
  let fetch :=
    match provider with
    | Js.Normal (Some symbols) =>
        (Some symbols, LRU.set uri (mkCached symbols (version document)) symbolCache)
    | Js.Normal None => (None, symbolCache)
    | Js.Throw _ => (None, symbolCache)
    end in
  match cached with
  | Some entry =>
      if (cachedVersion entry =? version document)%N
      then (Some (symbols entry), symbolCache)
      else fetch
  | None => fetch
  end.

(** [clearCache(uri?)]: an absent or empty [uri] is falsy and clears the
    whole cache. *)
Definition clearCache (uri : option string) (symbolCache : LRU.LRUCache CachedSymbols)
  : LRU.LRUCache CachedSymbols :=
  if truthy uri then
    match uri with
    | Some u => (LRU.delete u symbolCache).2
    | None => symbolCache
    end
  else LRU.clear symbolCache.

(** What [findParentClassName] returns is the name of a class-like node
    of the outline whose range contains the method's range. *)
Definition classNameOf (method : DocumentSymbol) (l : list DocumentSymbol)
    (n : string) : Prop :=
  ∃ x, InOutline l x ∧ isClassLike x = true ∧
       contains (range x) (range method) = true ∧ name x = n.

(** A sequence of [getDocumentSymbols] requests: for each, the document and
    what the provider would answer. *)
Fixpoint requestAll
    (requests : list (Js.Completion (option (list DocumentSymbol)) * TextDocument))
    (symbolCache : LRU.LRUCache CachedSymbols) : LRU.LRUCache CachedSymbols :=
  match requests with
  | [] => symbolCache
  | (provider, document) :: rest =>
      requestAll rest (getDocumentSymbols provider document symbolCache).2
  end.

End ScopeTracker.

(** ** changeFilter.ts *)

Module ChangeFilter.
Import Vscode.

(** The class of a single change: ['code' | 'comment' | 'whitespace' |
    'formatting']. *)
Inductive ChangeKind := code | comment | whitespace | formatting.

#[global] Instance ChangeKind_eq_dec : EqDecision ChangeKind.
Proof. solve_decision. Defined.

(** [ChangeClassification['changeType']] *)
Inductive ChangeType :=
  | typeCode | typeComment | typeWhitespace | typeFormatting | typeMixed.

Record ChangeClassification := mkClassification {
  isSignificant : bool;
  changeType : ChangeType;
  affectedRange : Range }.

Record FilterConfig := mkFilterConfig {
  ignoreComments : bool;
  ignoreWhitespace : bool;
  ignoreFormatting : bool }.

Definition DEFAULT_CONFIG : FilterConfig := mkFilterConfig true true true.

(** The three regular expressions of a language, as tests on a string;
    [blockStart] gives the index of its first match, as [search] does. *)
Record CommentPattern := mkPattern {
  lineComment : string → bool;
  blockStart : string → option nat;
  blockEnd : string → bool }.

Definition doubleQuote : ascii := ascii_of_nat 34.
Definition tripleDouble : string :=
  String doubleQuote (String doubleQuote (String doubleQuote EmptyString)).
Definition tripleSingle : string := "'''".

(** [/^\s*\/\//], [/\/\*/], [/\*\//] *)
Definition slashPatterns : CommentPattern :=
  mkPattern (λ s, Js.startsWith "//" (Js.trimStart s))
            (Js.search "/*")
            (λ s, Js.isSome (Js.search "*/" s)).

(** [/^\s*#/], a triple quote after leading blanks, a triple quote before
    trailing blanks *)
Definition pythonPatterns : CommentPattern :=
  mkPattern (λ s, Js.startsWith "#" (Js.trimStart s))
            (λ s, if Js.startsWith tripleDouble (Js.trimStart s)
                     || Js.startsWith tripleSingle (Js.trimStart s)
                  then Some 0 else None)
            (λ s, Js.endsWith tripleDouble (Js.trimEnd s)
                  || Js.endsWith tripleSingle (Js.trimEnd s)).

(** The own properties of the object literal [COMMENT_PATTERNS]. *)
Definition COMMENT_PATTERNS (languageId : string) : option CommentPattern :=
  if Js.strEq languageId "go" then Some slashPatterns
  else if Js.strEq languageId "javascript" then Some slashPatterns
  else if Js.strEq languageId "typescript" then Some slashPatterns
  else if Js.strEq languageId "python" then Some pythonPatterns
  else if Js.strEq languageId "java" then Some slashPatterns
  else if Js.strEq languageId "rust" then Some slashPatterns
  else if Js.strEq languageId "c" then Some slashPatterns
  else if Js.strEq languageId "cpp" then Some slashPatterns
  else None.

(** The value of [COMMENT_PATTERNS[languageId]]: the patterns of an own
    property; or a member of [Object.prototype], which is truthy and has no
    [line], [blockStart] or [blockEnd]; or [undefined]. *)
Inductive PatternsEntry :=
  | ownPatterns (patterns : CommentPattern)
  | inheritedMember
  | noPatterns.

Definition patternsOf (languageId : string) : PatternsEntry :=
  match COMMENT_PATTERNS languageId with
  | Some patterns => ownPatterns patterns
  | None => if Js.inObjectPrototype languageId then inheritedMember else noPatterns
  end.

Definition getOldText (document : TextDocument) (r : Range) (_rangeLength : N) : string :=
  match Js.tryCatch (getText document r) (λ _, Js.Normal EmptyString) with
  | Js.Normal t => t
  | Js.Throw _ => EmptyString
  end.

Definition isWhitespaceOnly (oldText newText : string) : bool :=
  let oldTrimmed := Js.trim oldText in
  let newTrimmed := Js.trim newText in
  if Js.strEq oldTrimmed EmptyString && Js.strEq newTrimmed EmptyString then true
  else if Js.strEq oldTrimmed EmptyString || Js.strEq newTrimmed EmptyString then
    Js.strEq oldTrimmed EmptyString && Js.strEq newTrimmed EmptyString
  else false.

Definition isFormattingOnly (oldText newText : string) : bool :=
  let oldNormalized := Js.removeWhiteSpace oldText in
  let newNormalized := Js.removeWhiteSpace newText in
  Js.strEq oldNormalized newNormalized && negb (Js.strEq oldText newText).

(** The inner loop of [isInComment]: lines [j], [j + 1], ..., [j + count - 1];
    [true] when one of them matches [blockEnd]. *)
Fixpoint closedBefore (patterns : CommentPattern) (document : TextDocument)
    (j : N) (count : nat) : Js.Completion bool :=
  match count with
  | O => Js.Normal false
  | S count' =>
      Js.bind (lineAt document j) (λ t,
        if blockEnd patterns t then Js.Normal true
        else closedBefore patterns document (j + 1) count')
  end.

(** The outer loop of [isInComment], at line [i] and then downwards to
    line 0. *)
Fixpoint scanBackwards (patterns : CommentPattern) (document : TextDocument)
    (startLine : N) (i : nat) : Js.Completion bool :=
  Js.bind (lineAt document (N.of_nat i)) (λ lineText,
    if (N.of_nat i <? startLine)%N && blockEnd patterns lineText then Js.Normal false
    else
      let next (_ : unit) :=
        match i with
        | O => Js.Normal false
        | S i' => scanBackwards patterns document startLine i'
        end in
      match blockStart patterns lineText with
      | Some idx =>
          let afterStart := Js.substringFrom idx lineText in
          if negb (blockEnd patterns afterStart) then
            Js.bind (closedBefore patterns document (N.of_nat i + 1)
                       (N.to_nat startLine - i))
              (λ closed, Js.Normal (negb closed))
          else next tt
      | None => next tt
      end).

(** For an inherited member [patterns.line] is [undefined], and
    [patterns.line.test] throws once [lineAt] has returned. *)
Definition isInComment (document : TextDocument) (r : Range) : Js.Completion bool :=
  match patternsOf (languageId document) with
  | noPatterns => Js.Normal false
  | inheritedMember =>
      Js.bind (lineAt document (line (start r))) (λ _, Js.Throw Js.undefinedTest)
  | ownPatterns patterns =>
      Js.bind (lineAt document (line (start r))) (λ lineText,
        if lineComment patterns lineText then Js.Normal true
        else scanBackwards patterns document (line (start r))
               (N.to_nat (line (start r))))
  end.

Definition isCommentText (languageId : string) (text : string) : Js.Completion bool :=
  match patternsOf languageId with
  | noPatterns => Js.Normal false
  | inheritedMember =>
      let trimmed := Js.trim text in
      if Js.strEq trimmed EmptyString then Js.Normal false
      else Js.Throw Js.undefinedTest
  | ownPatterns patterns =>
      let trimmed := Js.trim text in
      if Js.strEq trimmed EmptyString then Js.Normal false
      else if lineComment patterns trimmed then Js.Normal true
      else if Js.isSome (blockStart patterns trimmed) && blockEnd patterns trimmed
      then Js.Normal true
      else Js.Normal false
  end.

Definition classifySingleChange (document : TextDocument)
    (change : TextDocumentContentChangeEvent) : Js.Completion ChangeKind :=
  let newText := text change in
  let r := range change in
  let oldText := getOldText document r (rangeLength change) in
  if isWhitespaceOnly oldText newText then Js.Normal whitespace
  else if isFormattingOnly oldText newText then Js.Normal formatting
  else
    Js.bind (isInComment document r) (λ inComment,
      if inComment then Js.Normal comment
      else
        Js.bind (isCommentText (languageId document) newText) (λ commentText,
          if commentText then Js.Normal comment else Js.Normal code)).

(** The loop body of [getCombinedRange]: the running start and end. *)
Definition extend (acc : N * N * N * N) (r : Range) : N * N * N * N :=
  let '(startLine, startChar, endLine, endChar) := acc in
  let '(startLine, startChar) :=
    if (line (start r) <? startLine)%N
       || ((line (start r) =? startLine)%N && (character (start r) <? startChar)%N)
    then (line (start r), character (start r)) else (startLine, startChar) in
  let '(endLine, endChar) :=
    if (endLine <? line (end_ r))%N
       || ((line (end_ r) =? endLine)%N && (endChar <? character (end_ r))%N)
    then (line (end_ r), character (end_ r)) else (endLine, endChar) in
  (startLine, startChar, endLine, endChar).

Definition getCombinedRange (changes : list TextDocumentContentChangeEvent) : Range :=
  match changes with
  | [] => Range_new 0 0 0 0
  | first :: _ =>
      let init := (line (start (range first)), character (start (range first)),
                   line (end_ (range first)), character (end_ (range first))) in
      let '(startLine, startChar, endLine, endChar) :=
        fold_left (λ acc change, extend acc (range change)) changes init in
      Range_new startLine startChar endLine endChar
  end.

(** [classifications.some((c) => c === t)] *)
Definition some (t : ChangeKind) (classifications : list ChangeKind) : bool :=
  existsb (λ c, bool_decide (c = t)) classifications.

(** The overall verdict of [classify] from the per-change classes. *)
Definition combine (config : FilterConfig) (classifications : list ChangeKind)
  : ChangeType * bool :=
  let hasCode := some code classifications in
  let hasComment := some comment classifications in
  let hasWhitespace := some whitespace classifications in
  let hasFormatting := some formatting classifications in
  if hasCode then
    (if hasComment || hasWhitespace then typeMixed else typeCode, true)
  else if hasComment && negb hasWhitespace && negb hasFormatting then
    (typeComment, negb (ignoreComments config))
  else if hasWhitespace && negb hasComment && negb hasFormatting then
    (typeWhitespace, negb (ignoreWhitespace config))
  else if hasFormatting then
    (typeFormatting, negb (ignoreFormatting config))
  else (typeMixed, true).

Definition classify (config : FilterConfig) (document : TextDocument)
    (changes : list TextDocumentContentChangeEvent)
  : Js.Completion ChangeClassification :=
  match changes with
  | [] => Js.Normal (mkClassification false typeWhitespace (Range_new 0 0 0 0))
  | _ =>
      let affectedRange := getCombinedRange changes in
      Js.bind (Js.mapM (classifySingleChange document) changes) (λ classifications,
        let '(changeType, isSignificant) := combine config classifications in
        Js.Normal (mkClassification isSignificant changeType affectedRange))
  end.

(** [Partial<FilterConfig>]: [None] for a property that is not set. *)
Record PartialFilterConfig := mkPartial {
  partialComments : option bool;
  partialWhitespace : option bool;
  partialFormatting : option bool }.

(** [{ ...config, ...partial }] *)
Definition spread (config : FilterConfig) (partial : PartialFilterConfig) : FilterConfig :=
  mkFilterConfig
    (default (ignoreComments config) (partialComments partial))
    (default (ignoreWhitespace config) (partialWhitespace partial))
    (default (ignoreFormatting config) (partialFormatting partial)).

(** [new ChangeFilter(config)] *)
Definition new (partial : PartialFilterConfig) : FilterConfig := spread DEFAULT_CONFIG partial.

Definition updateConfig (partial : PartialFilterConfig) (config : FilterConfig)
  : FilterConfig := spread config partial.

(** [{ ...a, ...b }] on two partial configurations. *)
Definition spreadPartial (a b : PartialFilterConfig) : PartialFilterConfig :=
  mkPartial
    (match partialComments b with Some x => Some x | None => partialComments a end)
    (match partialWhitespace b with Some x => Some x | None => partialWhitespace a end)
    (match partialFormatting b with Some x => Some x | None => partialFormatting a end).

End ChangeFilter.

(** ** editBuffer.ts *)

Module EditBuffer.
Import Vscode.

Record BufferedEdit := mkBufferedEdit {
  changes : list TextDocumentContentChangeEvent;
  timestamp : N;
  editVersion : N }.

(** A value of the [buffer] map. *)
Record Entry := mkEntry { document : TextDocument; edits : list BufferedEdit }.

(** The fields of an [EditBuffer] object, and the console it logs to.
    [timers] holds the URIs whose idle timeout is pending. *)
Record State := mkState {
  buffer : gmap string Entry;
  timers : gset string;
  idleMs : N;
  console : list string }.

Definition new (idleMs : N) : State := mkState ∅ ∅ idleMs [].

(** Code that runs on the edit buffer and may throw. *)
Definition Eff (A : Type) : Type := State → State * Js.Completion A.

Definition ret {A} (a : A) : Eff A := λ st, (st, Js.Normal a).

Definition bind {A B} (m : Eff A) (f : A → Eff B) : Eff B :=
  λ st, match m st with
        | (st', Js.Normal a) => f a st'
        | (st', Js.Throw e) => (st', Js.Throw e)
        end.

Definition tryCatch {A} (m : Eff A) (handler : string → Eff A) : Eff A :=
  λ st, match m st with
        | (st', Js.Normal a) => (st', Js.Normal a)
        | (st', Js.Throw e) => handler e st'
        end.

Definition modify (f : State → State) : Eff unit := λ st, (f st, Js.Normal tt).

Definition consoleError (message : string) : Eff unit :=
  modify (λ st, mkState (buffer st) (timers st) (idleMs st) (console st ++ [message])).

(** The consumer-supplied idle callback; it may call back into the buffer. *)
Definition IdleCallback : Type := string → TextDocument → list BufferedEdit → Eff unit.

Definition cancelTimer (uri : string) (st : State) : State :=
  mkState (buffer st) (timers st ∖ {[uri]}) (idleMs st) (console st).

(** [resetTimer]: cancel the pending timeout of [uri] and start a new one. *)
Definition resetTimer (uri : string) (st : State) : State :=
  let st := cancelTimer uri st in
  mkState (buffer st) ({[uri]} ∪ timers st) (idleMs st) (console st).

(** [addEdit] at time [now] ([Date.now()]). *)
Definition addEdit (now : N) (doc : TextDocument)
    (changes : list TextDocumentContentChangeEvent) (st : State) : State :=
  let uri := Vscode.uri doc in
  let entry :=
    match buffer st !! uri with
    | Some entry => entry
    | None => mkEntry doc []
    end in
  let entry := mkEntry doc (edits entry ++ [mkBufferedEdit changes now (version doc)]) in
  resetTimer uri (mkState (<[uri := entry]> (buffer st)) (timers st) (idleMs st) (console st)).

Definition flush (uri : string) (st : State) : option Entry * State :=
  let st := cancelTimer uri st in
  (buffer st !! uri,
   mkState (delete uri (buffer st)) (timers st) (idleMs st) (console st)).

Definition hasBufferedEdits (uri : string) (st : State) : bool :=
  match buffer st !! uri with
  | Some entry => negb (Nat.eqb (length (edits entry)) 0)
  | None => false
  end.

Definition getBufferedEditCount (uri : string) (st : State) : nat :=
  match buffer st !! uri with
  | Some entry => length (edits entry)
  | None => 0
  end.

Definition onTimerFired (idleCallback : option IdleCallback) (uri : string) : Eff unit :=
  λ st,
    match buffer st !! uri with
    | None => (st, Js.Normal tt)
    | Some entry =>
        if Nat.eqb (length (edits entry)) 0 then (st, Js.Normal tt)
        else
          let st := mkState (delete uri (buffer st)) (timers st) (idleMs st) (console st) in
          match idleCallback with
          | None => (st, Js.Normal tt)
          | Some callback =>
              tryCatch (callback uri (document entry) (edits entry))
                (λ error, consoleError ("[EditBuffer] Idle callback error: " ++ error)%string)
                st
          end
    end.

(** The function [resetTimer] hands to [setTimeout], run when the idle
    timeout of [uri] fires. *)
Definition timerFires (idleCallback : option IdleCallback) (uri : string) : Eff unit :=
  tryCatch
    (bind (modify (cancelTimer uri)) (λ _, onTimerFired idleCallback uri))
    (λ error, consoleError ("[EditBuffer] Timer callback error: " ++ error)%string).

Definition MAX_SAFE_INTEGER : N := 9007199254740991.

(** The body of the inner loop of [getCombinedRange]. *)
Definition extend (acc : N * N * N * N) (r : Range) : N * N * N * N :=
  let '(startLine, startChar, endLine, endChar) := acc in
  let '(startLine, startChar) :=
    if (line (start r) <? startLine)%N
       || ((line (start r) =? startLine)%N && (character (start r) <? startChar)%N)
    then (line (start r), character (start r)) else (startLine, startChar) in
  let '(endLine, endChar) :=
    if (endLine <? line (end_ r))%N
       || ((line (end_ r) =? endLine)%N && (endChar <? character (end_ r))%N)
    then (line (end_ r), character (end_ r)) else (endLine, endChar) in
  (startLine, startChar, endLine, endChar).

Definition getCombinedRange (edits : list BufferedEdit) : Range :=
  match edits with
  | [] => Range_new 0 0 0 0
  | _ =>
      let init := (MAX_SAFE_INTEGER, MAX_SAFE_INTEGER, 0%N, 0%N) in
      let '(startLine, startChar, endLine, endChar) :=
        fold_left
          (λ acc edit, fold_left (λ acc change, extend acc (range change))
                         (changes edit) acc)
          edits init in
      if (startLine =? MAX_SAFE_INTEGER)%N then Range_new 0 0 0 0
      else Range_new startLine startChar endLine endChar
  end.

(** All change ranges of a list of edits, in loop order. *)
Definition changeRanges (edits : list BufferedEdit) : list Range :=
  concat (map (λ edit, map range (changes edit)) edits).

Definition setIdleMs (ms : N) (st : State) : State :=
  mkState (buffer st) (timers st) ms (console st).

(** [flushAll]: cancel the timer of every URI in [timers], copy the
    buffer, clear it. *)
Definition flushAll (st : State) : gmap string Entry * State :=
  let st := foldr cancelTimer st (elements (timers st)) in
  (buffer st, mkState ∅ (timers st) (idleMs st) (console st)).

(** [dispose]: no callback runs. *)
Definition dispose (st : State) : State := mkState ∅ ∅ (idleMs st) (console st).

(** A burst of [addEdit] calls: the time, document and changes of each. *)
Definition addEdits (calls : list (N * TextDocument * list TextDocumentContentChangeEvent))
    (st : State) : State :=
  fold_left (λ st call, addEdit call.1.1 call.1.2 call.2 st) calls st.

(** The edit [addEdit] records for a call. *)
Definition editOf (call : N * TextDocument * list TextDocumentContentChangeEvent)
  : BufferedEdit :=
  mkBufferedEdit call.2 call.1.1 (version call.1.2).

(** Every buffered URI has a pending timer and at least one edit, and no
    timer is pending for a URI without entry. *)
Definition buffering (st : State) : Prop :=
  dom (buffer st) = timers st ∧
  ∀ uri entry, buffer st !! uri = Some entry → edits entry ≠ [].

(** The edits already buffered for a URI. *)
Definition priorEdits (u : string) (st : State) : list BufferedEdit :=
  match buffer st !! u with Some entry => edits entry | None => [] end.

End EditBuffer.

(** ** smartDiagnostics.ts *)

Module SmartDiagnostics.
Import Vscode.

Record Stats := mkStats { totalChanges : N; filteredOut : N; sentToLsp : N }.

(** What [log] writes to the output channel. *)
Inductive LogEntry :=
  | LogClientNotRunning
  | LogFailedToGetScope (error : string)
  | LogSendingToLsp (editCount : nat) (scope : option ScopeTracker.EditScope)
  | LogDriftCheckFailed (error : string).

(** The mutable fields of a [SmartDiagnostics] object, the warnings it has
    shown (the time of each [showWarningMessage] call) and its log. *)
Record State := mkState {
  stats : Stats;
  consecutiveFailures : N;
  lastNotificationTime : Z;
  warningsShown : list Z;
  logged : list LogEntry }.

Definition FAILURE_THRESHOLD : N := 3.
Definition NOTIFICATION_COOLDOWN_MS : Z := 60000.

Definition new : State := mkState (mkStats 0 0 0) 0 0 [] [].

(** The payload of a [vokt/checkDrift] request. *)
Record Request := mkRequest {
  requestUri : string;
  content : string;
  requestVersion : N;
  scope : option ScopeTracker.EditScope;
  requestRange : Range }.

(** The collaborators.  Each is consulted in the state the object is in at
    the time of the call. *)
Record LanguageClient := mkClient {
  isRunning : State → bool;
  sendRequest : State → Request → Js.Completion unit }.

Definition ScopeResolver : Type :=
  State → TextDocument → Range → Js.Completion (option ScopeTracker.EditScope).

Definition log (entry : LogEntry) (st : State) : State :=
  mkState (stats st) (consecutiveFailures st) (lastNotificationTime st)
    (warningsShown st) (logged st ++ [entry]).

Definition setConsecutiveFailures (n : N) (st : State) : State :=
  mkState (stats st) n (lastNotificationTime st) (warningsShown st) (logged st).

(** [vscode.window.showWarningMessage] at time [now], after
    [this.lastNotificationTime = now]. *)
Definition showWarning (now : Z) (st : State) : State :=
  mkState (stats st) (consecutiveFailures st) now (warningsShown st ++ [now]) (logged st).

(** [handleLspFailure]; [now] is what [Date.now()] returns. *)
Definition handleLspFailure (now : Z) (st : State) : State :=
  let st := setConsecutiveFailures (consecutiveFailures st + 1) st in
  if (FAILURE_THRESHOLD <=? consecutiveFailures st)%N then
    let st :=
      if (NOTIFICATION_COOLDOWN_MS <? now - lastNotificationTime st)%Z
      then showWarning now st else st in
    setConsecutiveFailures 0 st
  else st.

Definition sendToLSP (client : option LanguageClient) (document : TextDocument)
    (scope : option ScopeTracker.EditScope) (affectedRange : Range) (now : Z)
    (st : State) : State :=
  match client with
  | None => st
  | Some c =>
      let request :=
        mkRequest (uri document) (Js.join (eol document) (lines document))
          (version document) scope affectedRange in
      match sendRequest c st request with
      | Js.Normal _ => setConsecutiveFailures 0 st
      | Js.Throw error => handleLspFailure now (log (LogDriftCheckFailed error) st)
      end
  end.

Definition countSent (st : State) : State :=
  mkState (mkStats (totalChanges (stats st)) (filteredOut (stats st))
             (sentToLsp (stats st) + 1))
    (consecutiveFailures st) (lastNotificationTime st) (warningsShown st) (logged st).

(** The state after the counter update and scope resolution of
    [processEdits], and the scope found. *)
Definition resolveScope (scopeTracker : ScopeResolver) (document : TextDocument)
    (edits : list EditBuffer.BufferedEdit) (st : State)
  : option ScopeTracker.EditScope * State :=
  let combinedRange := EditBuffer.getCombinedRange edits in
  let '(scope, st) :=
    match scopeTracker st document combinedRange with
    | Js.Normal scope => (scope, st)
    | Js.Throw error => (None, log (LogFailedToGetScope error) st)
    end in
  (scope, log (LogSendingToLsp (length edits) scope) st).

Definition processEdits (client : option LanguageClient) (scopeTracker : ScopeResolver)
    (uri : string) (document : TextDocument) (edits : list EditBuffer.BufferedEdit)
    (now : Z) (st : State) : State :=
  match client with
  | None => log LogClientNotRunning st
  | Some c =>
      if negb (isRunning c st) then log LogClientNotRunning st
      else
        match edits with
        | [] => st
        | _ =>
            let st := countSent st in
            let combinedRange := EditBuffer.getCombinedRange edits in
            let '(scope, st) := resolveScope scopeTracker document edits st in
            sendToLSP client document scope combinedRange now st
        end
  end.

(** A client whose request completes as [result]. *)
Definition clientAnswering (result : Js.Completion unit) : LanguageClient :=
  mkClient (λ _, true) (λ _ _, result).

(** One dispatch whose request completes as [result] at time [now]. *)
Definition dispatch (document : TextDocument) (affectedRange : Range)
    (result : Js.Completion unit) (now : Z) (st : State) : State :=
  sendToLSP (Some (clientAnswering result)) document None affectedRange now st.

(** A sequence of dispatches: the completion of each request and the time
    at which it completes. *)
Fixpoint dispatchAll (document : TextDocument) (affectedRange : Range)
    (outcomes : list (Js.Completion unit * Z)) (st : State) : State :=
  match outcomes with
  | [] => st
  | (result, now) :: rest =>
      dispatchAll document affectedRange rest
        (dispatch document affectedRange result now st)
  end.

(** The failure streak stays below the threshold, and
    [lastNotificationTime] is the time of the last warning shown. *)
Definition healthInv (st : State) : Prop :=
  (consecutiveFailures st < 3)%N ∧
  lastNotificationTime st = List.last (warningsShown st) 0%Z.

(** Warning times that are more than the cooldown apart, the first one
    more than the cooldown after [prev]. *)
Fixpoint gapped (prev : Z) (times : list Z) : Prop :=
  match times with
  | [] => True
  | t :: rest => (NOTIFICATION_COOLDOWN_MS < t - prev)%Z ∧ gapped t rest
  end.

(** The number of failed requests among the outcomes of a run. *)
Fixpoint failureCount (outcomes : list (Js.Completion unit * Z)) : nat :=
  match outcomes with
  | [] => 0
  | (Js.Throw _, _) :: rest => S (failureCount rest)
  | (Js.Normal _, _) :: rest => failureCount rest
  end.

End SmartDiagnostics.

(** ** smartDiagnostics.ts: the whole [SmartDiagnostics] object *)

Module Pipeline.
Import Vscode.

Record SmartDiagnosticsConfig := mkConfig {
  idleMs : N;
  filter : ChangeFilter.PartialFilterConfig;
  enabled : bool }.

(** [Partial<SmartDiagnosticsConfig>] *)
Record PartialConfig := mkPartialConfig {
  partialIdleMs : option N;
  partialFilter : option ChangeFilter.PartialFilterConfig;
  partialEnabled : option bool }.

Definition DEFAULT_CONFIG : SmartDiagnosticsConfig :=
  mkConfig 400 (ChangeFilter.mkPartial (Some true) (Some true) (Some true)) true.

(** What [onDocumentChange] and [onDocumentSave] write to the output
    channel. *)
Inductive ChangeLog :=
  | LogChange (changeType : ChangeFilter.ChangeType) (significant : bool)
  | LogFilteredOut (changeType : ChangeFilter.ChangeType)
  | LogBuffered (pending : nat)
  | LogFlushingOnSave (editCount : nat).

(** The object: its configuration, its change filter, its edit buffer, its
    client, and the counters and failure state of [SmartDiagnostics.State].
    The scope tracker is a collaborator. *)
Record Object := mkObject {
  config : SmartDiagnosticsConfig;
  changeFilter : ChangeFilter.FilterConfig;
  editBuffer : EditBuffer.State;
  client : option SmartDiagnostics.LanguageClient;
  core : SmartDiagnostics.State;
  changeLog : list ChangeLog }.

(** [new SmartDiagnostics(config)] *)
Definition new (partial : PartialConfig) : Object :=
  let config :=
    mkConfig (default (idleMs DEFAULT_CONFIG) (partialIdleMs partial))
             (default (filter DEFAULT_CONFIG) (partialFilter partial))
             (default (enabled DEFAULT_CONFIG) (partialEnabled partial)) in
  mkObject config (ChangeFilter.new (filter config)) (EditBuffer.new (idleMs config))
    None SmartDiagnostics.new [].

Definition setClient (c : SmartDiagnostics.LanguageClient) (o : Object) : Object :=
  mkObject (config o) (changeFilter o) (editBuffer o) (Some c) (core o) (changeLog o).

Definition updateConfig (partial : PartialConfig) (o : Object) : Object :=
  let o :=
    match partialIdleMs partial with
    | Some ms =>
        mkObject (mkConfig ms (filter (config o)) (enabled (config o)))
          (changeFilter o) (EditBuffer.setIdleMs ms (editBuffer o))
          (client o) (core o) (changeLog o)
    | None => o
    end in
  let o :=
    match partialFilter partial with
    | Some f =>
        let merged := ChangeFilter.spreadPartial (filter (config o)) f in
        mkObject (mkConfig (idleMs (config o)) merged (enabled (config o)))
          (ChangeFilter.updateConfig merged (changeFilter o)) (editBuffer o)
          (client o) (core o) (changeLog o)
    | None => o
    end in
  match partialEnabled partial with
  | Some e =>
      mkObject (mkConfig (idleMs (config o)) (filter (config o)) e)
        (changeFilter o) (editBuffer o) (client o) (core o) (changeLog o)
  | None => o
  end.

Definition withStats (f : SmartDiagnostics.Stats → SmartDiagnostics.Stats)
    (o : Object) : Object :=
  let s := core o in
  mkObject (config o) (changeFilter o) (editBuffer o) (client o)
    (SmartDiagnostics.mkState (f (SmartDiagnostics.stats s))
       (SmartDiagnostics.consecutiveFailures s)
       (SmartDiagnostics.lastNotificationTime s)
       (SmartDiagnostics.warningsShown s) (SmartDiagnostics.logged s))
    (changeLog o).

Definition logChange (entry : ChangeLog) (o : Object) : Object :=
  mkObject (config o) (changeFilter o) (editBuffer o) (client o) (core o)
    (changeLog o ++ [entry]).

Definition withEditBuffer (eb : EditBuffer.State) (o : Object) : Object :=
  mkObject (config o) (changeFilter o) eb (client o) (core o) (changeLog o).

Definition withCore (s : SmartDiagnostics.State) (o : Object) : Object :=
  mkObject (config o) (changeFilter o) (editBuffer o) (client o) s (changeLog o).

(** [onDocumentChange(event)] at time [now]; [scheme] is
    [event.document.uri.scheme].  An exception of [classify] leaves the
    handler. *)
Definition onDocumentChange (now : N) (scheme : string) (document : TextDocument)
    (contentChanges : list TextDocumentContentChangeEvent) (o : Object)
  : Object * Js.Completion unit :=
  if negb (enabled (config o)) then (o, Js.Normal tt)
  else if negb (Js.strEq scheme "file") then (o, Js.Normal tt)
  else
    let o := withStats (λ s, SmartDiagnostics.mkStats
                               (SmartDiagnostics.totalChanges s + 1)
                               (SmartDiagnostics.filteredOut s)
                               (SmartDiagnostics.sentToLsp s)) o in
    match ChangeFilter.classify (changeFilter o) document contentChanges with
    | Js.Throw error => (o, Js.Throw error)
    | Js.Normal classification =>
        let o := logChange (LogChange (ChangeFilter.changeType classification)
                              (ChangeFilter.isSignificant classification)) o in
        if negb (ChangeFilter.isSignificant classification) then
          let o := withStats (λ s, SmartDiagnostics.mkStats
                                     (SmartDiagnostics.totalChanges s)
                                     (SmartDiagnostics.filteredOut s + 1)
                                     (SmartDiagnostics.sentToLsp s)) o in
          (logChange (LogFilteredOut (ChangeFilter.changeType classification)) o,
           Js.Normal tt)
        else
          let o := withEditBuffer
                     (EditBuffer.addEdit now document contentChanges (editBuffer o)) o in
          (logChange (LogBuffered
                        (EditBuffer.getBufferedEditCount (uri document) (editBuffer o))) o,
           Js.Normal tt)
    end.

(** [onDocumentSave(document)]; the dispatch of [processEdits] completes at
    time [now].  [processEdits] is run to completion. *)
Definition onDocumentSave (scopeTracker : SmartDiagnostics.ScopeResolver) (now : Z)
    (scheme : string) (document : TextDocument) (o : Object) : Object :=
  if negb (enabled (config o)) then o
  else if negb (Js.strEq scheme "file") then o
  else
    let uri := Vscode.uri document in
    if EditBuffer.hasBufferedEdits uri (editBuffer o) then
      let '(flushed, eb) := EditBuffer.flush uri (editBuffer o) in
      let o := withEditBuffer eb o in
      match flushed with
      | Some entry =>
          let o := logChange (LogFlushingOnSave (length (EditBuffer.edits entry))) o in
          withCore
            (SmartDiagnostics.processEdits (client o) scopeTracker uri
               (EditBuffer.document entry) (EditBuffer.edits entry) now (core o)) o
      | None => o
      end
    else o.

(** The idle timer of [uri] fires: the timer function of the edit buffer
    with the callback the constructor registers, [processEdits]. *)
Definition onIdleTimer (scopeTracker : SmartDiagnostics.ScopeResolver) (now : Z)
    (uri : string) (o : Object) : Object :=
  let eb := EditBuffer.cancelTimer uri (editBuffer o) in
  match EditBuffer.buffer eb !! uri with
  | None => withEditBuffer eb o
  | Some entry =>
      if Nat.eqb (length (EditBuffer.edits entry)) 0 then withEditBuffer eb o
      else
        let eb := EditBuffer.mkState (delete uri (EditBuffer.buffer eb))
                    (EditBuffer.timers eb) (EditBuffer.idleMs eb)
                    (EditBuffer.console eb) in
        let o := withEditBuffer eb o in
        withCore
          (SmartDiagnostics.processEdits (client o) scopeTracker uri
             (EditBuffer.document entry) (EditBuffer.edits entry) now (core o)) o
  end.

(** [getStats()]: a copy of the counters. *)
Definition getStats (o : Object) : SmartDiagnostics.Stats :=
  SmartDiagnostics.stats (core o).

(** [resetStats()] *)
Definition resetStats (o : Object) : Object :=
  withStats (λ _, SmartDiagnostics.mkStats 0 0 0) o.

(** [dispose()]: the edit buffer is disposed of; the symbol cache it
    clears belongs to the scope tracker, and [disposables] is empty. *)
Definition dispose (o : Object) : Object :=
  withEditBuffer (EditBuffer.dispose (editBuffer o)) o.

(** The events the object reacts to: the calls of its public methods that
    change its state, and its idle timers. *)
Inductive Event :=
  | Changed (now : N) (scheme : string) (document : TextDocument)
      (contentChanges : list TextDocumentContentChangeEvent)
  | Saved (now : Z) (scheme : string) (document : TextDocument)
  | IdleTimer (now : Z) (uri : string)
  | ClientSet (c : SmartDiagnostics.LanguageClient)
  | ConfigUpdated (partial : PartialConfig)
  | StatsReset
  | Disposed.

Definition react (scopeTracker : SmartDiagnostics.ScopeResolver) (e : Event) (o : Object)
  : Object :=
  match e with
  | Changed now scheme document contentChanges =>
      (onDocumentChange now scheme document contentChanges o).1
  | Saved now scheme document => onDocumentSave scopeTracker now scheme document o
  | IdleTimer now uri => onIdleTimer scopeTracker now uri o
  | ClientSet c => setClient c o
  | ConfigUpdated partial => updateConfig partial o
  | StatsReset => resetStats o
  | Disposed => dispose o
  end.

Definition reactAll (scopeTracker : SmartDiagnostics.ScopeResolver)
    (events : list Event) (o : Object) : Object :=
  fold_left (λ o e, react scopeTracker e o) events o.

(** The number of edits waiting in the buffer. *)
Definition pendingEdits (o : Object) : nat :=
  map_fold (λ _ entry n, length (EditBuffer.edits entry) + n) 0
    (EditBuffer.buffer (editBuffer o)).

(** The counters and failure state after [n] more counted changes. *)
Definition moreChanges (n : N) (s : SmartDiagnostics.State) : SmartDiagnostics.State :=
  SmartDiagnostics.mkState
    (SmartDiagnostics.mkStats
       (SmartDiagnostics.totalChanges (SmartDiagnostics.stats s) + n)
       (SmartDiagnostics.filteredOut (SmartDiagnostics.stats s))
       (SmartDiagnostics.sentToLsp (SmartDiagnostics.stats s)))
    (SmartDiagnostics.consecutiveFailures s) (SmartDiagnostics.lastNotificationTime s)
    (SmartDiagnostics.warningsShown s) (SmartDiagnostics.logged s).

(** The change events of a burst of edits to [file:] documents. *)
Definition changeEvents
    (calls : list (N * TextDocument * list TextDocumentContentChangeEvent))
  : list Event :=
  map (λ call, Changed call.1.1 "file" call.1.2 call.2) calls.

(** A change the object's filter lets through. *)
Definition significantFor (o : Object)
    (call : N * TextDocument * list TextDocumentContentChangeEvent) : Prop :=
  ∃ classification,
    ChangeFilter.classify (changeFilter o) call.1.2 call.2 = Js.Normal classification ∧
    ChangeFilter.isSignificant classification = true.

(** The edits that were waiting in the buffer when the counters were
    last reset, along a run of events that starts at [o] with [carried]
    such edits: [resetStats] zeroes the counters and leaves the buffer. *)
Fixpoint carriedEdits (scopeTracker : SmartDiagnostics.ScopeResolver)
    (events : list Event) (o : Object) (carried : nat) : nat :=
  match events with
  | [] => carried
  | e :: rest =>
      carriedEdits scopeTracker rest (react scopeTracker e o)
        (match e with StatsReset => pendingEdits o | _ => carried end)
  end.

(** The object's accounting: dispatches, filtered changes and waiting
    edits never add up to more than the changes counted and the edits
    carried over the last reset; the edit buffer is consistent. *)
Definition accounted (carried : nat) (o : Object) : Prop :=
  let s := SmartDiagnostics.stats (core o) in
  (SmartDiagnostics.sentToLsp s + SmartDiagnostics.filteredOut s
   + N.of_nat (pendingEdits o)
   ≤ SmartDiagnostics.totalChanges s + N.of_nat carried)%N ∧
  EditBuffer.buffering (editBuffer o).


(** What a burst of significant changes leaves: the same configuration,
    filter and client, the edits in the buffer, the changes counted. *)
Definition afterBurst (o : Object)
    (calls : list (N * TextDocument * list TextDocumentContentChangeEvent))
    (o1 : Object) : Prop :=
  config o1 = config o ∧ changeFilter o1 = changeFilter o ∧ client o1 = client o ∧
  editBuffer o1 = EditBuffer.addEdits calls (editBuffer o) ∧
  core o1 = moreChanges (N.of_nat (length calls)) (core o).

End Pipeline.

(** * Properties *)

(** ** The LRU symbol cache *)

Section LRUFacts.
Context {V : Type}.
Implicit Types (m : LRU.JsMap V) (c : LRU.LRUCache V) (k : string) (v : V).

Lemma Map_get_None k m : LRU.Map_get k m = None ↔ k ∉ m.*1.
Proof.
  induction m as [|[k' v'] m IH]; simpl.
  - split; [intros _; apply not_elem_of_nil | done].
  - destruct (decide (k' = k)) as [->|Hne].
    + split; [done | intros H; exfalso; apply H; left].
    + rewrite IH, not_elem_of_cons. simpl. split; [intros ?; split; [congruence | done] | by intros [_ ?]].
Qed.

Lemma Map_has_true k m : LRU.Map_has k m = true ↔ k ∈ m.*1.
Proof.
  unfold LRU.Map_has. destruct (LRU.Map_get k m) eqn:E.
  - split; [intros _ | done].
    destruct (decide (k ∈ m.*1)) as [|Hn]; [done|].
    apply Map_get_None in Hn. congruence.
  - apply Map_get_None in E. split; [done | intros; contradiction].
Qed.

Lemma Map_has_false k m : LRU.Map_has k m = false ↔ k ∉ m.*1.
Proof.
  rewrite <- Map_has_true. destruct (LRU.Map_has k m); split; congruence.
Qed.

Lemma Map_set_fresh k v m : k ∉ m.*1 → LRU.Map_set k v m = m ++ [(k, v)].
Proof.
  induction m as [|[k' v'] m IH]; simpl; [done|].
  rewrite not_elem_of_cons. intros [Hne Hni].
  destruct (decide (k' = k)); [congruence|]. by rewrite IH.
Qed.

Lemma Map_delete_keys k m : (LRU.Map_delete k m).*1 = filter (λ x, x ≠ k) m.*1.
Proof.
  unfold LRU.Map_delete. induction m as [|[k' v'] m IH]; [done|].
  rewrite fmap_cons, !filter_cons. simpl.
  destruct (decide (k' ≠ k)); [rewrite fmap_cons; simpl; f_equal|]; apply IH.
Qed.

Lemma Map_delete_absent k m : k ∉ (LRU.Map_delete k m).*1.
Proof. rewrite Map_delete_keys, list_elem_of_filter. by intros [? _]. Qed.

Lemma Map_delete_head k v m :
  k ∉ m.*1 → LRU.Map_delete k ((k, v) :: m) = m.
Proof.
  intros Hni. unfold LRU.Map_delete. rewrite filter_cons. simpl.
  destruct (decide (k ≠ k)); [done|].
  induction m as [|[k' v'] m IH]; [done|].
  apply not_elem_of_cons in Hni as [Hne Hni]. simpl in Hne.
  rewrite filter_cons. simpl.
  destruct (decide (k' ≠ k)) as [|Hc]; [by rewrite IH|].
  exfalso. apply Hc. congruence.
Qed.

Lemma Map_get_app_fresh k k' v m :
  LRU.Map_get k' (m ++ [(k, v)]) =
  match LRU.Map_get k' m with
  | Some w => Some w
  | None => if decide (k = k') then Some v else None
  end.
Proof.
  induction m as [|[k0 v0] m IH]; simpl; [done|].
  destruct (decide (k0 = k')); [done | apply IH].
Qed.

Lemma Map_get_delete_ne k k' m :
  k' ≠ k → LRU.Map_get k' (LRU.Map_delete k m) = LRU.Map_get k' m.
Proof.
  intros Hne. unfold LRU.Map_delete.
  induction m as [|[k0 v0] m IH]; [done|].
  rewrite filter_cons. simpl.
  destruct (decide (k0 ≠ k)) as [H0|H0]; simpl.
  - destruct (decide (k0 = k')); [done | apply IH].
  - destruct (decide (k0 = k')); [|apply IH].
    exfalso. apply H0. congruence.
Qed.

Lemma filter_ne_length_mem (k : string) (l : list string) :
  k ∈ l → length (filter (λ x, x ≠ k) l) < length l.
Proof. intros Hin. apply (length_filter_lt _ l k Hin). by intros H. Qed.

Lemma filter_ne_id (k : string) (l : list string) :
  k ∉ l → filter (λ x, x ≠ k) l = l.
Proof.
  induction l as [|x l IH]; [done|].
  rewrite not_elem_of_cons. intros [Hne Hni].
  rewrite filter_cons. destruct (decide (x ≠ k)) as [|Hc]; [by rewrite IH|].
  exfalso. apply Hc. congruence.
Qed.

Lemma filter_ne_length_NoDup (k : string) (l : list string) :
  NoDup l → k ∈ l → S (length (filter (λ x, x ≠ k) l)) = length l.
Proof.
  induction 1 as [|x l Hx Hnd IH]; [by intros ?%elem_of_nil|].
  rewrite filter_cons. intros Hin. case_decide as Hc; simpl.
  - apply elem_of_cons in Hin as [Heq|Hin]; [congruence|]. by rewrite IH.
  - assert (x = k) as -> by (destruct (decide (x = k)); [done | contradiction]).
    by rewrite filter_ne_id.
Qed.

(** What a touch does to the key list: the key moves to the end. *)
Lemma touch_keys k v m :
  (LRU.Map_set k v (LRU.Map_delete k m)).*1 = filter (λ x, x ≠ k) m.*1 ++ [k].
Proof.
  rewrite Map_set_fresh by apply Map_delete_absent.
  by rewrite fmap_app, Map_delete_keys.
Qed.

(** Ages after one more touch. *)
Lemma age_touch_same k h : LRU.age k (k :: h) = Some 0.
Proof. simpl. by destruct (decide (k = k)). Qed.

Lemma age_touch_other k x h : x ≠ k → LRU.age x (k :: h) = S <$> LRU.age x h.
Proof. intros Hne. simpl. destruct (decide (k = x)); [congruence | done]. Qed.

Lemma olderThan_shift k h a b :
  a ≠ k → b ≠ k → LRU.olderThan h a b → LRU.olderThan (k :: h) a b.
Proof.
  intros Ha Hb (na & nb & Ea & Eb & Hlt).
  exists (S na), (S nb). rewrite !age_touch_other, Ea, Eb by done.
  simpl. repeat split; lia.
Qed.

Lemma recencyOrdered_filter h k l :
  LRU.recencyOrdered h l → LRU.recencyOrdered h (filter (λ x, x ≠ k) l).
Proof.
  induction l as [|x l IH]; [done|].
  intros (Hs & Hall & Hrec). rewrite filter_cons.
  destruct (decide (x ≠ k)); [|by apply IH].
  simpl. split_and!; [done | | by apply IH].
  apply Forall_forall. intros y [_ Hy]%list_elem_of_filter.
  rewrite Forall_forall in Hall. by apply Hall.
Qed.

Lemma recencyOrdered_touch h k l :
  k ∉ l → LRU.recencyOrdered h l → LRU.recencyOrdered (k :: h) (l ++ [k]).
Proof.
  induction l as [|x l IH]; cbn [app LRU.recencyOrdered].
  - intros _ _. rewrite age_touch_same. split_and!; [by eexists | constructor | done].
  - rewrite not_elem_of_cons. intros [Hne Hni] ([n Hn] & Hall & Hrec).
    split_and!.
    + rewrite age_touch_other, Hn by done. by eexists.
    + apply Forall_app. split.
      * rewrite Forall_forall in Hall. apply Forall_forall. intros y Hy.
        apply olderThan_shift; [done | | by apply Hall].
        intros ->. contradiction.
      * constructor; [|constructor].
        exists (S n), 0. rewrite age_touch_other, Hn, age_touch_same by done.
        simpl. repeat split; lia.
    + by apply IH.
Qed.

Lemma lruInv_new N : (1 ≤ N)%Z → LRU.lruInv (V:=V) N (LRU.new N) [].
Proof.
  intros HN. unfold LRU.lruInv, LRU.keys, LRU.size. simpl.
  split_and!; [done | constructor | lia | done].
Qed.

Lemma lruInv_touch N h k v m1 :
  NoDup m1.*1 → LRU.recencyOrdered h m1.*1 →
  (Z.of_nat (length (filter (λ x, x ≠ k) m1.*1)) < N)%Z →
  LRU.lruInv N (LRU.mkLRU (LRU.Map_set k v (LRU.Map_delete k m1)) N) (k :: h).
Proof.
  intros Hnd Hord Hlen. unfold LRU.lruInv, LRU.keys, LRU.size, LRU.Map_size. simpl.
  rewrite <- (length_fmap fst), touch_keys.
  split_and!; [done | | | ].
  - apply NoDup_app. split_and!; [by apply NoDup_filter | | apply NoDup_singleton].
    intros x [Hx _]%list_elem_of_filter Hk%list_elem_of_singleton. done.
  - rewrite length_app. simpl. lia.
  - apply recencyOrdered_touch; [|by apply recencyOrdered_filter].
    rewrite list_elem_of_filter. by intros [? _].
Qed.

Lemma Map_delete_fresh k m : k ∉ m.*1 → LRU.Map_delete k m = m.
Proof.
  unfold LRU.Map_delete. induction m as [|[k1 v1] m IH]; [done|].
  rewrite fmap_cons, not_elem_of_cons. simpl. intros [Hne Hni].
  rewrite filter_cons. simpl. case_decide as Hc; [by rewrite IH | congruence].
Qed.

Lemma lruInv_step N c h (o : LRU.Op V) :
  (1 ≤ N)%Z → LRU.lruInv N c h → LRU.lruInv N (LRU.step o c) (LRU.touched o c ++ h).
Proof.
  intros HN (Hmax & Hnd & Hsz & Hord).
  unfold LRU.keys, LRU.size, LRU.Map_size in *.
  rewrite <- (length_fmap fst) in Hsz.
  destruct o as [k|k v]; cbn [LRU.step LRU.touched].
  - unfold LRU.get, LRU.has, LRU.Map_has.
    destruct (LRU.Map_get k (LRU.cache c)) as [w|] eqn:E; cbn [snd app].
    + rewrite Hmax. apply lruInv_touch; [done..|].
      assert (k ∈ (LRU.cache c).*1) as Hin.
      { apply Map_has_true. unfold LRU.Map_has. by rewrite E. }
      pose proof (filter_ne_length_mem k _ Hin). lia.
    + unfold LRU.lruInv, LRU.keys, LRU.size, LRU.Map_size.
      rewrite <- (length_fmap fst). by split_and!.
  - unfold LRU.set, LRU.Map_size. rewrite Hmax. cbn [app].
    destruct (LRU.Map_has k (LRU.cache c)) eqn:Ehas.
    + apply lruInv_touch; [done..|].
      apply Map_has_true in Ehas.
      pose proof (filter_ne_length_mem k _ Ehas). lia.
    + apply Map_has_false in Ehas.
      destruct (N <=? Z.of_nat (length (LRU.cache c)))%Z eqn:Efull.
      * destruct (LRU.cache c) as [|[k0 v0] t] eqn:Ec; cbn [LRU.Map_firstKey].
        -- rewrite <- (Map_delete_fresh k []) by done.
           apply lruInv_touch; [constructor | done | simpl; lia].
        -- rewrite fmap_cons in *. cbn [fst] in *.
           apply NoDup_cons in Hnd as [Hk0 Hnd].
           rewrite Map_delete_head by done.
           apply not_elem_of_cons in Ehas as [Hne Hni].
           rewrite <- (Map_delete_fresh k t) by done.
           destruct Hord as (_ & _ & Hord).
           apply lruInv_touch; [done..|].
           pose proof (length_filter (λ x, x ≠ k) t.*1).
           simpl in Hsz. lia.
      * rewrite <- (Map_delete_fresh k (LRU.cache c)) by done.
        apply lruInv_touch; [done..|].
        pose proof (length_filter (λ x, x ≠ k) (LRU.cache c).*1).
        rewrite length_fmap in *. lia.
Qed.

Lemma lruInv_run N (ops : list (LRU.Op V)) c h :
  (1 ≤ N)%Z → LRU.lruInv N c h → LRU.lruInv N (LRU.run ops c) (LRU.touches ops c h).
Proof.
  intros HN. revert c h.
  induction ops as [|o ops IH]; intros c h Hinv; [done|].
  cbn [LRU.run LRU.touches]. apply IH. by apply lruInv_step.
Qed.

End LRUFacts.

(** A capacity must be at least 1 to be a bound: with capacity 0, which
    the extension never configures, the first [set] finds no first key to
    evict on the empty map and stores its entry. *)
Lemma lru_capacity_zero_exceeded :
  ¬ (Z.of_nat (LRU.size (LRU.run [LRU.OpSet "a" 1%nat] (LRU.new 0))) ≤ 0)%Z.
Proof. vm_compute. intros H. by apply H. Qed.

(** C4. For a configured capacity [N], a number of entries of at least 1
    (the extension configures 50), and every sequence of [get] and [set]
    operations from the empty cache: the size never exceeds [N]; and a
    [set] of an absent key on a cache holding [N] entries removes exactly
    the first entry [e], keeps all the others in order and appends the new
    one, where [e] is the least recently touched key: every other cached
    key was touched (by [set] or by a [get] hit) after [e] last was. With
    capacity 3: a,b,c,d evicts a; a,b,c, get a, d evicts b and keeps a. *)
Theorem lru_capacity_and_eviction (V : Type) (N : Z) (ops : list (LRU.Op V)) :
  (1 ≤ N)%Z →
  let c := LRU.run ops (LRU.new N) in
  let h := LRU.touches ops (LRU.new N) [] in
  (Z.of_nat (LRU.size c) ≤ N)%Z ∧
  (∀ k v, LRU.has k c = false → Z.of_nat (LRU.size c) = N →
     ∃ e ve rest,
       LRU.cache c = ((e, ve) :: rest) ∧
       LRU.cache (LRU.set k v c) = rest ++ [(k, v)] ∧
       (e ∉ LRU.keys (LRU.set k v c)) ∧
       LRU.size (LRU.set k v c) = LRU.size c ∧
       Forall (LRU.olderThan h e) rest.*1) ∧
  (∀ va vb vc vd : V,
     LRU.keys (LRU.run [LRU.OpSet "a" va; LRU.OpSet "b" vb; LRU.OpSet "c" vc;
                        LRU.OpSet "d" vd] (LRU.new 3)) = ["b"; "c"; "d"] ∧
     LRU.keys (LRU.run [LRU.OpSet "a" va; LRU.OpSet "b" vb; LRU.OpSet "c" vc;
                        LRU.OpGet "a"; LRU.OpSet "d" vd] (LRU.new 3))
       = ["c"; "a"; "d"]).
Proof.
  intros HN c h.
  destruct (lruInv_run N ops (LRU.new N) [] HN (lruInv_new N HN))
    as (Hmax & Hnd & Hsz & Hord).
  fold c h in Hmax, Hnd, Hsz, Hord.
  split_and!; [done | | by intros; split; vm_compute].
  intros k v Hhas Hfull.
  unfold LRU.has, LRU.size, LRU.keys, LRU.Map_size in *.
  apply Map_has_false in Hhas.
  destruct (LRU.cache c) as [|[e ve] rest] eqn:Ec; [simpl in Hfull; lia|].
  exists e, ve, rest.
  rewrite fmap_cons in Hnd, Hhas, Hord. cbn [fst] in *.
  apply NoDup_cons in Hnd as [He Hnd].
  apply not_elem_of_cons in Hhas as [Hne Hni].
  destruct Hord as (_ & Hall & _).
  assert (Hset : LRU.cache (LRU.set k v c) = rest ++ [(k, v)]).
  { unfold LRU.set, LRU.Map_size. rewrite Ec, Hmax.
    assert (LRU.Map_has k ((e, ve) :: rest) = false) as ->.
    { apply Map_has_false. rewrite fmap_cons, not_elem_of_cons. done. }
    assert ((N <=? Z.of_nat (length ((e, ve) :: rest)))%Z = true) as ->
      by (apply Z.leb_le; lia).
    cbn [LRU.Map_firstKey LRU.cache].
    rewrite Map_delete_head by done. by apply Map_set_fresh. }
  rewrite Hset. split_and!; [done | done | | | done].
  - rewrite fmap_app. simpl. rewrite elem_of_app, list_elem_of_singleton.
    intros [?|?]; [done | congruence].
  - rewrite length_app. simpl. lia.
Qed.

Lemma lru_capacity_and_eviction_witness :
  (Z.of_nat (LRU.size (LRU.run [LRU.OpSet "a" 1%nat; LRU.OpSet "b" 2%nat]
                               (LRU.new 2))) ≤ 2)%Z.
Proof.
  pose proof (lru_capacity_and_eviction nat 2
                [LRU.OpSet "a" 1%nat; LRU.OpSet "b" 2%nat]) as H.
  apply H. lia.
Defined.

(** C9. On every cache (a [Map], so with pairwise distinct keys), a [set]
    of a key that is present replaces its value and moves the key to the
    most-recently-used (last) position; nothing else is evicted: the other
    entries keep their values and their relative order, and the size is
    unchanged. *)
Theorem lru_set_existing_key (V : Type) (c : LRU.LRUCache V) (k : string) (v : V) :
  NoDup (LRU.keys c) → LRU.has k c = true →
  let c' := LRU.set k v c in
  LRU.cache c' = LRU.Map_delete k (LRU.cache c) ++ [(k, v)] ∧
  LRU.keys c' = filter (λ x, x ≠ k) (LRU.keys c) ++ [k] ∧
  (LRU.get k c').1 = Some v ∧
  (∀ k', k' ≠ k → LRU.Map_get k' (LRU.cache c') = LRU.Map_get k' (LRU.cache c)) ∧
  LRU.size c' = LRU.size c ∧
  LRU.maxSize c' = LRU.maxSize c.
Proof.
  intros Hnd Hhas c'. unfold LRU.has, LRU.keys, LRU.size, LRU.Map_size in *.
  assert (Hc' : LRU.cache c' = LRU.Map_delete k (LRU.cache c) ++ [(k, v)]).
  { unfold c', LRU.set. rewrite Hhas. cbn [LRU.cache].
    apply Map_set_fresh, Map_delete_absent. }
  assert (Habs : LRU.Map_get k (LRU.Map_delete k (LRU.cache c)) = None)
    by apply Map_get_None, Map_delete_absent.
  split_and!; [done | | | | | done].
  - by rewrite Hc', fmap_app, Map_delete_keys.
  - unfold LRU.get. rewrite Hc', Map_get_app_fresh, Habs.
    by destruct (decide (k = k)).
  - intros k' Hne. rewrite Hc', Map_get_app_fresh, Map_get_delete_ne by done.
    destruct (LRU.Map_get k' (LRU.cache c)); [done|].
    destruct (decide (k = k')); [congruence | done].
  - rewrite Hc', length_app, <- !(length_fmap fst), Map_delete_keys. simpl.
    apply Map_has_true in Hhas.
    pose proof (filter_ne_length_NoDup k _ Hnd Hhas). lia.
Qed.

Lemma lru_set_existing_key_witness :
  LRU.cache (LRU.set "a" 10%nat (LRU.mkLRU [("a", 1%nat); ("b", 2%nat)] 3))
  = LRU.Map_delete "a" [("a", 1%nat); ("b", 2%nat)] ++ [("a", 10%nat)].
Proof.
  apply (lru_set_existing_key nat (LRU.mkLRU [("a", 1%nat); ("b", 2%nat)] 3) "a" 10%nat).
  - apply (bool_decide_unpack _). vm_compute. exact I.
  - reflexivity.
Defined.

(** ** Scope resolution *)

Section ScopeFacts.
Import Vscode ScopeTracker.
Implicit Types (s m : DocumentSymbol) (symbols : list DocumentSymbol) (r : Range).

Lemma DocumentSymbol_forall_ind (P : DocumentSymbol → Prop) :
  (∀ n k rg ch, Forall P ch → P (mkSymbol n k rg ch)) → ∀ s, P s.
Proof.
  intros step. fix IH 1. intros [n k rg ch]. apply step.
  induction ch as [|c ch IHch]; constructor; [apply IH | exact IHch].
Qed.

Lemma enclosingForRangeAt_eq r s :
  enclosingForRangeAt r s =
  if contains (range s) r then
    match findEnclosingSymbolForRange (children s) r with
    | Some childMatch => Some childMatch
    | None => if isRelevantSymbol s then Some s else None
    end
  else None.
Proof.
  destruct s as [n k rg ch]. cbn [enclosingForRangeAt range children].
  destruct (contains rg r); [|done].
  match goal with |- match ?f ch with _ => _ end = _ =>
    assert (f ch = findEnclosingSymbolForRange ch r) as ->; [|done] end.
  induction ch as [|c ch IH]; [done|].
  cbn [findEnclosingSymbolForRange]. by rewrite <- IH.
Qed.

Lemma findEnclosing_None symbols r :
  findEnclosingSymbolForRange symbols r = None ↔
  Forall (λ s, enclosingForRangeAt r s = None) symbols.
Proof.
  induction symbols as [|s symbols IH]; cbn [findEnclosingSymbolForRange].
  - split; [constructor | done].
  - rewrite Forall_cons, <- IH.
    destruct (enclosingForRangeAt r s).
    + split; [done | by intros [? _]].
    + split; [done | by intros [_ ?]].
Qed.

Lemma Enclosing_cons_here r s symbols m :
  contains (range s) r = true → (m = s ∨ Enclosing r (children s) m) →
  Enclosing r (s :: symbols) m.
Proof.
  intros Hc [->|Hsub].
  - apply Enclosing_here; [left | done].
  - eapply Enclosing_child; [left | done..].
Qed.

Lemma Enclosing_cons_tail r s symbols m :
  Enclosing r symbols m → Enclosing r (s :: symbols) m.
Proof.
  intros [symbols' m' Hin Hc | symbols' p m' Hin Hc Hsub].
  - apply Enclosing_here; [by right | done].
  - eapply Enclosing_child; [by right | done..].
Qed.

Lemma findEnclosing_sound_list r symbols :
  Forall (λ s, ∀ m, enclosingForRangeAt r s = Some m → goodMatch r s m) symbols →
  ∀ m, findEnclosingSymbolForRange symbols r = Some m →
       Enclosing r symbols m ∧ isRelevantSymbol m = true ∧
       findEnclosingSymbolForRange (children m) r = None.
Proof.
  induction 1 as [|s symbols Hhead _ IHtail]; [done|].
  cbn [findEnclosingSymbolForRange]. intros m.
  destruct (enclosingForRangeAt r s) as [x|] eqn:Hx.
  - intros [= ->]. destruct (Hhead _ eq_refl) as (Hc & Hor & Hrel & Hnone).
    split_and!; [|done..]. by apply Enclosing_cons_here.
  - intros Hrest. destruct (IHtail _ Hrest) as (Henc & Hrel & Hnone).
    split_and!; [|done..]. by apply Enclosing_cons_tail.
Qed.

Lemma enclosingForRangeAt_sound r s :
  ∀ m, enclosingForRangeAt r s = Some m → goodMatch r s m.
Proof.
  induction s as [n k rg ch IHch] using DocumentSymbol_forall_ind.
  intros m. rewrite enclosingForRangeAt_eq. cbn [range children].
  destruct (contains rg r) eqn:Hc; [|done].
  destruct (findEnclosingSymbolForRange ch r) as [cm|] eqn:Hch.
  - intros [= <-].
    destruct (findEnclosing_sound_list r ch IHch cm Hch) as (Henc & Hrel & Hnone).
    split_and!; [done | by right | done | done].
  - destruct (isRelevantSymbol _) eqn:Hrel; [|done].
    intros [= <-]. split_and!; [done | by left | done | done].
Qed.

Lemma findEnclosing_sound r symbols m :
  findEnclosingSymbolForRange symbols r = Some m →
  Enclosing r symbols m ∧ isRelevantSymbol m = true ∧
  findEnclosingSymbolForRange (children m) r = None.
Proof.
  apply findEnclosing_sound_list, Forall_forall.
  intros s _. apply enclosingForRangeAt_sound.
Qed.

Lemma findEnclosing_complete_list r symbols :
  Forall (λ s, enclosingForRangeAt r s = None → noMatch r s) symbols →
  findEnclosingSymbolForRange symbols r = None →
  ∀ m, Enclosing r symbols m → isRelevantSymbol m = false.
Proof.
  intros Hall Hnone%findEnclosing_None m Henc.
  rewrite Forall_forall in Hall, Hnone.
  destruct Henc as [symbols m Hin Hc | symbols p m Hin Hc Hsub].
  - by destruct (Hall m Hin (Hnone m Hin) Hc) as [? _].
  - destruct (Hall p Hin (Hnone p Hin) Hc) as [_ Hsubs]. by apply Hsubs.
Qed.

Lemma enclosingForRangeAt_complete r s :
  enclosingForRangeAt r s = None → noMatch r s.
Proof.
  induction s as [n k rg ch IHch] using DocumentSymbol_forall_ind.
  rewrite enclosingForRangeAt_eq. unfold noMatch. cbn [range children].
  intros Hnone Hc. rewrite Hc in Hnone.
  destruct (findEnclosingSymbolForRange ch r) eqn:Hch; [done|].
  destruct (isRelevantSymbol _) eqn:Hrel; [done|].
  split; [done|]. by apply findEnclosing_complete_list.
Qed.

Lemma findEnclosing_complete r symbols :
  findEnclosingSymbolForRange symbols r = None →
  ∀ m, Enclosing r symbols m → isRelevantSymbol m = false.
Proof.
  apply findEnclosing_complete_list, Forall_forall.
  intros s _. apply enclosingForRangeAt_complete.
Qed.

Lemma parentClassNameAt_eq method s :
  parentClassNameAt method s =
  if isClassLike s && contains (range s) (range method) then inl (Some (name s))
  else
    let nested := findParentClassName method (children s) in
    if truthy nested then inl nested else inr tt.
Proof.
  destruct s as [n k rg ch]. cbn [parentClassNameAt range children name].
  destruct (_ && _); [done|]. cbv zeta.
  match goal with |- context [truthy (?f ch)] =>
    assert (f ch = findParentClassName method ch) as ->; [|done] end.
  induction ch as [|c ch IH]; [done|].
  cbn [findParentClassName]. by rewrite <- IH.
Qed.

(** No class-like node of the outline contains the method's range: the
    walk finds no class name (and never fails). *)
Lemma findParentClassName_none method symbols :
  (∀ s, InOutline symbols s →
        isClassLike s && contains (range s) (range method) = false) →
  findParentClassName method symbols = None.
Proof.
  assert (Hlist : ∀ symbols,
    Forall (λ s, (∀ x, InOutline [s] x →
                       isClassLike x && contains (range x) (range method) = false) →
                 parentClassNameAt method s = inr tt) symbols →
    (∀ x, InOutline symbols x →
          isClassLike x && contains (range x) (range method) = false) →
    findParentClassName method symbols = None).
  { induction 1 as [|s l Hhead _ IHtail]; [done|].
    intros Hno. cbn [findParentClassName]. rewrite Hhead.
    - apply IHtail. intros x Hx. apply Hno.
      destruct Hx as [l' x Hin | l' p x Hin Hsub].
      + apply InOutline_here. by right.
      + eapply InOutline_child; [by right | done].
    - intros x Hx. apply Hno.
      inversion Hx as [l' x' Hin | l' p x' Hin Hsub]; subst.
      + apply list_elem_of_singleton in Hin as ->. apply InOutline_here. left.
      + apply list_elem_of_singleton in Hin as ->.
        eapply InOutline_child; [left | done]. }
  intros Hno. apply Hlist; [|done]. apply Forall_forall. intros s _. clear Hno.
  induction s as [n k rg ch IHch] using DocumentSymbol_forall_ind.
  intros Hno. rewrite parentClassNameAt_eq.
  rewrite (Hno (mkSymbol n k rg ch)) by (apply InOutline_here; left).
  cbn [children]. rewrite Hlist; [done | done |].
  intros x Hx. apply Hno. eapply InOutline_child; [left | done].
Qed.

End ScopeFacts.

(** C7. Scope resolution is the specified recursive descent: at each node
    whose range contains the query range the children are tried first, and
    the node itself is returned only when no child matches and its kind is
    relevant; otherwise the walk goes on with the next node.  Hence a
    result is a relevant node reached through containing nodes only, none
    of whose children matches (the most specific match); and the result is
    undefined exactly when every node reached through containing nodes is
    of a non-relevant kind.  The relevant kinds are function, method, class,
    constructor, module, namespace, interface and struct. *)
Theorem findEnclosingSymbolForRange_descent
    (symbols : list ScopeTracker.DocumentSymbol) (r : Vscode.Range) :
  ScopeTracker.findEnclosingSymbolForRange symbols r =
    match symbols with
    | [] => None
    | s :: rest =>
        if Vscode.contains (ScopeTracker.range s) r then
          match ScopeTracker.findEnclosingSymbolForRange (ScopeTracker.children s) r with
          | Some childMatch => Some childMatch
          | None =>
              if ScopeTracker.isRelevantSymbol s then Some s
              else ScopeTracker.findEnclosingSymbolForRange rest r
          end
        else ScopeTracker.findEnclosingSymbolForRange rest r
    end
  ∧ (∀ m, ScopeTracker.findEnclosingSymbolForRange symbols r = Some m →
          ScopeTracker.Enclosing r symbols m ∧
          ScopeTracker.isRelevantSymbol m = true ∧
          ScopeTracker.findEnclosingSymbolForRange (ScopeTracker.children m) r = None)
  ∧ (ScopeTracker.findEnclosingSymbolForRange symbols r = None ↔
     ∀ s, ScopeTracker.Enclosing r symbols s → ScopeTracker.isRelevantSymbol s = false)
  ∧ (∀ s, ScopeTracker.isRelevantSymbol s = true ↔
          ScopeTracker.kind s ∈
            [ScopeTracker.SkFunction; ScopeTracker.SkMethod; ScopeTracker.SkClass;
             ScopeTracker.SkConstructor; ScopeTracker.SkModule;
             ScopeTracker.SkNamespace; ScopeTracker.SkInterface;
             ScopeTracker.SkStruct]).
Proof.
  split_and!.
  - destruct symbols as [|s rest]; [done|].
    cbn [ScopeTracker.findEnclosingSymbolForRange].
    rewrite enclosingForRangeAt_eq.
    destruct (Vscode.contains _ _); [|done].
    destruct (ScopeTracker.findEnclosingSymbolForRange (ScopeTracker.children s) r);
      [done|].
    by destruct (ScopeTracker.isRelevantSymbol s).
  - intros m. apply findEnclosing_sound.
  - split; [apply findEnclosing_complete|].
    intros Hall.
    destruct (ScopeTracker.findEnclosingSymbolForRange symbols r) as [m|] eqn:E;
      [|done].
    destruct (findEnclosing_sound _ _ _ E) as (Henc & Hrel & _).
    rewrite (Hall m Henc) in Hrel. done.
  - intros s. unfold ScopeTracker.isRelevantSymbol.
    rewrite !elem_of_cons, elem_of_nil.
    destruct (ScopeTracker.kind s); split; intros H; try done;
      try (repeat (destruct H as [H|H]; try done)); tauto.
Qed.

(** C3 (code defect, evaluated at the failing input). For a method [run]
    inside a class [Inner] nested in a class [Outer], scope resolution
    returns [run], and the [className] computed by the code is [Outer], the
    outermost class containing the method; the nearest class-like ancestor,
    which the specification asks for, is [Inner]. *)
Theorem className_is_outermost_class :
  let run := ScopeTracker.mkSymbol "run" ScopeTracker.SkMethod
               (Vscode.Range_new 2 0 3 0) [] in
  let inner := ScopeTracker.mkSymbol "Inner" ScopeTracker.SkClass
                 (Vscode.Range_new 1 0 9 0) [run] in
  let outer := ScopeTracker.mkSymbol "Outer" ScopeTracker.SkClass
                 (Vscode.Range_new 0 0 10 0) [inner] in
  ScopeTracker.findEnclosingSymbolForRange [outer] (Vscode.Range_new 2 0 3 0)
    = Some run ∧
  ScopeTracker.className (ScopeTracker.symbolToEditScope run [outer]) = Some "Outer" ∧
  ScopeTracker.nearestClassName run [outer] = Some "Inner".
Proof. by vm_compute. Qed.

(** ** The edit buffer: combined range *)

Section CombinedRangeFacts.
Import Vscode.
Implicit Types (p q x : Position) (r : Range).

Ltac pos_lia :=
  unfold posMin, posMax, isBefore, isBeforeOrEqual in *; intros;
  repeat match goal with
         | p : Position |- _ => destruct p
         end;
  repeat (cbn [line character] in *;
          match goal with
          | |- context [(?a <? ?b)%N] => destruct (N.ltb_spec a b)
          | |- context [(?a <=? ?b)%N] => destruct (N.leb_spec a b)
          | H : context [(?a <? ?b)%N] |- _ => destruct (N.ltb_spec a b)
          | H : context [(?a <=? ?b)%N] |- _ => destruct (N.leb_spec a b)
          end);
  cbn [line character] in *;
  try done; try lia; try (f_equal; lia).

Lemma isBeforeOrEqual_refl p : isBeforeOrEqual p p = true.
Proof. pos_lia. Qed.

Lemma isBeforeOrEqual_trans p q x :
  isBeforeOrEqual p q = true → isBeforeOrEqual q x = true →
  isBeforeOrEqual p x = true.
Proof. pos_lia. Qed.

Lemma isBeforeOrEqual_antisym p q :
  isBeforeOrEqual p q = true → isBeforeOrEqual q p = true → p = q.
Proof. pos_lia. Qed.

Lemma posMin_le_l p x : isBeforeOrEqual (posMin p x) p = true.
Proof. pos_lia. Qed.

Lemma posMin_le_r p x : isBeforeOrEqual (posMin p x) x = true.
Proof. pos_lia. Qed.

Lemma posMax_ge_l q x : isBeforeOrEqual q (posMax q x) = true.
Proof. pos_lia. Qed.

Lemma posMax_ge_r q x : isBeforeOrEqual x (posMax q x) = true.
Proof. pos_lia. Qed.

Lemma extend_eq p q r :
  EditBuffer.extend (line p, character p, line q, character q) r =
  (line (posMin p (start r)), character (posMin p (start r)),
   line (posMax q (end_ r)), character (posMax q (end_ r))).
Proof.
  unfold EditBuffer.extend. destruct r as [s e]. cbn [start end_].
  assert (((line s <? line p)%N
           || ((line s =? line p)%N && (character s <? character p)%N))
          = isBefore s p) as ->.
  { unfold isBefore. destruct (N.ltb_spec (line s) (line p)); [done|].
    destruct (N.ltb_spec (line p) (line s)), (N.eqb_spec (line s) (line p));
      simpl; try done; lia. }
  assert (((line q <? line e)%N
           || ((line e =? line q)%N && (character q <? character e)%N))
          = isBefore q e) as ->.
  { unfold isBefore. destruct (N.ltb_spec (line q) (line e)); [done|].
    destruct (N.ltb_spec (line e) (line q)), (N.eqb_spec (line e) (line q));
      simpl; try done; lia. }
  unfold posMin, posMax. by destruct (isBefore s p), (isBefore q e).
Qed.

Lemma fold_extend (rs : list Range) p q :
  fold_left EditBuffer.extend rs (line p, character p, line q, character q) =
  let p' := fold_left posMin (map start rs) p in
  let q' := fold_left posMax (map end_ rs) q in
  (line p', character p', line q', character q').
Proof.
  revert p q. induction rs as [|r rs IH]; intros p q; [done|].
  cbn [fold_left map]. rewrite extend_eq. apply IH.
Qed.

Lemma fold_nested (edits : list EditBuffer.BufferedEdit) acc :
  fold_left
    (λ acc edit, fold_left (λ acc change, EditBuffer.extend acc (range change))
                   (EditBuffer.changes edit) acc) edits acc
  = fold_left EditBuffer.extend (EditBuffer.changeRanges edits) acc.
Proof.
  unfold EditBuffer.changeRanges. revert acc.
  induction edits as [|e edits IH]; intros acc; [done|].
  cbn [fold_left map concat]. rewrite fold_left_app, IH. f_equal.
  generalize (EditBuffer.changes e). clear. intros cs. revert acc.
  induction cs as [|c cs IH]; intros acc; [done|]. cbn [fold_left map]. apply IH.
Qed.

Lemma fold_posMin (xs : list Position) p :
  let p' := fold_left posMin xs p in
  isBeforeOrEqual p' p = true ∧
  (∀ x, x ∈ xs → isBeforeOrEqual p' x = true) ∧
  (p' = p ∨ p' ∈ xs).
Proof.
  revert p. induction xs as [|y xs IH]; intros p; cbn [fold_left].
  - split_and!; [apply isBeforeOrEqual_refl | by intros ? ?%elem_of_nil | by left].
  - destruct (IH (posMin p y)) as (Hle & Hall & Hatt).
    split_and!.
    + eapply isBeforeOrEqual_trans; [done | apply posMin_le_l].
    + intros x [->|Hx]%elem_of_cons; [|by apply Hall].
      eapply isBeforeOrEqual_trans; [done | apply posMin_le_r].
    + destruct Hatt as [Heq|Hin]; [|by right; right].
      rewrite Heq. unfold posMin. destruct (isBefore y p); [right; left | by left].
Qed.

Lemma fold_posMax (xs : list Position) q :
  let q' := fold_left posMax xs q in
  isBeforeOrEqual q q' = true ∧
  (∀ x, x ∈ xs → isBeforeOrEqual x q' = true) ∧
  (q' = q ∨ q' ∈ xs).
Proof.
  revert q. induction xs as [|y xs IH]; intros q; cbn [fold_left].
  - split_and!; [apply isBeforeOrEqual_refl | by intros ? ?%elem_of_nil | by left].
  - destruct (IH (posMax q y)) as (Hle & Hall & Hatt).
    split_and!.
    + eapply isBeforeOrEqual_trans; [apply posMax_ge_l | done].
    + intros x [->|Hx]%elem_of_cons; [|by apply Hall].
      eapply isBeforeOrEqual_trans; [apply posMax_ge_r | done].
    + destruct Hatt as [Heq|Hin]; [|by right; right].
      rewrite Heq. unfold posMax. destruct (isBefore q y); [right; left | by left].
Qed.

Lemma Range_new_ordered p q :
  isBeforeOrEqual p q = true →
  Range_new (line p) (character p) (line q) (character q) = mkRange p q.
Proof.
  intros Hle. unfold Range_new.
  replace (mkPosition (line p) (character p)) with p by by destruct p.
  replace (mkPosition (line q) (character q)) with q by by destruct q.
  destruct (isBefore p q) eqn:Hlt; [done|].
  assert (p = q) as -> by (clear -Hle Hlt; pos_lia). done.
Qed.

End CombinedRangeFacts.

(** C8. For every list of buffered edits (whose change ranges are ranges of
    the host, start not after end, at line numbers below
    [Number.MAX_SAFE_INTEGER]), [getCombinedRange] returns the smallest
    range covering all change ranges: its start is the least change start
    and its end the greatest change end, positions being ordered by line
    then character.  For the empty list it returns (0,0)-(0,0). *)
Theorem getCombinedRange_smallest_cover (edits : list EditBuffer.BufferedEdit) :
  Forall Vscode.Range_ok (EditBuffer.changeRanges edits) →
  Forall (λ r, (Vscode.line (Vscode.start r) < EditBuffer.MAX_SAFE_INTEGER)%N)
         (EditBuffer.changeRanges edits) →
  let result := EditBuffer.getCombinedRange edits in
  (edits = [] →
   result = Vscode.mkRange (Vscode.mkPosition 0 0) (Vscode.mkPosition 0 0)) ∧
  (EditBuffer.changeRanges edits ≠ [] →
   (∀ r, r ∈ EditBuffer.changeRanges edits →
         Vscode.isBeforeOrEqual (Vscode.start result) (Vscode.start r) = true ∧
         Vscode.isBeforeOrEqual (Vscode.end_ r) (Vscode.end_ result) = true) ∧
   (∃ r, r ∈ EditBuffer.changeRanges edits ∧ Vscode.start r = Vscode.start result) ∧
   (∃ r, r ∈ EditBuffer.changeRanges edits ∧ Vscode.end_ r = Vscode.end_ result)).
Proof.
  intros Hok Hmax result. split; [by intros ->|].
  intros Hne.
  set (rs := EditBuffer.changeRanges edits) in *.
  set (p0 := Vscode.mkPosition EditBuffer.MAX_SAFE_INTEGER EditBuffer.MAX_SAFE_INTEGER).
  set (q0 := Vscode.mkPosition 0 0).
  destruct (fold_posMin (map Vscode.start rs) p0) as (_ & Hmin & Hminatt).
  destruct (fold_posMax (map Vscode.end_ rs) q0) as (_ & Hmaxall & Hmaxatt).
  set (p' := fold_left Vscode.posMin (map Vscode.start rs) p0) in *.
  set (q' := fold_left Vscode.posMax (map Vscode.end_ rs) q0) in *.
  rewrite Forall_forall in Hok, Hmax.
  (* some change range exists *)
  assert (∃ r0, r0 ∈ rs) as [r0 Hr0].
  { clearbody rs. destruct rs as [|r0 rs0]; [done|]. exists r0. left. }
  assert (Hp'r0 : Vscode.isBeforeOrEqual p' (Vscode.start r0) = true)
    by (apply Hmin, list_elem_of_fmap; eauto).
  assert (Hr0q' : Vscode.isBeforeOrEqual (Vscode.end_ r0) q' = true)
    by (apply Hmaxall, list_elem_of_fmap; eauto).
  assert (Hp'q' : Vscode.isBeforeOrEqual p' q' = true).
  { eapply isBeforeOrEqual_trans; [done|].
    eapply isBeforeOrEqual_trans; [apply (Hok r0 Hr0) | done]. }
  assert (Hp'lt : (Vscode.line p' < EditBuffer.MAX_SAFE_INTEGER)%N).
  { specialize (Hmax r0 Hr0). cbv beta in Hmax.
    clear -Hp'r0 Hmax. revert Hp'r0 Hmax. generalize (Vscode.start r0) as x.
    intros x. unfold Vscode.isBeforeOrEqual. intros Hle Hx. revert Hle.
    destruct (N.ltb_spec (Vscode.line p') (Vscode.line x)); [lia|].
    destruct (N.ltb_spec (Vscode.line x) (Vscode.line p')); [done | lia]. }
  assert (Hres : result = Vscode.mkRange p' q').
  { unfold result, EditBuffer.getCombinedRange.
    destruct edits as [|e edits']; [done|].
    rewrite fold_nested. fold rs.
    change (EditBuffer.MAX_SAFE_INTEGER, EditBuffer.MAX_SAFE_INTEGER, 0%N, 0%N)
      with (Vscode.line p0, Vscode.character p0, Vscode.line q0, Vscode.character q0).
    rewrite fold_extend. cbv beta iota zeta. fold p' q'.
    match goal with |- (if ?b then _ else _) = _ => destruct b eqn:Eb end.
    - apply N.eqb_eq in Eb. lia.
    - by apply Range_new_ordered. }
  rewrite Hres. cbn [Vscode.start Vscode.end_]. split_and!.
  - intros r Hr. split; [apply Hmin | apply Hmaxall]; apply list_elem_of_fmap; eauto.
  - destruct Hminatt as [Heq|Hin].
    + exfalso. rewrite Heq in Hp'lt. unfold p0 in Hp'lt. simpl in Hp'lt. lia.
    + apply list_elem_of_fmap in Hin as (r & Hr & Hin). eauto.
  - destruct Hmaxatt as [Heq|Hin].
    + exists r0. split; [done|].
      apply isBeforeOrEqual_antisym; [done|]. rewrite Heq.
      unfold q0, Vscode.isBeforeOrEqual. cbn [Vscode.line Vscode.character].
      destruct (N.ltb_spec 0 (Vscode.line (Vscode.end_ r0))); [done|].
      destruct (N.ltb_spec (Vscode.line (Vscode.end_ r0)) 0); [lia|].
      apply N.leb_le. lia.
    + apply list_elem_of_fmap in Hin as (r & Hr & Hin). eauto.
Qed.

Lemma getCombinedRange_smallest_cover_witness :
  let at_line l :=
    EditBuffer.mkBufferedEdit
      [Vscode.mkChange (Vscode.Range_new l 0 l 5) 0 5 "x"] 0 1 in
  let edits := [at_line 1%N; at_line 3%N] in
  EditBuffer.getCombinedRange edits = Vscode.Range_new 1 0 3 5 ∧
  ∃ r, r ∈ EditBuffer.changeRanges edits ∧
       Vscode.start r = Vscode.start (EditBuffer.getCombinedRange edits).
Proof.
  intros at_line edits. split; [reflexivity|].
  assert (H1 : Forall Vscode.Range_ok (EditBuffer.changeRanges edits))
    by (repeat constructor).
  assert (H2 : Forall (λ r, (Vscode.line (Vscode.start r)
                             < EditBuffer.MAX_SAFE_INTEGER)%N)
                 (EditBuffer.changeRanges edits))
    by (repeat constructor).
  destruct (getCombinedRange_smallest_cover edits H1 H2) as [_ H].
  apply H. discriminate.
Defined.

(** ** The edit buffer: idle timer *)

(** C6. When the idle timer fires for a URI whose buffer entry is
    non-empty, the idle callback runs in a state from which the entry (and
    the timer) of that URI has already been removed; so an [addEdit] made
    inside the callback creates a fresh one-edit entry (with a new timer)
    instead of appending to the entry being processed.  An exception thrown
    by the callback is caught and logged on the console: the timer function
    always completes normally, and the buffer is left as the callback left
    it, so the document is not stuck with the processed entry. *)
Theorem timerFires_entry_removed_before_callback
    (callback : EditBuffer.IdleCallback) (uri : string)
    (entry : EditBuffer.Entry) (st : EditBuffer.State) :
  EditBuffer.buffer st !! uri = Some entry →
  EditBuffer.edits entry ≠ [] →
  let st0 :=
    EditBuffer.mkState (delete uri (EditBuffer.buffer st))
      (EditBuffer.timers st ∖ {[uri]}) (EditBuffer.idleMs st)
      (EditBuffer.console st) in
  EditBuffer.buffer st0 !! uri = None ∧ (uri ∉ EditBuffer.timers st0) ∧
  EditBuffer.timerFires (Some callback) uri st =
    match callback uri (EditBuffer.document entry) (EditBuffer.edits entry) st0 with
    | (st1, Js.Normal _) => (st1, Js.Normal tt)
    | (st1, Js.Throw error) =>
        (EditBuffer.mkState (EditBuffer.buffer st1) (EditBuffer.timers st1)
           (EditBuffer.idleMs st1)
           (EditBuffer.console st1
              ++ [("[EditBuffer] Idle callback error: " ++ error)%string]),
         Js.Normal tt)
    end ∧
  (EditBuffer.timerFires (Some callback) uri st).2 = Js.Normal tt ∧
  (∀ now doc changes, Vscode.uri doc = uri →
     let st1 := EditBuffer.addEdit now doc changes st0 in
     EditBuffer.buffer st1 !! uri =
       Some (EditBuffer.mkEntry doc
               [EditBuffer.mkBufferedEdit changes now (Vscode.version doc)]) ∧
     uri ∈ EditBuffer.timers st1 ∧
     EditBuffer.timerFires
       (Some (λ _ _ _, EditBuffer.modify (EditBuffer.addEdit now doc changes))) uri st
     = (st1, Js.Normal tt)).
Proof.
  intros Hentry Hne st0.
  assert (Hlen : Nat.eqb (length (EditBuffer.edits entry)) 0 = false).
  { destruct (EditBuffer.edits entry); [done | reflexivity]. }
  assert (Hfire : ∀ cb, EditBuffer.timerFires (Some cb) uri st =
            match cb uri (EditBuffer.document entry) (EditBuffer.edits entry) st0 with
            | (st1, Js.Normal _) => (st1, Js.Normal tt)
            | (st1, Js.Throw error) =>
                (EditBuffer.mkState (EditBuffer.buffer st1) (EditBuffer.timers st1)
                   (EditBuffer.idleMs st1)
                   (EditBuffer.console st1
                      ++ [("[EditBuffer] Idle callback error: " ++ error)%string]),
                 Js.Normal tt)
            end).
  { intros cb.
    unfold EditBuffer.timerFires, EditBuffer.tryCatch, EditBuffer.bind,
      EditBuffer.modify, EditBuffer.onTimerFired, EditBuffer.cancelTimer.
    cbn [EditBuffer.buffer EditBuffer.timers EditBuffer.idleMs EditBuffer.console].
    rewrite Hentry, Hlen. fold st0.
    unfold EditBuffer.tryCatch, EditBuffer.consoleError, EditBuffer.modify.
    destruct (cb uri (EditBuffer.document entry) (EditBuffer.edits entry) st0)
      as [st1 [[]|error]]; reflexivity. }
  split_and!.
  - apply lookup_delete_eq.
  - cbn [EditBuffer.timers st0]. rewrite elem_of_difference, elem_of_singleton.
    by intros [_ ?].
  - apply Hfire.
  - rewrite Hfire.
    by destruct (callback uri (EditBuffer.document entry) (EditBuffer.edits entry) st0)
      as [st1 [[]|error]].
  - intros now doc changes Huri st1. split_and!.
    + unfold st1, EditBuffer.addEdit, EditBuffer.resetTimer, EditBuffer.cancelTimer.
      cbn [EditBuffer.buffer EditBuffer.timers EditBuffer.idleMs EditBuffer.console st0].
      rewrite Huri, lookup_delete_eq, lookup_insert_eq. reflexivity.
    + unfold st1, EditBuffer.addEdit, EditBuffer.resetTimer.
      cbn [EditBuffer.timers]. rewrite Huri. by apply elem_of_union_l, elem_of_singleton.
    + rewrite Hfire. reflexivity.
Qed.

(** ** Dispatch health *)

Section DispatchFacts.
Import Vscode SmartDiagnostics.
Variables (doc : TextDocument) (affectedRange : Range).

Ltac unfold_dispatch :=
  unfold dispatch, sendToLSP, clientAnswering, handleLspFailure, log,
    setConsecutiveFailures, showWarning, FAILURE_THRESHOLD,
    NOTIFICATION_COOLDOWN_MS in *;
  cbn [sendRequest stats consecutiveFailures lastNotificationTime
       warningsShown logged] in *.

Ltac split_tests :=
  repeat match goal with
         | |- context [(?a <=? ?b)%N] => destruct (N.leb_spec a b)
         | |- context [(?a <? ?b)%Z] => destruct (Z.ltb_spec a b)
         end;
  cbn [stats consecutiveFailures lastNotificationTime warningsShown logged] in *.

Lemma dispatch_success now st :
  consecutiveFailures (dispatch doc affectedRange (Js.Normal tt) now st) = 0%N ∧
  warningsShown (dispatch doc affectedRange (Js.Normal tt) now st) = warningsShown st ∧
  lastNotificationTime (dispatch doc affectedRange (Js.Normal tt) now st) = lastNotificationTime st.
Proof. by unfold_dispatch. Qed.

Lemma dispatch_failure_below e now st :
  (consecutiveFailures st + 1 < 3)%N →
  consecutiveFailures (dispatch doc affectedRange (Js.Throw e) now st) = (consecutiveFailures st + 1)%N ∧
  warningsShown (dispatch doc affectedRange (Js.Throw e) now st) = warningsShown st ∧
  lastNotificationTime (dispatch doc affectedRange (Js.Throw e) now st) = lastNotificationTime st.
Proof. intros Hlt. unfold_dispatch. split_tests; try lia; done. Qed.

Lemma dispatch_failure_threshold e now st :
  (3 ≤ consecutiveFailures st + 1)%N →
  consecutiveFailures (dispatch doc affectedRange (Js.Throw e) now st) = 0%N ∧
  ((60000 < now - lastNotificationTime st)%Z →
     warningsShown (dispatch doc affectedRange (Js.Throw e) now st) = warningsShown st ++ [now] ∧
     lastNotificationTime (dispatch doc affectedRange (Js.Throw e) now st) = now) ∧
  ((now - lastNotificationTime st ≤ 60000)%Z →
     warningsShown (dispatch doc affectedRange (Js.Throw e) now st) = warningsShown st ∧
     lastNotificationTime (dispatch doc affectedRange (Js.Throw e) now st) = lastNotificationTime st).
Proof.
  intros Hge. unfold_dispatch. split_tests; try lia; by split_and!; intros; try lia.
Qed.

Lemma healthInv_dispatch result now st :
  healthInv st → healthInv (dispatch doc affectedRange result now st).
Proof.
  intros [Hlt Hlast]. unfold healthInv. destruct result as [[]|e].
  - destruct (dispatch_success now st) as (-> & -> & ->). split; [lia | done].
  - destruct (N.lt_ge_cases (consecutiveFailures st + 1) 3) as [Hb|Hb].
    + destruct (dispatch_failure_below e now st Hb) as (-> & -> & ->). by split.
    + destruct (dispatch_failure_threshold e now st Hb) as (-> & Hshow & Hquiet).
      split; [lia|].
      destruct (Z.lt_ge_cases 60000 (now - lastNotificationTime st)) as [Hc|Hc].
      * destruct (Hshow Hc) as [-> ->]. by rewrite last_last.
      * destruct (Hquiet Hc) as [-> ->]. done.
Qed.

Lemma dispatchAll_eq outcomes st :
  dispatchAll doc affectedRange outcomes st =
  fold_left (λ s o, dispatch doc affectedRange o.1 o.2 s) outcomes st.
Proof.
  revert st. induction outcomes as [|[result now] rest IH]; intros st; [done|].
  cbn [dispatchAll fold_left]. apply IH.
Qed.

Lemma healthInv_dispatchAll outcomes st :
  healthInv st → healthInv (dispatchAll doc affectedRange outcomes st).
Proof.
  revert st. induction outcomes as [|[result now] rest IH]; intros st Hinv; [done|].
  cbn [dispatchAll]. apply IH. by apply healthInv_dispatch.
Qed.

End DispatchFacts.

(** C2 (as stated, refuted). After a warning shown at time 100000, a
    further streak whose third failure comes at time 160000, when exactly
    60 seconds (so at least 60 seconds) have elapsed since that warning,
    shows no warning: the code requires strictly more than 60000 ms. *)
Lemma warning_suppressed_at_exactly_60s :
  let doc := Vscode.mkTextDocument "file:///a.ts" "typescript" 1 ["x"] "" in
  let r := Vscode.Range_new 0 0 0 1 in
  let fail t := (Js.Throw "down" : Js.Completion unit, t) in
  let st := SmartDiagnostics.dispatchAll doc r
              [fail 100000%Z; fail 100000%Z; fail 100000%Z;
               fail 160000%Z; fail 160000%Z] SmartDiagnostics.new in
  let st' := SmartDiagnostics.dispatch doc r (Js.Throw "down") 160000%Z st in
  SmartDiagnostics.warningsShown st = [100000%Z] ∧
  (SmartDiagnostics.consecutiveFailures st + 1 = 3)%N ∧
  (60000 ≤ 160000 - SmartDiagnostics.lastNotificationTime st)%Z ∧
  SmartDiagnostics.warningsShown st' = SmartDiagnostics.warningsShown st ∧
  SmartDiagnostics.consecutiveFailures st' = 0%N.
Proof. vm_compute. split_and!; try reflexivity. discriminate. Qed.

(** C2 (amended). For every sequence of dispatch outcomes from a fresh
    object: a successful dispatch sets [consecutiveFailures] to 0; a failed
    dispatch increments it; and whenever the count thereby reaches 3, a
    warning is shown iff strictly more than 60000 ms have elapsed since the
    last shown warning (time 0 when none was shown), and the count is reset
    to 0 in either case.  Hence three consecutive failures, the third one
    after the cooldown, show exactly one warning, and a fourth failure shows
    none, whatever its time. *)
Theorem failure_backoff (doc : Vscode.TextDocument) (r : Vscode.Range)
    (outcomes : list (Js.Completion unit * Z)) :
  let st := SmartDiagnostics.dispatchAll doc r outcomes SmartDiagnostics.new in
  let failures s := SmartDiagnostics.consecutiveFailures s in
  let warnings s := SmartDiagnostics.warningsShown s in
  let lastShown s := List.last (warnings s) 0%Z in
  (failures st < 3)%N ∧
  SmartDiagnostics.lastNotificationTime st = lastShown st ∧
  (∀ now, failures (SmartDiagnostics.dispatch doc r (Js.Normal tt) now st) = 0%N ∧
          warnings (SmartDiagnostics.dispatch doc r (Js.Normal tt) now st) = warnings st) ∧
  (∀ e now, (failures st + 1 < 3)%N →
            failures (SmartDiagnostics.dispatch doc r (Js.Throw e) now st) = (failures st + 1)%N ∧
            warnings (SmartDiagnostics.dispatch doc r (Js.Throw e) now st) = warnings st) ∧
  (∀ e now, (failures st + 1 = 3)%N →
            failures (SmartDiagnostics.dispatch doc r (Js.Throw e) now st) = 0%N ∧
            ((60000 < now - lastShown st)%Z →
               warnings (SmartDiagnostics.dispatch doc r (Js.Throw e) now st) = warnings st ++ [now]) ∧
            ((now - lastShown st ≤ 60000)%Z →
               warnings (SmartDiagnostics.dispatch doc r (Js.Throw e) now st) = warnings st)) ∧
  (∀ e1 e2 e3 e4 t1 t2 t3 t4,
     failures st = 0%N → (60000 < t3 - lastShown st)%Z →
     let st3 := SmartDiagnostics.dispatch doc r (Js.Throw e3) t3
                  (SmartDiagnostics.dispatch doc r (Js.Throw e2) t2
                     (SmartDiagnostics.dispatch doc r (Js.Throw e1) t1 st)) in
     warnings st3 = warnings st ++ [t3] ∧
     warnings (SmartDiagnostics.dispatch doc r (Js.Throw e4) t4 st3) = warnings st3).
Proof.
  intros st failures warnings lastShown.
  assert (Hinv : SmartDiagnostics.healthInv st).
  { apply healthInv_dispatchAll. split; [done | reflexivity]. }
  destruct Hinv as [Hlt Hlast]. subst failures warnings lastShown. cbv beta.
  split_and!; [done | done | | | | ].
  - intros now. by destruct (dispatch_success doc r now st) as (-> & -> & _).
  - intros e now Hb. by destruct (dispatch_failure_below doc r e now st Hb) as (-> & -> & _).
  - intros e now Hb.
    destruct (dispatch_failure_threshold doc r e now st) as (-> & Hshow & Hquiet); [lia|].
    rewrite <- Hlast. split_and!; [done | |]; intros Hc.
    + by destruct (Hshow Hc) as [-> _].
    + by destruct (Hquiet Hc) as [-> _].
  - intros e1 e2 e3 e4 t1 t2 t3 t4 H0 Hcool st3. rewrite <- Hlast in Hcool.
    subst st3.
    set (st1 := SmartDiagnostics.dispatch doc r (Js.Throw e1) t1 st).
    set (st2 := SmartDiagnostics.dispatch doc r (Js.Throw e2) t2 st1).
    set (st3 := SmartDiagnostics.dispatch doc r (Js.Throw e3) t3 st2).
    destruct (dispatch_failure_below doc r e1 t1 st) as (F1 & W1 & L1); [lia|].
    fold st1 in F1, W1, L1.
    destruct (dispatch_failure_below doc r e2 t2 st1) as (F2 & W2 & L2); [lia|].
    fold st2 in F2, W2, L2.
    destruct (dispatch_failure_threshold doc r e3 t3 st2) as (F3 & Hshow & _); [lia|].
    fold st3 in F3, Hshow.
    destruct Hshow as [W3 L3]; [rewrite L2, L1; lia|].
    destruct (dispatch_failure_below doc r e4 t4 st3) as (_ & W4 & _); [lia|].
    split; [by rewrite W3, W2, W1 | done].
Qed.

Lemma failure_backoff_witness :
  let doc := Vscode.mkTextDocument "file:///a.ts" "typescript" 1 ["x"] "" in
  let r := Vscode.Range_new 0 0 0 1 in
  let st := SmartDiagnostics.dispatchAll doc r
              [(Js.Throw "down", 100000%Z); (Js.Throw "down", 100001%Z)]
              SmartDiagnostics.new in
  SmartDiagnostics.warningsShown (SmartDiagnostics.dispatch doc r (Js.Throw "down") 100002%Z st)
  = SmartDiagnostics.warningsShown st ++ [100002%Z].
Proof.
  intros doc r st.
  pose proof (failure_backoff doc r
                [(Js.Throw "down", 100000%Z); (Js.Throw "down", 100001%Z)]) as H.
  destruct H as (_ & _ & _ & _ & H & _).
  destruct (H "down" 100002%Z) as (_ & Hshow & _); [reflexivity|].
  apply Hshow. reflexivity.
Defined.

(** C10. [processEdits] returns without touching any statistics counter
    when the client is absent or not running, or when there are no edits.
    Otherwise it increments [sentToLsp] by exactly one before scope
    resolution and dispatch (both collaborators are consulted in the state
    that already has the new count), and the count is kept whatever scope
    resolution and the request do: [sentToLsp] counts dispatch attempts,
    failed ones included. *)
Theorem processEdits_counts_attempts
    (client : option SmartDiagnostics.LanguageClient)
    (scopeTracker : SmartDiagnostics.ScopeResolver)
    (uri : string) (doc : Vscode.TextDocument)
    (edits : list EditBuffer.BufferedEdit) (now : Z) (st : SmartDiagnostics.State) :
  let after := SmartDiagnostics.processEdits client scopeTracker uri doc edits now st in
  let running :=
    match client with
    | Some c => SmartDiagnostics.isRunning c st
    | None => false
    end in
  (running = false ∨ edits = [] →
   SmartDiagnostics.stats after = SmartDiagnostics.stats st) ∧
  (running = true → edits ≠ [] →
   let counted := SmartDiagnostics.countSent st in
   let resolved := SmartDiagnostics.resolveScope scopeTracker doc edits counted in
   SmartDiagnostics.sentToLsp (SmartDiagnostics.stats counted)
     = (SmartDiagnostics.sentToLsp (SmartDiagnostics.stats st) + 1)%N ∧
   SmartDiagnostics.stats resolved.2 = SmartDiagnostics.stats counted ∧
   after = SmartDiagnostics.sendToLSP client doc resolved.1
             (EditBuffer.getCombinedRange edits) now resolved.2 ∧
   SmartDiagnostics.stats after =
     SmartDiagnostics.mkStats
       (SmartDiagnostics.totalChanges (SmartDiagnostics.stats st))
       (SmartDiagnostics.filteredOut (SmartDiagnostics.stats st))
       (SmartDiagnostics.sentToLsp (SmartDiagnostics.stats st) + 1)).
Proof.
  intros after running.
  assert (Hsend : ∀ c d sc rg t s,
            SmartDiagnostics.stats (SmartDiagnostics.sendToLSP c d sc rg t s)
            = SmartDiagnostics.stats s).
  { intros [c|] d sc rg t s; [|done]. unfold SmartDiagnostics.sendToLSP.
    destruct (SmartDiagnostics.sendRequest c s _) as [[]|e]; [done|].
    unfold SmartDiagnostics.handleLspFailure, SmartDiagnostics.FAILURE_THRESHOLD.
    cbn [SmartDiagnostics.consecutiveFailures SmartDiagnostics.setConsecutiveFailures
         SmartDiagnostics.log].
    destruct (_ <=? _)%N; [|done].
    cbn [SmartDiagnostics.lastNotificationTime SmartDiagnostics.log
         SmartDiagnostics.setConsecutiveFailures].
    by destruct (_ <? _)%Z. }
  assert (Hres : ∀ s, SmartDiagnostics.stats
                        (SmartDiagnostics.resolveScope scopeTracker doc edits s).2
                      = SmartDiagnostics.stats s).
  { intros s. unfold SmartDiagnostics.resolveScope.
    by destruct (scopeTracker s doc _) as [sc|e]. }
  split.
  - intros Hskip. unfold after, SmartDiagnostics.processEdits.
    destruct client as [c|]; [|done]. cbn in running.
    destruct (SmartDiagnostics.isRunning c st) eqn:Hrun; [|done].
    destruct Hskip as [Hskip| ->]; [by subst running | done].
  - intros Hrun Hne counted resolved.
    destruct client as [c|]; [|by subst running]. cbn in running.
    assert (Hafter : after = SmartDiagnostics.sendToLSP (Some c) doc resolved.1
                               (EditBuffer.getCombinedRange edits) now resolved.2).
    { unfold after, SmartDiagnostics.processEdits. subst running. rewrite Hrun.
      cbn [negb]. destruct edits as [|e edits']; [done|].
      fold counted. fold resolved. by destruct resolved. }
    split_and!; [done | apply Hres | done |].
    rewrite Hafter, Hsend. unfold resolved. by rewrite Hres.
Qed.

Lemma processEdits_counts_attempts_witness :
  let doc := Vscode.mkTextDocument "file:///a.ts" "typescript" 1 ["x"] "" in
  let edit := EditBuffer.mkBufferedEdit
                [Vscode.mkChange (Vscode.Range_new 0 0 0 1) 0 1 "y"] 0 1 in
  let client := SmartDiagnostics.clientAnswering (Js.Throw "down") in
  SmartDiagnostics.stats
    (SmartDiagnostics.processEdits (Some client) (λ _ _ _, Js.Normal None)
       "file:///a.ts" doc [edit] 100000%Z SmartDiagnostics.new)
  = SmartDiagnostics.mkStats 0 0 1.
Proof.
  intros doc edit client.
  pose proof (processEdits_counts_attempts (Some client) (λ _ _ _, Js.Normal None)
                "file:///a.ts" doc [edit] 100000%Z SmartDiagnostics.new) as H.
  destruct H as [_ H]. destruct H as (_ & _ & _ & H); [reflexivity | discriminate |].
  exact H.
Defined.

(** ** The change classifier *)

Section ClassifierFacts.
Import ChangeFilter.

Lemma some_false_iff t cs : some t cs = false ↔ t ∉ cs.
Proof.
  unfold some. induction cs as [|c cs IH]; cbn [existsb].
  - split; [intros _; apply not_elem_of_nil | done].
  - rewrite orb_false_iff, IH, not_elem_of_cons, bool_decide_eq_false.
    split; intros [? ?]; split; congruence.
Qed.

(** The verdict of the code on a list of classes without [code]: a
    [formatting] change decides the type whatever else is present. *)
Lemma combine_without_code config cs :
  cs ≠ [] → code ∉ cs →
  combine config cs =
    if some formatting cs then (typeFormatting, negb (ignoreFormatting config))
    else if some comment cs && some whitespace cs then (typeMixed, true)
    else if some comment cs then (typeComment, negb (ignoreComments config))
    else (typeWhitespace, negb (ignoreWhitespace config)).
Proof.
  intros Hne Hcode. unfold combine.
  apply some_false_iff in Hcode. rewrite Hcode.
  destruct (some formatting cs) eqn:Hf, (some comment cs) eqn:Hc,
    (some whitespace cs) eqn:Hw; try reflexivity.
  exfalso. apply some_false_iff in Hf, Hc, Hw, Hcode.
  destruct cs as [|[] cs]; [done|..];
    match goal with H : ?t ∉ ?t :: _ |- _ => apply H; left end.
Qed.

(** Where the defect of [isInComment] cannot strike: every change starts
    at a line of the document, and the language identifier is not the name
    of a member of [Object.prototype].  Then no [lineAt] call leaves the
    document and [classify] returns. *)
Lemma lineAt_inside doc l :
  (l < Vscode.lineCount doc)%N → ∃ t, Vscode.lineAt doc l = Js.Normal t.
Proof.
  intros Hl. unfold Vscode.lineAt.
  destruct (N.ltb_spec l (Vscode.lineCount doc)); [by eexists | lia].
Qed.

Lemma closedBefore_normal patterns doc j count :
  (j + N.of_nat count ≤ Vscode.lineCount doc)%N →
  ∃ b, closedBefore patterns doc j count = Js.Normal b.
Proof.
  revert j. induction count as [|count IH]; intros j Hj; [by eexists|].
  cbn [closedBefore].
  destruct (lineAt_inside doc j) as [t ->]; [lia|]. cbn [Js.bind].
  destruct (blockEnd patterns t); [by eexists|]. apply IH. lia.
Qed.

Lemma scanBackwards_normal patterns doc startLine i :
  (startLine < Vscode.lineCount doc)%N → (N.of_nat i ≤ startLine)%N →
  ∃ b, scanBackwards patterns doc startLine i = Js.Normal b.
Proof.
  intros Hstart. induction i as [|i IH]; intros Hi; cbn [scanBackwards].
  - destruct (lineAt_inside doc (N.of_nat 0)) as [t ->]; [lia|]. cbn [Js.bind].
    destruct (_ && _); [by eexists|].
    destruct (blockStart patterns t) as [idx|]; [|by eexists].
    destruct (negb _); [|by eexists].
    destruct (closedBefore_normal patterns doc (N.of_nat 0 + 1)
                (N.to_nat startLine - 0)) as [b ->]; [lia | by eexists].
  - destruct (lineAt_inside doc (N.of_nat (S i))) as [t ->]; [lia|]. cbn [Js.bind].
    destruct (_ && _); [by eexists|].
    destruct (blockStart patterns t) as [idx|]; [|apply IH; lia].
    destruct (negb _); [|apply IH; lia].
    destruct (closedBefore_normal patterns doc (N.of_nat (S i) + 1)
                (N.to_nat startLine - S i)) as [b ->]; [lia | by eexists].
Qed.

Lemma patternsOf_cases languageId :
  (∃ patterns, patternsOf languageId = ownPatterns patterns) ∨
  (COMMENT_PATTERNS languageId = None ∧ Js.inObjectPrototype languageId = true ∧
   patternsOf languageId = inheritedMember) ∨
  (COMMENT_PATTERNS languageId = None ∧ Js.inObjectPrototype languageId = false ∧
   patternsOf languageId = noPatterns).
Proof.
  unfold patternsOf. destruct (COMMENT_PATTERNS languageId); [by eauto|].
  destruct (Js.inObjectPrototype languageId); by eauto.
Qed.

Lemma classifySingleChange_normal doc change :
  Js.inObjectPrototype (Vscode.languageId doc) = false →
  (Vscode.line (Vscode.start (Vscode.range change)) < Vscode.lineCount doc)%N →
  ∃ k, classifySingleChange doc change = Js.Normal k.
Proof.
  intros Hlang Hin. unfold classifySingleChange.
  destruct (isWhitespaceOnly _ _); [by eexists|].
  destruct (isFormattingOnly _ _); [by eexists|].
  unfold isInComment, isCommentText.
  destruct (patternsOf_cases (Vscode.languageId doc))
    as [[patterns ->]|[(_ & Hin' & _)|(_ & _ & ->)]];
    [| congruence | by eexists].
  assert (∃ b, Js.bind (Vscode.lineAt doc (Vscode.line (Vscode.start (Vscode.range change))))
                 (λ lineText,
                    if lineComment patterns lineText then Js.Normal true
                    else scanBackwards patterns doc
                           (Vscode.line (Vscode.start (Vscode.range change)))
                           (N.to_nat (Vscode.line (Vscode.start (Vscode.range change)))))
               = Js.Normal b) as [b ->].
  { destruct (lineAt_inside doc _ Hin) as [t ->]. cbn [Js.bind].
    destruct (lineComment patterns t); [by eexists|].
    apply scanBackwards_normal; [done | lia]. }
  cbn [Js.bind]. destruct b; [by eexists|].
  destruct (Js.strEq _ _); [by eexists|].
  destruct (lineComment patterns _); [by eexists|].
  destruct (_ && _); by eexists.
Qed.

Lemma classify_returns_inside_document config doc changes :
  Js.inObjectPrototype (Vscode.languageId doc) = false →
  Forall (λ change,
            (Vscode.line (Vscode.start (Vscode.range change))
             < Vscode.lineCount doc)%N) changes →
  ∃ result, classify config doc changes = Js.Normal result.
Proof.
  intros Hlang Hall.
  assert (∃ ks, Js.mapM (classifySingleChange doc) changes = Js.Normal ks) as [ks Hks].
  { induction Hall as [|c cs Hc _ [ks IH]]; [by eexists|].
    cbn [Js.mapM]. destruct (classifySingleChange_normal doc c Hlang Hc) as [k ->].
    cbn [Js.bind]. rewrite IH. by eexists. }
  unfold classify. destruct changes as [|c cs]; [by eexists|].
  rewrite Hks. cbn [Js.bind]. destruct (combine config ks). by eexists.
Qed.

End ClassifierFacts.

(** C1 (code defect, evaluated at failing inputs). A whitespace-only
    change together with a formatting-only change, none of them code, is
    classified [formatting] and, with the default configuration, not
    significant; the specified verdict for such a combination is [mixed] and
    significant.  Likewise a comment change together with a formatting
    change is classified [formatting] and dropped as not significant even
    when comments are configured as significant. *)
Theorem classify_formatting_absorbs_other_classes :
  let doc1 := Vscode.mkTextDocument "file:///a.ts" "typescript" 1 ["a b"] Js.LF in
  let changes1 := [Vscode.mkChange (Vscode.Range_new 0 0 0 0) 0 0 " ";
                   Vscode.mkChange (Vscode.Range_new 0 0 0 3) 0 3 "ab"] in
  let doc2 := Vscode.mkTextDocument "file:///a.ts" "typescript" 1
                ["// c"; "a b"] Js.LF in
  let changes2 := [Vscode.mkChange (Vscode.Range_new 0 0 0 4) 0 4 "// d";
                   Vscode.mkChange (Vscode.Range_new 1 0 1 3) 5 3 "ab"] in
  Js.mapM (ChangeFilter.classifySingleChange doc1) changes1
    = Js.Normal [ChangeFilter.whitespace; ChangeFilter.formatting] ∧
  ChangeFilter.classify ChangeFilter.DEFAULT_CONFIG doc1 changes1
    = Js.Normal (ChangeFilter.mkClassification false ChangeFilter.typeFormatting
                   (Vscode.Range_new 0 0 0 3)) ∧
  Js.mapM (ChangeFilter.classifySingleChange doc2) changes2
    = Js.Normal [ChangeFilter.comment; ChangeFilter.formatting] ∧
  ChangeFilter.classify (ChangeFilter.mkFilterConfig false true true) doc2 changes2
    = Js.Normal (ChangeFilter.mkClassification false ChangeFilter.typeFormatting
                   (Vscode.Range_new 0 0 1 3)).
Proof. by vm_compute. Qed.

(** C5 (code defect, evaluated at the failing input). For a one-line
    TypeScript document and a change that starts at line 5, outside the
    document, [getOldText] recovers (its range is clamped) but [isInComment]
    asks the document for line 5 and the exception leaves [classify]: the
    change is not classified at all, neither as [code] nor otherwise. *)
Theorem classify_throws_outside_document :
  let doc := Vscode.mkTextDocument "file:///a.ts" "typescript" 1 ["x"] Js.LF in
  let change := Vscode.mkChange (Vscode.Range_new 5 0 5 0) 10 0 "y = 1" in
  ChangeFilter.getOldText doc (Vscode.range change) 0 = "" ∧
  ChangeFilter.isInComment doc (Vscode.range change)
    = Js.Throw "Illegal value for line" ∧
  ChangeFilter.classify ChangeFilter.DEFAULT_CONFIG doc [change]
    = Js.Throw "Illegal value for line".
Proof. by vm_compute. Qed.

Lemma timerFires_entry_removed_before_callback_witness :
  let doc := Vscode.mkTextDocument "file:///a.ts" "typescript" 1 ["x"] Js.LF in
  let edit := EditBuffer.mkBufferedEdit
                [Vscode.mkChange (Vscode.Range_new 0 0 0 1) 0 1 "y"] 0 1 in
  let entry := EditBuffer.mkEntry doc [edit] in
  let st := EditBuffer.mkState {["file:///a.ts" := entry]} {["file:///a.ts"]} 400 [] in
  let throwing : EditBuffer.IdleCallback := λ _ _ _ s, (s, Js.Throw "boom") in
  (EditBuffer.timerFires (Some throwing) "file:///a.ts" st).2 = Js.Normal tt.
Proof.
  intros doc edit entry st throwing.
  pose proof (timerFires_entry_removed_before_callback throwing "file:///a.ts" entry st)
    as H.
  destruct H as (_ & _ & _ & H & _); [apply lookup_singleton_eq | discriminate |].
  exact H.
Defined.

Lemma findEnclosingSymbolForRange_descent_witness :
  let run := ScopeTracker.mkSymbol "run" ScopeTracker.SkMethod
               (Vscode.Range_new 2 0 3 0) [] in
  let field := ScopeTracker.mkSymbol "count" ScopeTracker.SkField
                 (Vscode.Range_new 4 0 4 9) [] in
  let cls := ScopeTracker.mkSymbol "Widget" ScopeTracker.SkClass
               (Vscode.Range_new 1 0 9 0) [run; field] in
  ScopeTracker.isRelevantSymbol run = true ∧
  ScopeTracker.findEnclosingSymbolForRange (ScopeTracker.children run)
    (Vscode.Range_new 2 1 2 4) = None.
Proof.
  intros run field cls.
  pose proof (findEnclosingSymbolForRange_descent [cls] (Vscode.Range_new 2 1 2 4)) as H.
  destruct H as (_ & H & _). destruct (H run eq_refl) as (_ & Hrel & Hnone).
  split; [exact Hrel | exact Hnone].
Defined.

(** * Further properties of the code *)

(** ** The LRU cache: lookups, distinct keys, removal *)

Section LRUMoreFacts.
Context {V : Type}.
Implicit Types (m : LRU.JsMap V) (c : LRU.LRUCache V) (k : string) (v : V).

Lemma Map_get_set_eq k v m : LRU.Map_get k (LRU.Map_set k v m) = Some v.
Proof.
  induction m as [|[k' v'] m IH]; simpl.
  - by destruct (decide (k = k)).
  - destruct (decide (k' = k)) as [->|Hne]; simpl.
    + by destruct (decide (k = k)).
    + by destruct (decide (k' = k)).
Qed.

Lemma Map_get_set_ne k k' v m :
  k' ≠ k → LRU.Map_get k' (LRU.Map_set k v m) = LRU.Map_get k' m.
Proof.
  intros Hne. induction m as [|[k0 v0] m IH]; simpl.
  - destruct (decide (k = k')); [congruence | done].
  - destruct (decide (k0 = k)) as [->|H0]; simpl.
    + destruct (decide (k = k')); [congruence | done].
    + destruct (decide (k0 = k')); [done | apply IH].
Qed.

Lemma Map_get_delete_eq k m : LRU.Map_get k (LRU.Map_delete k m) = None.
Proof. apply Map_get_None, Map_delete_absent. Qed.

Lemma set_cache k v c : LRU.cache (LRU.set k v c) = LRU.Map_set k v (LRU.setTarget k c).
Proof. reflexivity. Qed.

Lemma setTarget_fresh k c : k ∉ (LRU.setTarget k c).*1.
Proof.
  unfold LRU.setTarget. destruct (LRU.Map_has k (LRU.cache c)) eqn:Ehas.
  - apply Map_delete_absent.
  - apply Map_has_false in Ehas.
    assert (Hdel : ∀ x, k ∉ (LRU.Map_delete x (LRU.cache c)).*1).
    { intros x. rewrite Map_delete_keys, list_elem_of_filter. by intros [_ ?]. }
    destruct (_ <=? _)%Z; [|done].
    destruct (LRU.Map_firstKey _); [apply Hdel | done].
Qed.

Lemma setTarget_NoDup k c : NoDup (LRU.cache c).*1 → NoDup (LRU.setTarget k c).*1.
Proof.
  intros Hnd.
  assert (Hdel : ∀ x, NoDup (LRU.Map_delete x (LRU.cache c)).*1).
  { intros x. rewrite Map_delete_keys. by apply NoDup_filter. }
  unfold LRU.setTarget. destruct (LRU.Map_has _ _); [apply Hdel|].
  destruct (_ <=? _)%Z; [|done].
  destruct (LRU.Map_firstKey _); [apply Hdel | done].
Qed.

Lemma NoDup_touch k v m :
  NoDup m.*1 → k ∉ m.*1 → NoDup (LRU.Map_set k v m).*1.
Proof.
  intros Hnd Hk. rewrite Map_set_fresh, fmap_app by done. simpl.
  apply NoDup_app. split_and!; [done | | apply NoDup_singleton].
  intros x Hx ->%list_elem_of_singleton. done.
Qed.

Lemma set_NoDup k v c : NoDup (LRU.keys c) → NoDup (LRU.keys (LRU.set k v c)).
Proof.
  intros Hnd. unfold LRU.keys. rewrite set_cache.
  apply NoDup_touch; [by apply setTarget_NoDup | apply setTarget_fresh].
Qed.

Lemma get_NoDup k c : NoDup (LRU.keys c) → NoDup (LRU.keys (LRU.get k c).2).
Proof.
  intros Hnd. unfold LRU.get, LRU.keys in *.
  destruct (LRU.Map_get k (LRU.cache c)); [|done]. cbn [snd LRU.cache].
  apply NoDup_touch; [|apply Map_delete_absent].
  rewrite Map_delete_keys. by apply NoDup_filter.
Qed.

Lemma get_lookup k k' c :
  LRU.Map_get k' (LRU.cache (LRU.get k c).2) = LRU.Map_get k' (LRU.cache c).
Proof.
  unfold LRU.get. destruct (LRU.Map_get k (LRU.cache c)) as [w|] eqn:E; [|done].
  cbn [snd LRU.cache]. destruct (decide (k' = k)) as [->|Hne].
  - by rewrite Map_get_set_eq.
  - by rewrite Map_get_set_ne, Map_get_delete_ne.
Qed.

End LRUMoreFacts.

(** X1. Whatever the capacity and the state of the cache, the value just
    written by [set] is what the next [get] of that key returns. *)
Theorem lru_get_after_set (V : Type) (c : LRU.LRUCache V) (k : string) (v : V) :
  (LRU.get k (LRU.set k v c)).1 = Some v ∧ LRU.has k (LRU.set k v c) = true.
Proof.
  assert (H : LRU.Map_get k (LRU.cache (LRU.set k v c)) = Some v)
    by (rewrite set_cache; apply Map_get_set_eq).
  unfold LRU.get, LRU.has, LRU.Map_has. by rewrite H.
Qed.

(** X2. A [get] changes no stored value: every key is bound afterwards to
    what it was bound to before, the result is the binding of the key, a
    miss leaves the cache as it was, and (the keys being distinct) the size
    and the capacity are unchanged.  Only the order of the entries moves. *)
Theorem lru_get_keeps_contents (V : Type) (c : LRU.LRUCache V) (k : string) :
  NoDup (LRU.keys c) →
  let c' := (LRU.get k c).2 in
  (LRU.get k c).1 = LRU.Map_get k (LRU.cache c) ∧
  (∀ k', LRU.Map_get k' (LRU.cache c') = LRU.Map_get k' (LRU.cache c)) ∧
  (LRU.has k c = false → c' = c) ∧
  LRU.size c' = LRU.size c ∧ LRU.maxSize c' = LRU.maxSize c.
Proof.
  intros Hnd c'. split_and!.
  - unfold LRU.get. by destruct (LRU.Map_get k (LRU.cache c)).
  - intros k'. apply get_lookup.
  - unfold c', LRU.get, LRU.has, LRU.Map_has.
    by destruct (LRU.Map_get k (LRU.cache c)).
  - unfold c', LRU.get, LRU.size, LRU.Map_size, LRU.keys in *.
    destruct (LRU.Map_get k (LRU.cache c)) as [w|] eqn:E; [|done].
    cbn [snd LRU.cache].
    rewrite <- !(length_fmap fst), touch_keys, length_app. simpl.
    assert (k ∈ (LRU.cache c).*1) as Hin.
    { apply Map_has_true. unfold LRU.Map_has. by rewrite E. }
    pose proof (filter_ne_length_NoDup k _ Hnd Hin). lia.
  - unfold c', LRU.get. by destruct (LRU.Map_get k (LRU.cache c)).
Qed.

Lemma lru_get_keeps_contents_witness :
  LRU.size (LRU.get "a" (LRU.mkLRU [("a", 1%nat); ("b", 2%nat)] 2)).2 = 2.
Proof.
  apply (lru_get_keeps_contents nat (LRU.mkLRU [("a", 1%nat); ("b", 2%nat)] 2) "a").
  apply (bool_decide_unpack _). vm_compute. exact I.
Defined.

(** X3. The keys of the cache stay pairwise distinct along every run of
    [get] and [set] operations from the empty cache, for every capacity,
    also zero or negative. *)
Theorem lru_keys_distinct (V : Type) (N : Z) (ops : list (LRU.Op V)) :
  NoDup (LRU.keys (LRU.run ops (LRU.new N))).
Proof.
  assert (H : ∀ c, NoDup (LRU.keys c) → NoDup (LRU.keys (LRU.run ops c))).
  { induction ops as [|o ops IH]; intros c Hnd; [done|].
    cbn [LRU.run]. apply IH. destruct o as [k|k v]; cbn [LRU.step].
    - by apply get_NoDup.
    - by apply set_NoDup. }
  apply H. constructor.
Qed.

(** X4. A [set] of key [k] never disturbs another key unless it is the
    first (oldest) key of a full cache: every other key keeps its value.
    When the key is present or the cache is below its capacity, no key at
    all is lost. *)
Theorem lru_set_keeps_other_entries (V : Type) (c : LRU.LRUCache V)
    (k : string) (v : V) (k' : string) :
  k' ≠ k →
  (LRU.Map_firstKey (LRU.cache c) ≠ Some k' ∨ LRU.has k c = true ∨
   (Z.of_nat (LRU.size c) < LRU.maxSize c)%Z) →
  LRU.Map_get k' (LRU.cache (LRU.set k v c)) = LRU.Map_get k' (LRU.cache c).
Proof.
  intros Hne Hkeep. rewrite set_cache, Map_get_set_ne by done.
  unfold LRU.setTarget, LRU.has, LRU.size in *.
  destruct (LRU.Map_has k (LRU.cache c)); [by apply Map_get_delete_ne|].
  destruct (Z.leb_spec (LRU.maxSize c) (Z.of_nat (LRU.Map_size (LRU.cache c))));
    [|done].
  destruct (LRU.Map_firstKey (LRU.cache c)) as [fk|] eqn:Efk; [|done].
  apply Map_get_delete_ne. destruct Hkeep as [Hk|[Hk|Hk]]; [congruence | done | lia].
Qed.

Lemma lru_set_keeps_other_entries_witness :
  LRU.Map_get "b" (LRU.cache (LRU.set "c" 3%nat
                                (LRU.mkLRU [("a", 1%nat); ("b", 2%nat)] 2)))
  = LRU.Map_get "b" [("a", 1%nat); ("b", 2%nat)].
Proof.
  apply (lru_set_keeps_other_entries nat (LRU.mkLRU [("a", 1%nat); ("b", 2%nat)] 2)
           "c" 3%nat "b").
  - discriminate.
  - left. discriminate.
Defined.

(** ** Scope resolution: positions, scopes, class names, the symbol cache *)

Section ScopeMoreFacts.
Import Vscode ScopeTracker.
Implicit Types (s m : DocumentSymbol) (r : Range) (p : Position).

Lemma enclosingAt_eq p s :
  enclosingAt p s =
  if containsPosition (range s) p then
    match findEnclosingSymbol (children s) p with
    | Some childMatch => Some childMatch
    | None => if isRelevantSymbol s then Some s else None
    end
  else None.
Proof.
  destruct s as [n k rg ch]. cbn [enclosingAt range children].
  destruct (containsPosition rg p); [|done].
  match goal with |- match ?f ch with _ => _ end = _ =>
    assert (f ch = findEnclosingSymbol ch p) as ->; [|done] end.
  induction ch as [|c ch IH]; [done|].
  cbn [findEnclosingSymbol]. by rewrite <- IH.
Qed.

Lemma contains_degenerate rg p : contains rg (mkRange p p) = containsPosition rg p.
Proof. unfold contains. cbn [start end_]. by destruct (containsPosition rg p). Qed.

Lemma Enclosing_contains r (l : list DocumentSymbol) m :
  Enclosing r l m → contains (range m) r = true.
Proof. induction 1; done. Qed.

Lemma Enclosing_InOutline r (l : list DocumentSymbol) m :
  Enclosing r l m → InOutline l m.
Proof.
  induction 1 as [l s Hin _ | l q s Hin _ _ IH].
  - by apply InOutline_here.
  - by eapply InOutline_child.
Qed.

Lemma InOutline_cons_head s (l : list DocumentSymbol) x :
  InOutline [s] x → InOutline (s :: l) x.
Proof.
  inversion 1 as [l' x' Hin | l' q x' Hin Hsub]; subst.
  - apply list_elem_of_singleton in Hin as ->. apply InOutline_here. left.
  - apply list_elem_of_singleton in Hin as ->. eapply InOutline_child; [left | done].
Qed.

Lemma InOutline_cons_tail s (l : list DocumentSymbol) x :
  InOutline l x → InOutline (s :: l) x.
Proof.
  intros [l' x' Hin | l' q x' Hin Hsub].
  - apply InOutline_here. by right.
  - eapply InOutline_child; [by right | done].
Qed.

Lemma findParentClassName_sound_list method (l : list DocumentSymbol) :
  Forall (λ s, ∀ res, parentClassNameAt method s = inl res →
                      ∃ n, res = Some n ∧ classNameOf method [s] n) l →
  ∀ n, findParentClassName method l = Some n → classNameOf method l n.
Proof.
  induction 1 as [|s l Hhead _ IHtail]; [done|].
  cbn [findParentClassName]. intros n.
  destruct (parentClassNameAt method s) as [res|[]] eqn:E.
  - intros ->. destruct (Hhead _ eq_refl) as (n' & [= <-] & x & Hx & Hrest).
    exists x. split; [by apply InOutline_cons_head | done].
  - intros Hn. destruct (IHtail _ Hn) as (x & Hx & Hrest).
    exists x. split; [by apply InOutline_cons_tail | done].
Qed.

Lemma parentClassNameAt_sound method s :
  ∀ res, parentClassNameAt method s = inl res →
         ∃ n, res = Some n ∧ classNameOf method [s] n.
Proof.
  induction s as [nm k rg ch IHch] using DocumentSymbol_forall_ind.
  intros res. rewrite parentClassNameAt_eq. cbn [range children name].
  destruct (isClassLike _ && contains rg _) eqn:Hc.
  - intros [= <-]. exists nm. split; [done|].
    apply andb_true_iff in Hc as [Hcl Hcont].
    exists (mkSymbol nm k rg ch). split_and!; [apply InOutline_here; left | done..].
  - cbv zeta. destruct (findParentClassName method ch) as [n|] eqn:Hn; [|done].
    destruct (truthy (Some n)); [|done]. intros [= <-].
    exists n. split; [done|].
    destruct (findParentClassName_sound_list method ch IHch n Hn) as (x & Hx & Hrest).
    exists x. split; [|done]. eapply InOutline_child; [left | done].
Qed.

Lemma findParentClassName_sound method (l : list DocumentSymbol) n :
  findParentClassName method l = Some n → classNameOf method l n.
Proof.
  apply findParentClassName_sound_list, Forall_forall.
  intros s _. apply parentClassNameAt_sound.
Qed.

End ScopeMoreFacts.

(** X5. The lookup at a position is the lookup for the empty range at that
    position: [findEnclosingSymbol] and [findEnclosingSymbolForRange] agree,
    and so do [getEnclosingScope] and [getEnclosingScopeForRange]. *)
Theorem findEnclosingSymbol_is_degenerate_range
    (outline : option (list ScopeTracker.DocumentSymbol)) (p : Vscode.Position) :
  (∀ symbols, ScopeTracker.findEnclosingSymbol symbols p =
              ScopeTracker.findEnclosingSymbolForRange symbols (Vscode.mkRange p p)) ∧
  ScopeTracker.getEnclosingScope outline p =
  ScopeTracker.getEnclosingScopeForRange outline (Vscode.mkRange p p).
Proof.
  assert (Hlist : ∀ symbols,
    Forall (λ s, ScopeTracker.enclosingAt p s =
                 ScopeTracker.enclosingForRangeAt (Vscode.mkRange p p) s) symbols →
    ScopeTracker.findEnclosingSymbol symbols p =
    ScopeTracker.findEnclosingSymbolForRange symbols (Vscode.mkRange p p)).
  { induction 1 as [|s l Hs _ IH]; [done|].
    cbn [ScopeTracker.findEnclosingSymbol ScopeTracker.findEnclosingSymbolForRange].
    by rewrite Hs, IH. }
  assert (Hall : ∀ symbols,
    ScopeTracker.findEnclosingSymbol symbols p =
    ScopeTracker.findEnclosingSymbolForRange symbols (Vscode.mkRange p p)).
  { intros symbols. apply Hlist, Forall_forall. intros s _.
    induction s as [n k rg ch IHch] using DocumentSymbol_forall_ind.
    rewrite enclosingAt_eq, enclosingForRangeAt_eq, contains_degenerate.
    cbn [ScopeTracker.range ScopeTracker.children]. by rewrite (Hlist ch IHch). }
  split; [done|].
  unfold ScopeTracker.getEnclosingScope, ScopeTracker.getEnclosingScopeForRange.
  destruct outline as [[|s l]|]; [done | | done]. by rewrite Hall.
Qed.

(** X6. A scope returned by [getEnclosingScopeForRange] describes a node of
    the outline: it carries the node's name, range and symbol kind, its
    range contains the query range, its kind is never [unknown], and it has
    a class name only if its kind is [method]; that class name is the name
    of a class-like node of the outline whose range contains the scope's
    range. *)
Theorem getEnclosingScopeForRange_scope
    (outline : option (list ScopeTracker.DocumentSymbol)) (r : Vscode.Range)
    (scope : ScopeTracker.EditScope) :
  ScopeTracker.getEnclosingScopeForRange outline r = Some scope →
  ∃ symbols m,
    outline = Some symbols ∧ ScopeTracker.InOutline symbols m ∧
    ScopeTracker.scopeName scope = ScopeTracker.name m ∧
    ScopeTracker.scopeRange scope = ScopeTracker.range m ∧
    ScopeTracker.symbolKind scope = ScopeTracker.kind m ∧
    Vscode.contains (ScopeTracker.scopeRange scope) r = true ∧
    ScopeTracker.scopeKind scope ≠ ScopeTracker.ScopeUnknown ∧
    (∀ n, ScopeTracker.className scope = Some n →
          ScopeTracker.scopeKind scope = ScopeTracker.ScopeMethod ∧
          ∃ x, ScopeTracker.InOutline symbols x ∧
               ScopeTracker.isClassLike x = true ∧
               Vscode.contains (ScopeTracker.range x) (ScopeTracker.scopeRange scope) = true ∧
               ScopeTracker.name x = n).
Proof.
  unfold ScopeTracker.getEnclosingScopeForRange.
  destruct outline as [symbols|]; [|done].
  destruct symbols as [|s0 l0] eqn:Esym; [done|]. rewrite <- Esym.
  destruct (ScopeTracker.findEnclosingSymbolForRange symbols r) as [m|] eqn:Hm;
    [|done].
  intros [= <-]. destruct (findEnclosing_sound _ _ _ Hm) as (Henc & Hrel & _).
  exists symbols, m. unfold ScopeTracker.symbolToEditScope.
  cbn [ScopeTracker.scopeName ScopeTracker.scopeRange ScopeTracker.symbolKind
       ScopeTracker.scopeKind ScopeTracker.className].
  split_and!; [done | by eapply Enclosing_InOutline | done | done | done
               | by eapply Enclosing_contains | | ].
  - unfold ScopeTracker.isRelevantSymbol in Hrel.
    by destruct (ScopeTracker.kind m).
  - intros n Hn.
    destruct (ScopeTracker.mapSymbolKind (ScopeTracker.kind m)) eqn:Hk; try done.
    split; [done|]. by apply findParentClassName_sound.
Qed.

Lemma getEnclosingScopeForRange_scope_witness :
  let run := ScopeTracker.mkSymbol "run" ScopeTracker.SkMethod
               (Vscode.Range_new 2 0 3 0) [] in
  let cls := ScopeTracker.mkSymbol "Widget" ScopeTracker.SkClass
               (Vscode.Range_new 1 0 9 0) [run] in
  let scope := ScopeTracker.symbolToEditScope run [cls] in
  ScopeTracker.scopeKind scope ≠ ScopeTracker.ScopeUnknown.
Proof.
  intros run cls scope.
  destruct (getEnclosingScopeForRange_scope (Some [cls]) (Vscode.Range_new 2 1 2 4)
              scope eq_refl) as (symbols & m & _ & _ & _ & _ & _ & _ & H & _).
  exact H.
Defined.

(** X7. Once [getDocumentSymbols] has returned an outline for a document,
    the next call for the same document (same URI and version) returns
    that outline whatever the provider would answer: it is served from the
    cache.  When the provider fails or returns nothing and the cache has no
    entry of the document's version, the result is undefined and no cached
    value changes. *)
Theorem getDocumentSymbols_served_from_cache
    (provider : Js.Completion (option (list ScopeTracker.DocumentSymbol)))
    (doc : Vscode.TextDocument)
    (cache : LRU.LRUCache ScopeTracker.CachedSymbols) :
  let first := ScopeTracker.getDocumentSymbols provider doc cache in
  (∀ outline, first.1 = Some outline →
     ∀ provider', (ScopeTracker.getDocumentSymbols provider' doc first.2).1
                  = Some outline) ∧
  (first.1 = None →
   ∀ uri, LRU.Map_get uri (LRU.cache first.2) = LRU.Map_get uri (LRU.cache cache)).
Proof.
  intros first.
  assert (Hhit : ∀ c outline provider',
    LRU.Map_get (Vscode.uri doc) (LRU.cache c)
      = Some (ScopeTracker.mkCached outline (Vscode.version doc)) →
    (ScopeTracker.getDocumentSymbols provider' doc c).1 = Some outline).
  { intros c outline provider' Hc. unfold ScopeTracker.getDocumentSymbols, LRU.get.
    rewrite Hc. cbn [ScopeTracker.cachedVersion ScopeTracker.symbols].
    by rewrite N.eqb_refl. }
  unfold first, ScopeTracker.getDocumentSymbols.
  destruct (LRU.get (Vscode.uri doc) cache) as [cached c1] eqn:Eget.
  assert (Hc1 : ∀ uri, LRU.Map_get uri (LRU.cache c1) = LRU.Map_get uri (LRU.cache cache)).
  { intros uri. replace c1 with (LRU.get (Vscode.uri doc) cache).2 by by rewrite Eget.
    apply get_lookup. }
  assert (Hcached : cached = LRU.Map_get (Vscode.uri doc) (LRU.cache cache)).
  { replace cached with (LRU.get (Vscode.uri doc) cache).1 by by rewrite Eget.
    unfold LRU.get. by destruct (LRU.Map_get _ _). }
  assert (Hfetch : ∀ outline,
    (match provider with
     | Js.Normal (Some symbols) =>
         (Some symbols,
          LRU.set (Vscode.uri doc)
            (ScopeTracker.mkCached symbols (Vscode.version doc)) c1)
     | _ => (None, c1)
     end).1 = Some outline →
    ∀ provider',
      (ScopeTracker.getDocumentSymbols provider' doc
         (match provider with
          | Js.Normal (Some symbols) =>
              (Some symbols,
               LRU.set (Vscode.uri doc)
                 (ScopeTracker.mkCached symbols (Vscode.version doc)) c1)
          | _ => (None, c1)
          end).2).1 = Some outline).
  { intros outline. destruct provider as [[symbols|]|e]; try done.
    intros [= <-] provider'. apply Hhit. cbn [snd].
    rewrite set_cache. apply Map_get_set_eq. }
  assert (Hnone :
    (match provider with
     | Js.Normal (Some symbols) =>
         (Some symbols,
          LRU.set (Vscode.uri doc)
            (ScopeTracker.mkCached symbols (Vscode.version doc)) c1)
     | _ => (None, c1)
     end).1 = None →
    (match provider with
     | Js.Normal (Some symbols) =>
         (Some symbols,
          LRU.set (Vscode.uri doc)
            (ScopeTracker.mkCached symbols (Vscode.version doc)) c1)
     | _ => (None, c1)
     end).2 = c1).
  { by destruct provider as [[symbols|]|e]. }
  destruct cached as [[syms ver]|]; cbn [ScopeTracker.cachedVersion ScopeTracker.symbols].
  - destruct (N.eqb_spec ver (Vscode.version doc)) as [->|Hver].
    + split; [|done]. intros outline [= <-] provider'. apply Hhit.
      by rewrite Hc1, <- Hcached.
    + replace (match provider with
               | Js.Normal (Some symbols) => _ | Js.Normal None => (None, c1)
               | Js.Throw _ => (None, c1) end)
        with (match provider with
              | Js.Normal (Some symbols) =>
                  (Some symbols,
                   LRU.set (Vscode.uri doc)
                     (ScopeTracker.mkCached symbols (Vscode.version doc)) c1)
              | _ => (None, c1)
              end) by by destruct provider as [[?|]|?].
      split; [apply Hfetch|]. intros Hn uri. by rewrite (Hnone Hn).
  - replace (match provider with
             | Js.Normal (Some symbols) => _ | Js.Normal None => (None, c1)
             | Js.Throw _ => (None, c1) end)
      with (match provider with
            | Js.Normal (Some symbols) =>
                (Some symbols,
                 LRU.set (Vscode.uri doc)
                   (ScopeTracker.mkCached symbols (Vscode.version doc)) c1)
            | _ => (None, c1)
            end) by by destruct provider as [[?|]|?].
    split; [apply Hfetch|]. intros Hn uri. by rewrite (Hnone Hn).
Qed.

(** X8. [clearCache] with a non-empty URI removes that URI's outline and
    nothing else; with no URI, and also with the empty URI (which is
    falsy), it empties the whole cache.  The capacity is kept. *)
Theorem clearCache_removes (uri : string)
    (cache : LRU.LRUCache ScopeTracker.CachedSymbols) :
  (uri ≠ "" →
   LRU.has uri (ScopeTracker.clearCache (Some uri) cache) = false ∧
   ∀ k, k ≠ uri →
        LRU.Map_get k (LRU.cache (ScopeTracker.clearCache (Some uri) cache))
        = LRU.Map_get k (LRU.cache cache)) ∧
  LRU.cache (ScopeTracker.clearCache None cache) = [] ∧
  LRU.cache (ScopeTracker.clearCache (Some "") cache) = [] ∧
  (∀ u, LRU.maxSize (ScopeTracker.clearCache u cache) = LRU.maxSize cache).
Proof.
  split_and!; [| done | done |].
  - intros Hne.
    assert (ScopeTracker.clearCache (Some uri) cache = (LRU.delete uri cache).2) as ->.
    { unfold ScopeTracker.clearCache, ScopeTracker.truthy.
      destruct uri; [done | reflexivity]. }
    split.
    + apply Map_has_false, Map_delete_absent.
    + intros k Hk. by apply Map_get_delete_ne.
  - intros [u|]; [|done]. unfold ScopeTracker.clearCache.
    by destruct (ScopeTracker.truthy (Some u)).
Qed.

(** ** The change classifier: ranges, verdicts, configuration *)

Section ClassifierMoreFacts.
Import Vscode ChangeFilter.

Lemma fold_extend_changes (changes : list TextDocumentContentChangeEvent) acc :
  fold_left (λ acc change, ChangeFilter.extend acc (range change)) changes acc
  = fold_left EditBuffer.extend (map range changes) acc.
Proof.
  revert acc. induction changes as [|c cs IH]; intros acc; [done|].
  cbn [fold_left map]. apply IH.
Qed.

Lemma trimStart_spec s :
  Js.trimStart s = EmptyString ∧ Js.allWhiteSpace s = true
  ∨ ∃ c rest, Js.trimStart s = String c rest ∧ Js.isWhiteSpace c = false
              ∧ Js.allWhiteSpace s = false.
Proof.
  induction s as [|c s IH]; [by left|]. cbn [Js.trimStart Js.allWhiteSpace].
  destruct (Js.isWhiteSpace c) eqn:Hc.
  - destruct IH as [[-> ->]|(c' & rest & -> & Hc' & ->)]; [by left|].
    right. by exists c', rest.
  - right. by exists c, s.
Qed.

Lemma allWhiteSpace_list s :
  Js.allWhiteSpace s = forallb Js.isWhiteSpace (list_ascii_of_string s).
Proof. induction s as [|c s IH]; [done|]. simpl. by rewrite IH. Qed.

Lemma allWhiteSpace_reverse s : Js.allWhiteSpace (Js.reverse s) = Js.allWhiteSpace s.
Proof.
  unfold Js.reverse.
  rewrite !allWhiteSpace_list, list_ascii_of_string_of_list_ascii.
  generalize (list_ascii_of_string s). intros l.
  induction l as [|c l IH]; [done|].
  simpl. rewrite forallb_app, IH. simpl. by rewrite andb_true_r, andb_comm.
Qed.

Lemma reverse_empty s : Js.reverse s = EmptyString → s = EmptyString.
Proof.
  unfold Js.reverse. intros H.
  apply (f_equal list_ascii_of_string) in H.
  rewrite list_ascii_of_string_of_list_ascii in H. simpl in H.
  destruct s as [|c s]; [done|]. simpl in H.
  by destruct (rev (list_ascii_of_string s)).
Qed.

(** [trim] leaves nothing exactly when the string is all white space. *)
Lemma trim_empty s : Js.strEq (Js.trim s) EmptyString = Js.allWhiteSpace s.
Proof.
  unfold Js.strEq, Js.trim, Js.trimEnd.
  destruct (trimStart_spec s) as [[-> ->]|(c & rest & -> & Hc & ->)]; [done|].
  apply String.eqb_neq. intros H%reverse_empty.
  destruct (trimStart_spec (Js.reverse (String c rest)))
    as [[_ Hall]|(c' & rest' & Hts & _)]; [|congruence].
  rewrite allWhiteSpace_reverse in Hall. simpl in Hall. by rewrite Hc in Hall.
Qed.

End ClassifierMoreFacts.

(** X9. For a non-empty list of changes (ranges of the host, start not
    after end) the affected range computed by the classifier's
    [getCombinedRange] is the smallest range covering all change ranges:
    it starts at the least change start and ends at the greatest change
    end. *)
Theorem affectedRange_smallest_cover
    (changes : list Vscode.TextDocumentContentChangeEvent) :
  changes ≠ [] →
  Forall (λ change, Vscode.Range_ok (Vscode.range change)) changes →
  let result := ChangeFilter.getCombinedRange changes in
  (∀ change, change ∈ changes →
     Vscode.isBeforeOrEqual (Vscode.start result)
       (Vscode.start (Vscode.range change)) = true ∧
     Vscode.isBeforeOrEqual (Vscode.end_ (Vscode.range change))
       (Vscode.end_ result) = true) ∧
  (∃ change, change ∈ changes ∧
             Vscode.start (Vscode.range change) = Vscode.start result) ∧
  (∃ change, change ∈ changes ∧
             Vscode.end_ (Vscode.range change) = Vscode.end_ result).
Proof.
  intros Hne Hok.
  destruct changes as [|first rest]; [done|].
  set (changes := first :: rest) in *. intros result.
  assert (Hfirst : first ∈ changes) by left.
  set (p0 := Vscode.start (Vscode.range first)).
  set (q0 := Vscode.end_ (Vscode.range first)).
  set (rs := map Vscode.range changes).
  destruct (fold_posMin (map Vscode.start rs) p0) as (Hp0 & Hmin & Hminatt).
  destruct (fold_posMax (map Vscode.end_ rs) q0) as (Hq0 & Hmaxall & Hmaxatt).
  set (p' := fold_left Vscode.posMin (map Vscode.start rs) p0) in *.
  set (q' := fold_left Vscode.posMax (map Vscode.end_ rs) q0) in *.
  rewrite Forall_forall in Hok.
  assert (Hp'q' : Vscode.isBeforeOrEqual p' q' = true).
  { eapply isBeforeOrEqual_trans; [exact Hp0|].
    eapply isBeforeOrEqual_trans; [apply (Hok first Hfirst) | exact Hq0]. }
  assert (Hres : result = Vscode.mkRange p' q').
  { unfold result, ChangeFilter.getCombinedRange. unfold changes at 1.
    cbv beta iota. rewrite fold_extend_changes. fold rs.
    change (Vscode.line (Vscode.start (Vscode.range first)),
            Vscode.character (Vscode.start (Vscode.range first)),
            Vscode.line (Vscode.end_ (Vscode.range first)),
            Vscode.character (Vscode.end_ (Vscode.range first)))
      with (Vscode.line p0, Vscode.character p0, Vscode.line q0, Vscode.character q0).
    rewrite fold_extend. cbv beta iota zeta. fold p' q'.
    by apply Range_new_ordered. }
  assert (Hin : ∀ (f : Vscode.Range → Vscode.Position) x,
            x ∈ map f rs → ∃ change, change ∈ changes ∧ f (Vscode.range change) = x).
  { intros f x (r & -> & (c & -> & Hc)%list_elem_of_fmap)%list_elem_of_fmap. eauto. }
  rewrite Hres. cbn [Vscode.start Vscode.end_]. split_and!.
  - intros change Hc. split; [apply Hmin | apply Hmaxall];
      apply list_elem_of_fmap; eexists; (split; [reflexivity|]);
      apply list_elem_of_fmap; eauto.
  - destruct Hminatt as [->|Hx]; [by exists first | by apply Hin].
  - destruct Hmaxatt as [->|Hx]; [by exists first | by apply Hin].
Qed.

Lemma affectedRange_smallest_cover_witness :
  let changes := [Vscode.mkChange (Vscode.Range_new 2 0 2 5) 0 5 "new3";
                  Vscode.mkChange (Vscode.Range_new 0 0 0 5) 0 5 "new1"] in
  ∃ change, change ∈ changes ∧
            Vscode.start (Vscode.range change)
            = Vscode.start (ChangeFilter.getCombinedRange changes).
Proof.
  intros changes.
  assert (H1 : changes ≠ []) by discriminate.
  assert (H2 : Forall (λ change, Vscode.Range_ok (Vscode.range change)) changes)
    by (repeat constructor).
  destruct (affectedRange_smallest_cover changes H1 H2) as (_ & H & _). exact H.
Defined.

Section VerdictFacts.
Import ChangeFilter.

Lemma some_true_iff t cs : some t cs = true ↔ t ∈ cs.
Proof.
  destruct (some t cs) eqn:E.
  - split; [intros _ | done]. destruct (decide (t ∈ cs)) as [|Hn]; [done|].
    apply some_false_iff in Hn. congruence.
  - apply some_false_iff in E. split; [done | by intros ?].
Qed.

Lemma mapM_nil_inv {A B} (f : A → Js.Completion B) xs :
  Js.mapM f xs = Js.Normal [] → xs = [].
Proof.
  destruct xs as [|x xs]; [done|]. cbn [Js.mapM].
  destruct (f x); [|done]. cbn [Js.bind]. by destruct (Js.mapM f xs).
Qed.

(** The significance [combine] gives is decided by the type it gives and
    the flag of that type. *)
Lemma combine_significance config ks :
  (combine config ks).2 =
  match (combine config ks).1 with
  | typeComment => negb (ignoreComments config)
  | typeWhitespace => negb (ignoreWhitespace config)
  | typeFormatting => negb (ignoreFormatting config)
  | typeCode | typeMixed => true
  end.
Proof.
  unfold combine.
  destruct (some code ks), (some comment ks), (some whitespace ks),
    (some formatting ks); reflexivity.
Qed.

Lemma combine_type_config config config' ks :
  (combine config ks).1 = (combine config' ks).1.
Proof.
  unfold combine.
  destruct (some code ks), (some comment ks), (some whitespace ks),
    (some formatting ks); reflexivity.
Qed.

Lemma classify_nonempty config doc changes :
  changes ≠ [] →
  classify config doc changes =
  Js.bind (Js.mapM (classifySingleChange doc) changes) (λ ks,
    Js.Normal (mkClassification (combine config ks).2 (combine config ks).1
                 (getCombinedRange changes))).
Proof.
  intros Hne. unfold classify. destruct changes as [|c cs]; [done|].
  destruct (Js.mapM _ _) as [ks|e]; [|done]. cbn [Js.bind].
  by destruct (combine config ks).
Qed.

End VerdictFacts.

(** X10. A change set one of whose changes classifies as code is always
    significant, whatever the configuration; its type is [mixed] when a
    comment or whitespace change occurs as well and [code] otherwise (so
    also when the only other changes are formatting changes). *)
Theorem classify_code_always_significant (config : ChangeFilter.FilterConfig)
    (doc : Vscode.TextDocument)
    (changes : list Vscode.TextDocumentContentChangeEvent)
    (ks : list ChangeFilter.ChangeKind) :
  Js.mapM (ChangeFilter.classifySingleChange doc) changes = Js.Normal ks →
  ChangeFilter.code ∈ ks →
  ChangeFilter.classify config doc changes =
  Js.Normal
    (ChangeFilter.mkClassification true
       (if ChangeFilter.some ChangeFilter.comment ks
           || ChangeFilter.some ChangeFilter.whitespace ks
        then ChangeFilter.typeMixed else ChangeFilter.typeCode)
       (ChangeFilter.getCombinedRange changes)).
Proof.
  intros Hks Hcode. rewrite classify_nonempty, Hks.
  - cbn [Js.bind]. unfold ChangeFilter.combine.
    apply some_true_iff in Hcode. by rewrite Hcode.
  - intros ->. simpl in Hks. injection Hks as <-. by apply elem_of_nil in Hcode.
Qed.

Lemma classify_code_always_significant_witness :
  let doc := Vscode.mkTextDocument "file:///a.ts" "typescript" 1 ["const x = 1;"] Js.LF in
  let changes := [Vscode.mkChange (Vscode.Range_new 0 0 0 0) 0 0 "const y = 2;"] in
  ChangeFilter.classify ChangeFilter.DEFAULT_CONFIG doc changes =
  Js.Normal (ChangeFilter.mkClassification true ChangeFilter.typeCode
               (ChangeFilter.getCombinedRange changes)).
Proof.
  intros doc changes.
  apply (classify_code_always_significant ChangeFilter.DEFAULT_CONFIG doc changes
           [ChangeFilter.code]); [reflexivity | left].
Defined.

(** X11. For a non-empty change set the type [classify] reports does not
    depend on the configuration, and neither does the affected range or
    whether [classify] returns; the significance is decided by the type and
    the flag of that type alone: a [comment], [whitespace] or [formatting]
    verdict is significant iff the corresponding ignore flag is off, and a
    [code] or [mixed] verdict always is. *)
Theorem classify_significance_follows_flag
    (config config' : ChangeFilter.FilterConfig) (doc : Vscode.TextDocument)
    (changes : list Vscode.TextDocumentContentChangeEvent)
    (result : ChangeFilter.ChangeClassification) :
  changes ≠ [] →
  ChangeFilter.classify config doc changes = Js.Normal result →
  ChangeFilter.isSignificant result =
    match ChangeFilter.changeType result with
    | ChangeFilter.typeComment => negb (ChangeFilter.ignoreComments config)
    | ChangeFilter.typeWhitespace => negb (ChangeFilter.ignoreWhitespace config)
    | ChangeFilter.typeFormatting => negb (ChangeFilter.ignoreFormatting config)
    | ChangeFilter.typeCode | ChangeFilter.typeMixed => true
    end ∧
  ∃ result', ChangeFilter.classify config' doc changes = Js.Normal result' ∧
             ChangeFilter.changeType result' = ChangeFilter.changeType result ∧
             ChangeFilter.affectedRange result' = ChangeFilter.affectedRange result.
Proof.
  intros Hne. rewrite !classify_nonempty by done.
  destruct (Js.mapM _ _) as [ks|e]; [|done]. cbn [Js.bind].
  intros [= <-]. cbn [ChangeFilter.isSignificant ChangeFilter.changeType
                      ChangeFilter.affectedRange].
  split; [apply combine_significance|].
  eexists. split; [reflexivity|].
  cbn [ChangeFilter.changeType ChangeFilter.affectedRange].
  split; [apply combine_type_config | done].
Qed.

Lemma classify_significance_follows_flag_witness :
  let doc := Vscode.mkTextDocument "file:///a.ts" "typescript" 1 ["// c"] Js.LF in
  let changes := [Vscode.mkChange (Vscode.Range_new 0 0 0 4) 0 4 "// d"] in
  ∃ result',
    ChangeFilter.classify (ChangeFilter.mkFilterConfig false true true) doc changes
      = Js.Normal result' ∧
    ChangeFilter.changeType result' = ChangeFilter.typeComment ∧
    ChangeFilter.affectedRange result' = Vscode.Range_new 0 0 0 4.
Proof.
  intros doc changes.
  destruct (classify_significance_follows_flag ChangeFilter.DEFAULT_CONFIG
              (ChangeFilter.mkFilterConfig false true true) doc changes
              (ChangeFilter.mkClassification false ChangeFilter.typeComment
                 (Vscode.Range_new 0 0 0 4)))
    as [_ H]; [discriminate | reflexivity | exact H].
Defined.

(** X12. A language without comment patterns never yields a comment.  In
    a document whose language identifier is not a key of [COMMENT_PATTERNS]
    no change classifies as a comment.  If the identifier is not the name
    of a member of [Object.prototype] either, every change classifies
    without an exception and [classify] returns for every list of changes,
    also for changes that start outside the document, with a type other
    than [comment].  If it is such a name ([constructor], [toString],
    [__proto__], ...) the lookup yields the inherited member, and a change
    that is neither whitespace-only nor formatting-only is not classified
    at all: [classifySingleChange] throws. *)
Theorem unsupported_language_never_comment (config : ChangeFilter.FilterConfig)
    (doc : Vscode.TextDocument)
    (changes : list Vscode.TextDocumentContentChangeEvent) :
  ChangeFilter.COMMENT_PATTERNS (Vscode.languageId doc) = None →
  (∀ change k, ChangeFilter.classifySingleChange doc change = Js.Normal k →
               k ≠ ChangeFilter.comment) ∧
  (Js.inObjectPrototype (Vscode.languageId doc) = false →
   (∀ change, ∃ k, ChangeFilter.classifySingleChange doc change = Js.Normal k) ∧
   ∃ result, ChangeFilter.classify config doc changes = Js.Normal result ∧
             ChangeFilter.changeType result ≠ ChangeFilter.typeComment) ∧
  (Js.inObjectPrototype (Vscode.languageId doc) = true →
   ∀ change,
     let oldText := ChangeFilter.getOldText doc (Vscode.range change)
                      (Vscode.rangeLength change) in
     ChangeFilter.isWhitespaceOnly oldText (Vscode.text change) = false →
     ChangeFilter.isFormattingOnly oldText (Vscode.text change) = false →
     ∃ error, ChangeFilter.classifySingleChange doc change = Js.Throw error).
Proof.
  intros Hlang.
  assert (Hnever : ∀ change k,
            ChangeFilter.classifySingleChange doc change = Js.Normal k →
            k ≠ ChangeFilter.comment).
  { intros change k.
    unfold ChangeFilter.classifySingleChange, ChangeFilter.isInComment,
      ChangeFilter.isCommentText, ChangeFilter.patternsOf.
    rewrite Hlang.
    destruct (ChangeFilter.isWhitespaceOnly _ _); [by intros [= <-]|].
    destruct (ChangeFilter.isFormattingOnly _ _); [by intros [= <-]|].
    destruct (Js.inObjectPrototype _); cbn [Js.bind]; [|by intros [= <-]].
    by destruct (Vscode.lineAt _ _). }
  split; [done|]. split.
  - intros Hproto.
    assert (Hone : ∀ change, ∃ k,
              ChangeFilter.classifySingleChange doc change = Js.Normal k).
    { intros change.
      unfold ChangeFilter.classifySingleChange, ChangeFilter.isInComment,
        ChangeFilter.isCommentText, ChangeFilter.patternsOf.
      rewrite Hlang, Hproto. cbn [Js.bind].
      destruct (ChangeFilter.isWhitespaceOnly _ _); [by eexists|].
      destruct (ChangeFilter.isFormattingOnly _ _); by eexists. }
    split; [done|].
    assert (Hall : ∃ ks, Js.mapM (ChangeFilter.classifySingleChange doc) changes
                         = Js.Normal ks ∧ ChangeFilter.comment ∉ ks).
    { induction changes as [|c cs (ks & IH & Hks)].
      - exists []. split; [done | apply not_elem_of_nil].
      - destruct (Hone c) as (k & Hk). exists (k :: ks).
        cbn [Js.mapM]. rewrite Hk. cbn [Js.bind]. rewrite IH. cbn [Js.bind].
        split; [done|]. rewrite not_elem_of_cons.
        split; [|done]. intros Heq. by apply (Hnever c k Hk). }
    destruct Hall as (ks & Hks & Hno).
    destruct changes as [|c cs]; [by eexists|].
    rewrite classify_nonempty, Hks by done. cbn [Js.bind].
    eexists. split; [reflexivity|]. cbn [ChangeFilter.changeType].
    apply some_false_iff in Hno. unfold ChangeFilter.combine. rewrite Hno.
    by destruct (ChangeFilter.some ChangeFilter.code ks),
         (ChangeFilter.some ChangeFilter.whitespace ks),
         (ChangeFilter.some ChangeFilter.formatting ks).
  - intros Hproto change oldText Hws Hfmt.
    unfold ChangeFilter.classifySingleChange, ChangeFilter.isInComment,
      ChangeFilter.patternsOf.
    fold oldText. rewrite Hws, Hfmt, Hlang, Hproto.
    destruct (Vscode.lineAt _ _); by eexists.
Qed.

Lemma unsupported_language_never_comment_witness :
  let doc := Vscode.mkTextDocument "file:///a.md" "markdown" 1 ["# title"] Js.LF in
  ∃ result,
    ChangeFilter.classify ChangeFilter.DEFAULT_CONFIG doc
      [Vscode.mkChange (Vscode.Range_new 7 0 7 0) 0 0 "# more"] = Js.Normal result ∧
    ChangeFilter.changeType result ≠ ChangeFilter.typeComment.
Proof.
  intros doc.
  destruct (unsupported_language_never_comment ChangeFilter.DEFAULT_CONFIG doc
              [Vscode.mkChange (Vscode.Range_new 7 0 7 0) 0 0 "# more"])
    as (_ & H & _); [reflexivity|].
  destruct (H eq_refl) as [_ Hresult]. exact Hresult.
Defined.

(** X13. [isWhitespaceOnly] holds exactly when the replaced text and the
    inserted text both consist of white space only (or are empty), white
    space being what [trim] removes: tab, line feed, vertical tab, form
    feed, carriage return, space and the no-break space among the code
    units below 256.  Such a change classifies as [whitespace], without an
    exception, in every document and language. *)
Theorem isWhitespaceOnly_iff_blank (doc : Vscode.TextDocument)
    (change : Vscode.TextDocumentContentChangeEvent) (oldText newText : string) :
  ChangeFilter.isWhitespaceOnly oldText newText =
    Js.allWhiteSpace oldText && Js.allWhiteSpace newText ∧
  (Js.allWhiteSpace
     (ChangeFilter.getOldText doc (Vscode.range change) (Vscode.rangeLength change))
     && Js.allWhiteSpace (Vscode.text change) = true →
   ChangeFilter.classifySingleChange doc change = Js.Normal ChangeFilter.whitespace).
Proof.
  assert (H : ∀ a b, ChangeFilter.isWhitespaceOnly a b =
                     Js.allWhiteSpace a && Js.allWhiteSpace b).
  { intros a b. unfold ChangeFilter.isWhitespaceOnly. rewrite !trim_empty.
    by destruct (Js.allWhiteSpace a), (Js.allWhiteSpace b). }
  split; [apply H|].
  intros Hblank. unfold ChangeFilter.classifySingleChange. by rewrite H, Hblank.
Qed.

Lemma isWhitespaceOnly_iff_blank_witness :
  let doc := Vscode.mkTextDocument "file:///a.ts" "typescript" 1 ["a  b"] Js.LF in
  let noBreakSpace := String (ascii_of_nat 160) EmptyString in
  let change := Vscode.mkChange (Vscode.Range_new 0 1 0 3) 1 2 noBreakSpace in
  ChangeFilter.classifySingleChange doc change = Js.Normal ChangeFilter.whitespace.
Proof.
  intros doc noBreakSpace change.
  destruct (isWhitespaceOnly_iff_blank doc change "" "") as [_ H].
  apply H. reflexivity.
Defined.

Lemma clearCache_removes_witness :
  let entry := ScopeTracker.mkCached [] 1 in
  LRU.has "file:///a.ts"
    (ScopeTracker.clearCache (Some "file:///a.ts")
       (LRU.mkLRU [("file:///a.ts", entry); ("file:///b.ts", entry)] 50)) = false.
Proof.
  intros entry.
  destruct (clearCache_removes "file:///a.ts"
              (LRU.mkLRU [("file:///a.ts", entry); ("file:///b.ts", entry)] 50))
    as [H _].
  destruct H as [H _]; [discriminate | exact H].
Defined.

Lemma getDocumentSymbols_served_from_cache_witness :
  let doc := Vscode.mkTextDocument "file:///a.ts" "typescript" 1 ["x"] Js.LF in
  let outline := [ScopeTracker.mkSymbol "f" ScopeTracker.SkFunction
                    (Vscode.Range_new 0 0 0 1) []] in
  let first := ScopeTracker.getDocumentSymbols (Js.Normal (Some outline)) doc
                 (LRU.new 50) in
  (ScopeTracker.getDocumentSymbols (Js.Throw "no provider") doc first.2).1
  = Some outline.
Proof.
  intros doc outline first.
  destruct (getDocumentSymbols_served_from_cache (Js.Normal (Some outline)) doc
              (LRU.new 50)) as [H _].
  apply (H outline eq_refl).
Defined.

(** ** The edit buffer: bursts, flushes, timers *)

Section BufferFacts.
Import Vscode EditBuffer.
Implicit Types (st : State) (u : string).

Lemma addEdit_fields now doc changes st :
  buffer (addEdit now doc changes st) =
    <[uri doc := mkEntry doc (EditBuffer.priorEdits (uri doc) st
                              ++ [mkBufferedEdit changes now (version doc)])]>
      (buffer st) ∧
  timers (addEdit now doc changes st) = {[uri doc]} ∪ timers st ∧
  idleMs (addEdit now doc changes st) = idleMs st ∧
  console (addEdit now doc changes st) = console st.
Proof.
  unfold addEdit, resetTimer, cancelTimer, EditBuffer.priorEdits.
  cbn [buffer timers idleMs console].
  split_and!; [by destruct (buffer st !! uri doc) | | done | done].
  apply set_eq. intros x.
  rewrite !elem_of_union, elem_of_difference, !elem_of_singleton.
  destruct (decide (x = uri doc)); tauto.
Qed.

Lemma addEdits_snoc calls call st :
  addEdits (calls ++ [call]) st = addEdit call.1.1 call.1.2 call.2 (addEdits calls st).
Proof. unfold addEdits. by rewrite fold_left_app. Qed.

(** The state after a burst of edits to one URI. *)
Lemma addEdits_burst u calls call st :
  Forall (λ c, uri c.1.2 = u) calls → uri call.1.2 = u →
  let st' := addEdits (calls ++ [call]) st in
  buffer st' = <[u := mkEntry call.1.2
                        (EditBuffer.priorEdits u st ++ map editOf (calls ++ [call]))]> (buffer st) ∧
  timers st' = {[u]} ∪ timers st ∧
  idleMs st' = idleMs st ∧ console st' = console st.
Proof.
  revert call. induction calls as [|c' calls IH] using rev_ind; intros call Hall Hu.
  - cbn [app]. unfold addEdits. cbn [fold_left map].
    destruct (addEdit_fields call.1.1 call.1.2 call.2 st) as (-> & -> & -> & ->).
    by rewrite Hu.
  - apply Forall_app in Hall as [Hall Hc']. rewrite Forall_singleton in Hc'.
    intros st'. unfold st'. rewrite addEdits_snoc.
    destruct (IH c' Hall Hc') as (Hb & Ht & Hi & Hc).
    destruct (addEdit_fields call.1.1 call.1.2 call.2 (addEdits (calls ++ [c']) st))
      as (-> & -> & -> & ->).
    unfold EditBuffer.priorEdits at 1. rewrite Hu, Hb, lookup_insert_eq, insert_insert_eq.
    cbn [edits]. rewrite Ht, Hi, Hc. split_and!; [| | done | done].
    + f_equal. f_equal. rewrite (map_app _ (calls ++ [c'])). cbn [map].
      by rewrite <- app_assoc.
    + apply set_eq. intros x. rewrite !elem_of_union. tauto.
Qed.

Lemma foldr_cancelTimer (l : list string) st :
  buffer (foldr cancelTimer st l) = buffer st ∧
  timers (foldr cancelTimer st l) = timers st ∖ list_to_set l ∧
  idleMs (foldr cancelTimer st l) = idleMs st ∧
  console (foldr cancelTimer st l) = console st.
Proof.
  induction l as [|x l (Hb & Ht & Hi & Hc)]; cbn [foldr].
  - split_and!; try done. cbn [list_to_set]. apply set_eq. intros y.
    rewrite elem_of_difference, elem_of_empty. tauto.
  - unfold cancelTimer at 1 3 5 7. cbn [buffer timers idleMs console].
    rewrite Hb, Ht, Hi, Hc. split_and!; try done.
    cbn [list_to_set]. apply set_eq. intros y.
    rewrite !elem_of_difference, elem_of_union, elem_of_singleton. tauto.
Qed.

Lemma flushAll_fields st :
  (flushAll st).1 = buffer st ∧
  (flushAll st).2 = mkState ∅ ∅ (idleMs st) (console st).
Proof.
  unfold flushAll.
  destruct (foldr_cancelTimer (elements (timers st)) st) as (-> & -> & -> & ->).
  split; [done|]. cbn [snd]. f_equal.
  apply set_eq. intros y.
  rewrite elem_of_difference, elem_of_list_to_set, elem_of_elements, elem_of_empty.
  tauto.
Qed.

(** The timer function on a URI with a non-empty entry. *)
Lemma timerFires_nonempty (callback : IdleCallback) u entry st :
  buffer st !! u = Some entry → edits entry ≠ [] →
  timerFires (Some callback) u st =
  match callback u (document entry) (edits entry)
          (mkState (delete u (buffer st)) (timers st ∖ {[u]}) (idleMs st) (console st))
  with
  | (st1, Js.Normal _) => (st1, Js.Normal tt)
  | (st1, Js.Throw error) =>
      (mkState (buffer st1) (timers st1) (idleMs st1)
         (console st1 ++ [("[EditBuffer] Idle callback error: " ++ error)%string]),
       Js.Normal tt)
  end.
Proof.
  intros Hentry Hne.
  assert (Hlen : Nat.eqb (length (edits entry)) 0 = false)
    by (destruct (edits entry); [done | reflexivity]).
  unfold timerFires, tryCatch, bind, modify, onTimerFired, cancelTimer.
  cbn [buffer timers idleMs console]. rewrite Hentry, Hlen.
  unfold tryCatch, consoleError, modify.
  by destruct (callback _ _ _ _) as [st1 [[]|error]].
Qed.

Lemma buffering_empty ms con : buffering (mkState ∅ ∅ ms con).
Proof.
  split; cbn [buffer timers].
  - apply dom_empty_L.
  - intros uri entry. by rewrite lookup_empty.
Qed.

End BufferFacts.

(** X14. A burst of [addEdit] calls for one URI that had no entry, followed
    by [flush]: the buffer counts one edit per call, and [flush] returns
    the document of the last call with all the edits in arrival order; it
    puts the buffer back to what it was before the burst, cancels the
    timer, and a second [flush] returns [undefined]. *)
Theorem burst_then_flush (u : string)
    (calls : list (N * Vscode.TextDocument * list Vscode.TextDocumentContentChangeEvent))
    (call : N * Vscode.TextDocument * list Vscode.TextDocumentContentChangeEvent)
    (st : EditBuffer.State) :
  EditBuffer.buffer st !! u = None →
  Forall (λ c, Vscode.uri c.1.2 = u) calls → Vscode.uri call.1.2 = u →
  let st' := EditBuffer.addEdits (calls ++ [call]) st in
  let flushed := EditBuffer.flush u st' in
  EditBuffer.getBufferedEditCount u st' = S (length calls) ∧
  EditBuffer.hasBufferedEdits u st' = true ∧
  u ∈ EditBuffer.timers st' ∧
  flushed.1 = Some (EditBuffer.mkEntry call.1.2
                      (map EditBuffer.editOf (calls ++ [call]))) ∧
  EditBuffer.buffer flushed.2 = EditBuffer.buffer st ∧
  EditBuffer.timers flushed.2 = EditBuffer.timers st ∖ {[u]} ∧
  EditBuffer.hasBufferedEdits u flushed.2 = false ∧
  (EditBuffer.flush u flushed.2).1 = None.
Proof.
  intros Hnone Hall Hu st' flushed.
  destruct (addEdits_burst u calls call st Hall Hu) as (Hb & Ht & Hi & Hc).
  fold st' in Hb, Ht, Hi, Hc.
  assert (Hprior : EditBuffer.priorEdits u st = []) by (unfold EditBuffer.priorEdits; by rewrite Hnone).
  rewrite Hprior in Hb. cbn [app] in Hb.
  assert (Hlook : EditBuffer.buffer st' !! u =
                  Some (EditBuffer.mkEntry call.1.2
                          (map EditBuffer.editOf (calls ++ [call]))))
    by (rewrite Hb; apply lookup_insert_eq).
  assert (Hbuf : EditBuffer.buffer flushed.2 = EditBuffer.buffer st).
  { unfold flushed, EditBuffer.flush, EditBuffer.cancelTimer.
    cbn [snd EditBuffer.buffer]. rewrite Hb. by apply delete_insert_id. }
  split_and!.
  - unfold EditBuffer.getBufferedEditCount. rewrite Hlook. cbn [EditBuffer.edits].
    rewrite length_map, length_app. simpl. lia.
  - unfold EditBuffer.hasBufferedEdits. rewrite Hlook. cbn [EditBuffer.edits].
    rewrite length_map, length_app. simpl.
    by replace (length calls + 1) with (S (length calls)) by lia.
  - rewrite Ht. by apply elem_of_union_l, elem_of_singleton.
  - unfold flushed, EditBuffer.flush, EditBuffer.cancelTimer.
    by cbn [fst EditBuffer.buffer].
  - exact Hbuf.
  - unfold flushed, EditBuffer.flush, EditBuffer.cancelTimer.
    cbn [snd EditBuffer.timers]. rewrite Ht. apply set_eq. intros x.
    rewrite !elem_of_difference, elem_of_union, elem_of_singleton. tauto.
  - unfold EditBuffer.hasBufferedEdits. by rewrite Hbuf, Hnone.
  - unfold EditBuffer.flush at 1, EditBuffer.cancelTimer.
    cbn [fst EditBuffer.buffer]. by rewrite Hbuf.
Qed.

Lemma burst_then_flush_witness :
  let doc := Vscode.mkTextDocument "file:///a.ts" "typescript" 2 ["xy"] Js.LF in
  let call1 := (10%N, doc, [Vscode.mkChange (Vscode.Range_new 0 0 0 0) 0 0 "x"]) in
  let call2 := (20%N, doc, [Vscode.mkChange (Vscode.Range_new 0 1 0 1) 1 0 "y"]) in
  (EditBuffer.flush "file:///a.ts"
     (EditBuffer.addEdits ([call1] ++ [call2]) (EditBuffer.new 400))).1
  = Some (EditBuffer.mkEntry doc (map EditBuffer.editOf ([call1] ++ [call2]))).
Proof.
  intros doc call1 call2.
  pose proof (burst_then_flush "file:///a.ts" [call1] call2 (EditBuffer.new 400)) as H.
  destruct H as (_ & _ & _ & H & _);
    [apply lookup_empty | by repeat constructor | reflexivity | exact H].
Defined.

(** X15. A burst of [addEdit] calls for one URI followed by its idle timer
    firing: the callback runs exactly once, with that URI, the document of
    the last call and all the edits in arrival order, in a buffer that is
    back to what it was before the burst and has no timer for the URI. *)
Theorem burst_then_idle (callback : EditBuffer.IdleCallback) (u : string)
    (calls : list (N * Vscode.TextDocument * list Vscode.TextDocumentContentChangeEvent))
    (call : N * Vscode.TextDocument * list Vscode.TextDocumentContentChangeEvent)
    (st : EditBuffer.State) :
  EditBuffer.buffer st !! u = None →
  Forall (λ c, Vscode.uri c.1.2 = u) calls → Vscode.uri call.1.2 = u →
  EditBuffer.timerFires (Some callback) u (EditBuffer.addEdits (calls ++ [call]) st) =
  match callback u call.1.2 (map EditBuffer.editOf (calls ++ [call]))
          (EditBuffer.mkState (EditBuffer.buffer st) (EditBuffer.timers st ∖ {[u]})
             (EditBuffer.idleMs st) (EditBuffer.console st))
  with
  | (st1, Js.Normal _) => (st1, Js.Normal tt)
  | (st1, Js.Throw error) =>
      (EditBuffer.mkState (EditBuffer.buffer st1) (EditBuffer.timers st1)
         (EditBuffer.idleMs st1)
         (EditBuffer.console st1
            ++ [("[EditBuffer] Idle callback error: " ++ error)%string]),
       Js.Normal tt)
  end.
Proof.
  intros Hnone Hall Hu.
  destruct (addEdits_burst u calls call st Hall Hu) as (Hb & Ht & Hi & Hc).
  assert (Hprior : EditBuffer.priorEdits u st = []) by (unfold EditBuffer.priorEdits; by rewrite Hnone).
  rewrite Hprior in Hb. cbn [app] in Hb.
  rewrite (timerFires_nonempty callback u
             (EditBuffer.mkEntry call.1.2 (map EditBuffer.editOf (calls ++ [call])))).
  - cbn [EditBuffer.document EditBuffer.edits]. rewrite Hb, Ht, Hi, Hc.
    rewrite delete_insert_id by done.
    replace (({[u]} ∪ EditBuffer.timers st) ∖ {[u]})
      with (EditBuffer.timers st ∖ {[u]}); [done|].
    apply set_eq. intros x.
    rewrite !elem_of_difference, elem_of_union, elem_of_singleton. tauto.
  - rewrite Hb. apply lookup_insert_eq.
  - cbn [EditBuffer.edits]. rewrite map_app. cbn [map]. by destruct (map _ calls).
Qed.

Lemma burst_then_idle_witness :
  let doc := Vscode.mkTextDocument "file:///a.ts" "typescript" 2 ["xy"] Js.LF in
  let call1 := (10%N, doc, [Vscode.mkChange (Vscode.Range_new 0 0 0 0) 0 0 "x"]) in
  let call2 := (20%N, doc, [Vscode.mkChange (Vscode.Range_new 0 1 0 1) 1 0 "y"]) in
  let count : EditBuffer.IdleCallback :=
    λ _ _ edits, EditBuffer.consoleError
                   (if Nat.eqb (length edits) 2 then "two edits" else "other") in
  EditBuffer.console
    (EditBuffer.timerFires (Some count) "file:///a.ts"
       (EditBuffer.addEdits ([call1] ++ [call2]) (EditBuffer.new 400))).1
  = ["two edits"].
Proof.
  intros doc call1 call2 count.
  rewrite (burst_then_idle count "file:///a.ts" [call1] call2 (EditBuffer.new 400));
    [reflexivity | apply lookup_empty | by repeat constructor | reflexivity].
Defined.

(** X16. The edit buffer keeps its bookkeeping consistent: the URIs with a
    buffer entry are exactly the URIs with a pending timer, and no entry is
    empty.  This holds initially and is kept by [addEdit], [flush],
    [flushAll], [dispose], [setIdleMs] and by a firing timer, provided the
    callback it runs keeps it. *)
Theorem buffering_invariant (st : EditBuffer.State) :
  EditBuffer.buffering st →
  (∀ ms, EditBuffer.buffering (EditBuffer.new ms)) ∧
  (∀ now doc changes, EditBuffer.buffering (EditBuffer.addEdit now doc changes st)) ∧
  (∀ u, EditBuffer.buffering (EditBuffer.flush u st).2) ∧
  EditBuffer.buffering (EditBuffer.flushAll st).2 ∧
  EditBuffer.buffering (EditBuffer.dispose st) ∧
  (∀ ms, EditBuffer.buffering (EditBuffer.setIdleMs ms st)) ∧
  (∀ u, u ∈ EditBuffer.timers st →
        EditBuffer.buffering (EditBuffer.timerFires None u st).1) ∧
  (∀ (callback : EditBuffer.IdleCallback) u,
     (∀ uri doc edits s, EditBuffer.buffering s →
                         EditBuffer.buffering (callback uri doc edits s).1) →
     u ∈ EditBuffer.timers st →
     EditBuffer.buffering (EditBuffer.timerFires (Some callback) u st).1).
Proof.
  intros [Hdom Hne].
  pose proof buffering_empty as Hempty.
  assert (Hremoved : ∀ u, EditBuffer.buffering
            (EditBuffer.mkState (delete u (EditBuffer.buffer st))
               (EditBuffer.timers st ∖ {[u]}) (EditBuffer.idleMs st)
               (EditBuffer.console st))).
  { intros u. split; cbn [EditBuffer.buffer EditBuffer.timers].
    - by rewrite dom_delete_L, Hdom.
    - intros uri entry Hl. apply lookup_delete_Some in Hl as [_ Hl]. eauto. }
  assert (Hfire : ∀ (cb : EditBuffer.IdleCallback) u,
            (∀ uri doc edits s, EditBuffer.buffering s →
                                EditBuffer.buffering (cb uri doc edits s).1) →
            u ∈ EditBuffer.timers st →
            EditBuffer.buffering (EditBuffer.timerFires (Some cb) u st).1).
  { intros cb u Hcb Hu.
    rewrite <- Hdom in Hu. apply elem_of_dom in Hu as [entry Hentry].
    rewrite (timerFires_nonempty cb u entry st Hentry (Hne _ _ Hentry)).
    specialize (Hcb u (EditBuffer.document entry) (EditBuffer.edits entry) _
                  (Hremoved u)).
    destruct (cb u _ _ _) as [st1 [[]|error]]; cbn [fst] in *; [done|].
    destruct Hcb as [Hd1 Hn1]. by split. }
  split_and!.
  - intros ms. apply Hempty.
  - intros now doc changes.
    destruct (addEdit_fields now doc changes st) as (Hb & Ht & _ & _).
    split.
    + by rewrite Hb, Ht, dom_insert_L, Hdom.
    + intros uri entry. rewrite Hb.
      intros [[_ <-]|[_ Hl]]%lookup_insert_Some; [|eauto].
      cbn [EditBuffer.edits]. by destruct (EditBuffer.priorEdits _ _).
  - intros u. apply Hremoved.
  - destruct (flushAll_fields st) as [_ ->]. apply Hempty.
  - apply Hempty.
  - intros ms. by split.
  - intros u Hu.
    rewrite <- Hdom in Hu. apply elem_of_dom in Hu as [entry Hentry].
    assert (Hlen : Nat.eqb (length (EditBuffer.edits entry)) 0 = false).
    { specialize (Hne _ _ Hentry). by destruct (EditBuffer.edits entry). }
    unfold EditBuffer.timerFires, EditBuffer.tryCatch, EditBuffer.bind,
      EditBuffer.modify, EditBuffer.onTimerFired, EditBuffer.cancelTimer.
    cbn [EditBuffer.buffer EditBuffer.timers EditBuffer.idleMs EditBuffer.console].
    rewrite Hentry, Hlen. cbn [fst]. apply Hremoved.
  - apply Hfire.
Qed.

Lemma buffering_invariant_witness :
  let doc := Vscode.mkTextDocument "file:///a.ts" "typescript" 1 ["x"] Js.LF in
  EditBuffer.buffering
    (EditBuffer.addEdit 10 doc [Vscode.mkChange (Vscode.Range_new 0 0 0 0) 0 0 "x"]
       (EditBuffer.new 400)).
Proof.
  intros doc.
  destruct (buffering_invariant (EditBuffer.new 400) (buffering_empty 400 []))
    as (_ & H & _).
  apply H.
Defined.

(** X17. Documents do not interfere: [addEdit] and [flush] for one URI
    leave the entry and the timer of every other URI as they were. *)
Theorem other_documents_untouched (u u' : string) (now : N)
    (doc : Vscode.TextDocument)
    (changes : list Vscode.TextDocumentContentChangeEvent) (st : EditBuffer.State) :
  u' ≠ u → Vscode.uri doc = u →
  let added := EditBuffer.addEdit now doc changes st in
  let flushed := (EditBuffer.flush u st).2 in
  EditBuffer.buffer added !! u' = EditBuffer.buffer st !! u' ∧
  (u' ∈ EditBuffer.timers added ↔ u' ∈ EditBuffer.timers st) ∧
  EditBuffer.buffer flushed !! u' = EditBuffer.buffer st !! u' ∧
  (u' ∈ EditBuffer.timers flushed ↔ u' ∈ EditBuffer.timers st) ∧
  EditBuffer.getBufferedEditCount u' added = EditBuffer.getBufferedEditCount u' st.
Proof.
  intros Hne Hu added flushed.
  destruct (addEdit_fields now doc changes st) as (Hb & Ht & _ & _).
  fold added in Hb, Ht. rewrite Hu in Hb, Ht.
  assert (Hl : EditBuffer.buffer added !! u' = EditBuffer.buffer st !! u')
    by (rewrite Hb; by apply lookup_insert_ne).
  split_and!.
  - exact Hl.
  - rewrite Ht, elem_of_union, elem_of_singleton. tauto.
  - unfold flushed, EditBuffer.flush, EditBuffer.cancelTimer.
    cbn [snd EditBuffer.buffer]. by apply lookup_delete_ne.
  - unfold flushed, EditBuffer.flush, EditBuffer.cancelTimer.
    cbn [snd EditBuffer.timers]. rewrite elem_of_difference, elem_of_singleton. tauto.
  - unfold EditBuffer.getBufferedEditCount. by rewrite Hl.
Qed.

Lemma other_documents_untouched_witness :
  let docA := Vscode.mkTextDocument "file:///a.ts" "typescript" 1 ["x"] Js.LF in
  let docB := Vscode.mkTextDocument "file:///b.ts" "typescript" 1 ["y"] Js.LF in
  let st := EditBuffer.addEdit 10 docB [] (EditBuffer.new 400) in
  EditBuffer.getBufferedEditCount "file:///b.ts" (EditBuffer.addEdit 20 docA [] st)
  = EditBuffer.getBufferedEditCount "file:///b.ts" st.
Proof.
  intros docA docB st.
  pose proof (other_documents_untouched "file:///a.ts" "file:///b.ts" 20 docA [] st) as H.
  destruct H as (_ & _ & _ & _ & H); [discriminate | reflexivity | exact H].
Defined.

(** X18. [flushAll] returns, for every URI, exactly the entry [flush] would
    return for it, and leaves no entry and no timer behind; [dispose] leaves
    the same state and runs no callback and logs nothing. *)
Theorem flushAll_and_dispose (st : EditBuffer.State) :
  (∀ u, (EditBuffer.flushAll st).1 !! u = (EditBuffer.flush u st).1) ∧
  EditBuffer.buffer (EditBuffer.flushAll st).2 = ∅ ∧
  EditBuffer.timers (EditBuffer.flushAll st).2 = ∅ ∧
  (∀ u, EditBuffer.hasBufferedEdits u (EditBuffer.flushAll st).2 = false) ∧
  EditBuffer.dispose st = (EditBuffer.flushAll st).2 ∧
  EditBuffer.console (EditBuffer.dispose st) = EditBuffer.console st.
Proof.
  destruct (flushAll_fields st) as [H1 H2]. rewrite H1, H2.
  by split_and!.
Qed.

(** ** Dispatch health: how often a warning can appear *)

Section WarningFacts.
Import Vscode SmartDiagnostics.
Variables (doc : TextDocument) (affectedRange : Range).

Lemma last_default_irrelevant (l : list Z) (d d' : Z) :
  l ≠ [] → List.last l d = List.last l d'.
Proof.
  induction l as [|x l IH]; [done|]. intros _.
  destruct l as [|y l]; [done|]. cbn [List.last] in *. by apply IH.
Qed.

Lemma gapped_snoc prev times t :
  gapped prev times → (60000 < t - List.last times prev)%Z →
  gapped prev (times ++ [t]).
Proof.
  revert prev. induction times as [|w times IH]; intros prev; cbn [gapped app].
  - intros _ Ht. by split.
  - intros [Hw Hrest] Ht. split; [done|]. apply IH; [done|].
    destruct times as [|z times]; [done|].
    by rewrite (last_default_irrelevant (z :: times) w prev).
Qed.

(** What one dispatch does to the warnings and the failure streak. *)
Lemma dispatch_cases result now st :
  let st' := dispatch doc affectedRange result now st in
  (warningsShown st' = warningsShown st ∧
   lastNotificationTime st' = lastNotificationTime st ∧
   match result with
   | Js.Normal _ => consecutiveFailures st' = 0%N
   | Js.Throw _ =>
       consecutiveFailures st' = (consecutiveFailures st + 1)%N
       ∨ (consecutiveFailures st' = 0%N ∧ (3 ≤ consecutiveFailures st + 1)%N)
   end)
  ∨ (∃ e, result = Js.Throw e ∧ (3 ≤ consecutiveFailures st + 1)%N ∧
          (60000 < now - lastNotificationTime st)%Z ∧
          warningsShown st' = warningsShown st ++ [now] ∧
          lastNotificationTime st' = now ∧ consecutiveFailures st' = 0%N).
Proof.
  intros st'. unfold st'. destruct result as [[]|e].
  - left. by destruct (dispatch_success doc affectedRange now st) as (-> & -> & ->).
  - destruct (N.lt_ge_cases (consecutiveFailures st + 1) 3) as [Hb|Hb].
    + left.
      destruct (dispatch_failure_below doc affectedRange e now st Hb) as (-> & -> & ->).
      split_and!; [done | done | by left].
    + destruct (dispatch_failure_threshold doc affectedRange e now st Hb)
        as (Hcf & Hshow & Hquiet).
      destruct (Z.lt_ge_cases 60000 (now - lastNotificationTime st)) as [Hc|Hc].
      * right. exists e. destruct (Hshow Hc) as [-> ->]. by split_and!.
      * left. destruct (Hquiet Hc) as [-> ->]. split_and!; [done | done | by right].
Qed.

End WarningFacts.

(** X19. Warnings are rate limited: along every run of dispatches from a
    fresh object, each shown warning comes more than 60000 ms after the
    previous one (the first one more than 60000 ms after time 0), and each
    is shown at the time of a failed dispatch. *)
Theorem warnings_rate_limited (doc : Vscode.TextDocument) (r : Vscode.Range)
    (outcomes : list (Js.Completion unit * Z)) :
  let st := SmartDiagnostics.dispatchAll doc r outcomes SmartDiagnostics.new in
  SmartDiagnostics.gapped 0 (SmartDiagnostics.warningsShown st) ∧
  ∀ t, t ∈ SmartDiagnostics.warningsShown st → ∃ e, (Js.Throw e, t) ∈ outcomes.
Proof.
  assert (H : ∀ outcomes st,
    SmartDiagnostics.gapped 0 (SmartDiagnostics.warningsShown st) →
    SmartDiagnostics.lastNotificationTime st
      = List.last (SmartDiagnostics.warningsShown st) 0%Z →
    let st' := SmartDiagnostics.dispatchAll doc r outcomes st in
    SmartDiagnostics.gapped 0 (SmartDiagnostics.warningsShown st') ∧
    ∀ t, t ∈ SmartDiagnostics.warningsShown st' →
         t ∈ SmartDiagnostics.warningsShown st ∨ ∃ e, (Js.Throw e, t) ∈ outcomes).
  { clear outcomes. induction outcomes as [|[result now] rest IH]; intros st Hg Hl.
    - split; [done | by left].
    - cbn [SmartDiagnostics.dispatchAll].
      destruct (dispatch_cases doc r result now st)
        as [(Hw & Hlt & _)|(e & -> & _ & Hcool & Hw & Hlt & _)].
      + destruct (IH (SmartDiagnostics.dispatch doc r result now st)) as [Hg' Hin'].
        * by rewrite Hw.
        * by rewrite Hw, Hlt.
        * split; [done|]. intros t Ht. destruct (Hin' t Ht) as [Hold|[e He]].
          -- left. by rewrite <- Hw.
          -- right. exists e. by right.
      + destruct (IH (SmartDiagnostics.dispatch doc r (Js.Throw e) now st))
          as [Hg' Hin'].
        * rewrite Hw. apply gapped_snoc; [done|]. by rewrite <- Hl.
        * by rewrite Hw, Hlt, last_last.
        * split; [done|]. intros t Ht. destruct (Hin' t Ht) as [Hold|[e' He]].
          -- rewrite Hw in Hold. apply elem_of_app in Hold as [Hold|Hnew].
             ++ by left.
             ++ apply list_elem_of_singleton in Hnew as ->. right. exists e. left.
          -- right. exists e'. by right. }
  intros st. destruct (H outcomes SmartDiagnostics.new) as [Hg Hin]; [done..|].
  split; [done|]. intros t Ht. destruct (Hin t Ht) as [Hold|?]; [|done].
  by apply elem_of_nil in Hold.
Qed.

(** X20. A warning costs three failures: along every run of dispatches
    from a fresh object, three times the number of warnings shown, plus the
    current failure streak, never exceeds the number of failed dispatches. *)
Theorem warnings_at_most_one_per_three_failures (doc : Vscode.TextDocument)
    (r : Vscode.Range) (outcomes : list (Js.Completion unit * Z)) :
  let st := SmartDiagnostics.dispatchAll doc r outcomes SmartDiagnostics.new in
  (3 * length (SmartDiagnostics.warningsShown st)
   + N.to_nat (SmartDiagnostics.consecutiveFailures st)
   ≤ SmartDiagnostics.failureCount outcomes)%nat.
Proof.
  assert (H : ∀ outcomes st,
    let st' := SmartDiagnostics.dispatchAll doc r outcomes st in
    (3 * length (SmartDiagnostics.warningsShown st')
     + N.to_nat (SmartDiagnostics.consecutiveFailures st')
     ≤ 3 * length (SmartDiagnostics.warningsShown st)
       + N.to_nat (SmartDiagnostics.consecutiveFailures st)
       + SmartDiagnostics.failureCount outcomes)%nat).
  { clear outcomes. induction outcomes as [|[result now] rest IH]; intros st.
    - simpl. lia.
    - cbn [SmartDiagnostics.dispatchAll]. cbv zeta.
      specialize (IH (SmartDiagnostics.dispatch doc r result now st)).
      cbv zeta in IH.
      destruct (dispatch_cases doc r result now st)
        as [(Hw & _ & Hcf)|(e & -> & Hthr & _ & Hw & _ & Hcf)].
      + rewrite Hw in IH. destruct result as [[]|e]; cbn [SmartDiagnostics.failureCount].
        * rewrite Hcf in IH. lia.
        * destruct Hcf as [Hcf|[Hcf _]]; rewrite Hcf in IH; lia.
      + rewrite Hw, Hcf, length_app in IH. cbn [SmartDiagnostics.failureCount].
        simpl in IH. lia. }
  intros st. specialize (H outcomes SmartDiagnostics.new). simpl in H. exact H.
Qed.

(** ** The whole object: configuration, statistics, end to end *)

Section PipelineFacts.
Import Vscode Pipeline.
Implicit Types (o : Object) (sc : SmartDiagnostics.ScopeResolver).

Local Abbreviation pend :=
  (map_fold (λ (_ : string) entry n, length (EditBuffer.edits entry) + n) 0).

Lemma pend_lookup (m : gmap string EditBuffer.Entry) u entry :
  m !! u = Some entry → pend m = length (EditBuffer.edits entry) + pend (delete u m).
Proof.
  intros Hl.
  apply (map_fold_delete_L (λ (_ : string) e n, length (EditBuffer.edits e) + n));
    [intros; lia | done].
Qed.

Lemma pend_insert_fresh (m : gmap string EditBuffer.Entry) u entry :
  m !! u = None → pend (<[u := entry]> m) = length (EditBuffer.edits entry) + pend m.
Proof.
  intros Hl.
  apply (map_fold_insert_L (λ (_ : string) e n, length (EditBuffer.edits e) + n));
    [intros; lia | done].
Qed.

Lemma pend_addEdit now doc changes (st : EditBuffer.State) :
  pend (EditBuffer.buffer (EditBuffer.addEdit now doc changes st))
  = S (pend (EditBuffer.buffer st)).
Proof.
  destruct (addEdit_fields now doc changes st) as (-> & _).
  unfold EditBuffer.priorEdits. destruct (EditBuffer.buffer st !! uri doc) as [entry|] eqn:E.
  - rewrite <- insert_delete_eq, pend_insert_fresh by apply lookup_delete_eq.
    rewrite (pend_lookup _ _ _ E). cbn [EditBuffer.edits].
    rewrite length_app. simpl. lia.
  - by rewrite pend_insert_fresh.
Qed.

Lemma buffering_addEdit now doc changes (st : EditBuffer.State) :
  EditBuffer.buffering st → EditBuffer.buffering (EditBuffer.addEdit now doc changes st).
Proof.
  intros [Hdom Hne].
  destruct (addEdit_fields now doc changes st) as (Hb & Ht & _ & _). split.
  - by rewrite Hb, Ht, dom_insert_L, Hdom.
  - intros u entry. rewrite Hb.
    intros [[_ <-]|[_ Hl]]%lookup_insert_Some; [|eauto].
    cbn [EditBuffer.edits]. by destruct (EditBuffer.priorEdits _ _).
Qed.

Lemma buffering_removed u (st : EditBuffer.State) :
  EditBuffer.buffering st →
  EditBuffer.buffering
    (EditBuffer.mkState (delete u (EditBuffer.buffer st))
       (EditBuffer.timers st ∖ {[u]}) (EditBuffer.idleMs st) (EditBuffer.console st)).
Proof.
  intros [Hdom Hne]. split; cbn [EditBuffer.buffer EditBuffer.timers].
  - by rewrite dom_delete_L, Hdom.
  - intros uri entry Hl. apply lookup_delete_Some in Hl as [_ Hl]. eauto.
Qed.

Lemma sendToLSP_stats c d scope rg t s :
  SmartDiagnostics.stats (SmartDiagnostics.sendToLSP c d scope rg t s)
  = SmartDiagnostics.stats s.
Proof.
  destruct c as [c|]; [|done]. unfold SmartDiagnostics.sendToLSP.
  destruct (SmartDiagnostics.sendRequest c s _) as [[]|e]; [done|].
  unfold SmartDiagnostics.handleLspFailure, SmartDiagnostics.FAILURE_THRESHOLD.
  cbn [SmartDiagnostics.consecutiveFailures SmartDiagnostics.setConsecutiveFailures
       SmartDiagnostics.log].
  destruct (_ <=? _)%N; [|done].
  cbn [SmartDiagnostics.lastNotificationTime SmartDiagnostics.log
       SmartDiagnostics.setConsecutiveFailures].
  by destruct (_ <? _)%Z.
Qed.

Lemma resolveScope_stats sc d edits s :
  SmartDiagnostics.stats (SmartDiagnostics.resolveScope sc d edits s).2
  = SmartDiagnostics.stats s.
Proof.
  unfold SmartDiagnostics.resolveScope. by destruct (sc s d _) as [scope|e].
Qed.

(** The statistics after [processEdits]: unchanged, or one more dispatch
    attempt, and that only for a non-empty list of edits and a running
    client. *)
Lemma processEdits_stats c sc u d edits t s :
  let s' := SmartDiagnostics.processEdits c sc u d edits t s in
  SmartDiagnostics.stats s' = SmartDiagnostics.stats s
  ∨ (edits ≠ [] ∧ (∃ cl, c = Some cl ∧ SmartDiagnostics.isRunning cl s = true) ∧
     SmartDiagnostics.stats s' = SmartDiagnostics.stats (SmartDiagnostics.countSent s)).
Proof.
  intros s'. unfold s', SmartDiagnostics.processEdits.
  destruct c as [cl|]; [|by left].
  destruct (SmartDiagnostics.isRunning cl s) eqn:Hrun; [|by left]. cbn [negb].
  destruct edits as [|e edits']; [by left|]. right.
  split; [done|]. split; [by exists cl|].
  destruct (SmartDiagnostics.resolveScope sc d (e :: edits')
              (SmartDiagnostics.countSent s)) as [scope s1] eqn:Eres.
  rewrite sendToLSP_stats.
  replace s1 with (SmartDiagnostics.resolveScope sc d (e :: edits')
                     (SmartDiagnostics.countSent s)).2 by by rewrite Eres.
  apply resolveScope_stats.
Qed.

Lemma accounted_new partial : Pipeline.accounted 0 (new partial).
Proof.
  split.
  - unfold pendingEdits. cbn. rewrite map_fold_empty. simpl. lia.
  - apply buffering_empty.
Qed.

Lemma accounted_processed c sc u entry t o eb :
  EditBuffer.buffer (editBuffer o) !! u = Some entry →
  EditBuffer.edits entry ≠ [] →
  EditBuffer.buffer eb = delete u (EditBuffer.buffer (editBuffer o)) →
  EditBuffer.buffering eb →
  ∀ carried, Pipeline.accounted carried o →
  ∀ lg, Pipeline.accounted carried
    (mkObject (config o) (changeFilter o) eb (client o)
       (SmartDiagnostics.processEdits c sc u (EditBuffer.document entry)
          (EditBuffer.edits entry) t (core o)) lg).
Proof.
  intros Hentry Hne Heb Hbuf carried [Hacc _] lg. split; [|done].
  unfold pendingEdits in *. cbn [core editBuffer] in *. rewrite Heb.
  rewrite (pend_lookup _ _ _ Hentry) in Hacc.
  assert (1 ≤ length (EditBuffer.edits entry))%nat
    by (destruct (EditBuffer.edits entry); [done | simpl; lia]).
  destruct (processEdits_stats c sc u (EditBuffer.document entry)
              (EditBuffer.edits entry) t (core o)) as [->|(_ & _ & ->)].
  - lia.
  - cbn [SmartDiagnostics.countSent SmartDiagnostics.stats
         SmartDiagnostics.sentToLsp SmartDiagnostics.filteredOut
         SmartDiagnostics.totalChanges]. lia.
Qed.

Ltac pipe_simpl :=
  unfold Pipeline.accounted, pendingEdits, withEditBuffer, logChange, withStats, withCore in *;
  cbn [core editBuffer config changeFilter client changeLog
       SmartDiagnostics.stats SmartDiagnostics.sentToLsp
       SmartDiagnostics.filteredOut SmartDiagnostics.totalChanges] in *.

Lemma accounted_react sc e o carried :
  Pipeline.accounted carried o →
  Pipeline.accounted (match e with StatsReset => pendingEdits o | _ => carried end)
    (react sc e o).
Proof.
  intros Hacc. pose proof Hacc as [Hle Hbuf].
  destruct e as [now scheme d changes | now scheme d | now u | c | partial | |];
    cbn [react].
  - unfold onDocumentChange.
    destruct (enabled (config o)); [|done]. cbn [negb].
    destruct (Js.strEq scheme "file"); [|done]. cbn [negb].
    cbn [changeFilter withStats].
    destruct (ChangeFilter.classify _ _ _) as [cl|err]; cbn [fst].
    + destruct (ChangeFilter.isSignificant cl); cbn [negb fst].
      * pipe_simpl. split; [rewrite pend_addEdit; lia | by apply buffering_addEdit].
      * pipe_simpl. split; [lia | done].
    + pipe_simpl. split; [lia | done].
  - unfold onDocumentSave.
    destruct (enabled (config o)); [|done]. cbn [negb].
    destruct (Js.strEq scheme "file"); [|done]. cbn [negb].
    unfold EditBuffer.hasBufferedEdits, EditBuffer.flush, EditBuffer.cancelTimer.
    cbn [EditBuffer.buffer EditBuffer.timers EditBuffer.idleMs EditBuffer.console].
    destruct (EditBuffer.buffer (editBuffer o) !! uri d) as [entry|] eqn:Hentry;
      [|done].
    destruct (length (EditBuffer.edits entry)) eqn:Hlen; [done|]. cbn [Nat.eqb negb].
    unfold withEditBuffer, logChange, withCore.
    cbn [config changeFilter editBuffer client core changeLog].
    apply accounted_processed; [done | | done | by apply buffering_removed | done].
    intros Hnil. by rewrite Hnil in Hlen.
  - unfold onIdleTimer, EditBuffer.cancelTimer.
    cbn [EditBuffer.buffer EditBuffer.timers EditBuffer.idleMs EditBuffer.console].
    destruct Hbuf as [Hdom Hne].
    destruct (EditBuffer.buffer (editBuffer o) !! u) as [entry|] eqn:Hentry.
    + destruct (length (EditBuffer.edits entry)) eqn:Hlen.
      { exfalso. apply (Hne _ _ Hentry). by destruct (EditBuffer.edits entry). }
      cbn [Nat.eqb].
      unfold withEditBuffer, withCore.
      cbn [config changeFilter editBuffer client core changeLog].
      apply accounted_processed;
        [done | | done | by apply buffering_removed | done].
      intros Hnil. by rewrite Hnil in Hlen.
    + split; [done|]. cbn [withEditBuffer editBuffer]. split.
      * cbn [EditBuffer.buffer EditBuffer.timers]. rewrite Hdom.
        apply not_elem_of_dom in Hentry. rewrite Hdom in Hentry.
        apply set_eq. intros x. rewrite elem_of_difference, elem_of_singleton.
        split; [intros Hx; split; [done | by intros ->] | tauto].
      * done.
  - done.
  - unfold updateConfig.
    destruct (partialIdleMs partial), (partialFilter partial),
      (partialEnabled partial); done.
  - unfold resetStats. pipe_simpl. split; [lia | done].
  - unfold dispose, EditBuffer.dispose. pipe_simpl.
    cbn [EditBuffer.buffer] in *. rewrite map_fold_empty.
    split; [lia | apply buffering_empty].
Qed.

Lemma accounted_reactAll sc events o carried :
  Pipeline.accounted carried o →
  Pipeline.accounted (carriedEdits sc events o carried) (reactAll sc events o).
Proof.
  unfold reactAll. revert o carried.
  induction events as [|e es IH]; intros o carried Ho; [done|].
  cbn [fold_left carriedEdits]. by apply IH, accounted_react.
Qed.

Lemma carriedEdits_without_reset sc events o carried :
  StatsReset ∉ events → carriedEdits sc events o carried = carried.
Proof.
  revert o carried. induction events as [|e es IH]; intros o carried Hno; [done|].
  apply not_elem_of_cons in Hno as [Hne Hno]. cbn [carriedEdits].
  rewrite IH by done. by destruct e.
Qed.


End PipelineFacts.


(** X22. The statistics account for every change.  Along every sequence
    of events from a freshly constructed object (changes, saves, idle
    timers, [setClient], [updateConfig], [resetStats], [dispose]), the
    dispatch attempts, the filtered changes and the edits still waiting in
    the buffer never add up to more than the changes counted plus the edits
    that were waiting when the counters were last reset; without a
    [resetStats] they never add up to more than the changes counted.  The
    edit buffer stays consistent throughout (entries and timers match, no
    entry is empty). *)
Theorem statistics_account_for_changes (sc : SmartDiagnostics.ScopeResolver)
    (partial : Pipeline.PartialConfig) (events : list Pipeline.Event) :
  let o := Pipeline.reactAll sc events (Pipeline.new partial) in
  let s := Pipeline.getStats o in
  let carried := Pipeline.carriedEdits sc events (Pipeline.new partial) 0 in
  (SmartDiagnostics.sentToLsp s + SmartDiagnostics.filteredOut s
   + N.of_nat (Pipeline.pendingEdits o)
   ≤ SmartDiagnostics.totalChanges s + N.of_nat carried)%N ∧
  (Pipeline.StatsReset ∉ events →
   (SmartDiagnostics.sentToLsp s + SmartDiagnostics.filteredOut s
    + N.of_nat (Pipeline.pendingEdits o) ≤ SmartDiagnostics.totalChanges s)%N) ∧
  EditBuffer.buffering (Pipeline.editBuffer o).
Proof.
  intros o s carried.
  destruct (accounted_reactAll sc events (Pipeline.new partial) 0
              (accounted_new partial)) as [Hle Hbuf].
  fold o carried in Hle, Hbuf. split_and!; [done | | done].
  intros Hno. unfold carried in Hle.
  rewrite carriedEdits_without_reset in Hle by done.
  unfold s, Pipeline.getStats. lia.
Qed.

Lemma statistics_account_for_changes_witness :
  let doc := Vscode.mkTextDocument "file:///a.ts" "typescript" 2 ["const x = 1;"] Js.LF in
  let sc : SmartDiagnostics.ScopeResolver := λ _ _ _, Js.Normal None in
  let fresh := Pipeline.new (Pipeline.mkPartialConfig None None None) in
  let connect := Pipeline.ClientSet (SmartDiagnostics.clientAnswering (Js.Normal tt)) in
  let change := Pipeline.Changed 10 "file" doc
                  [Vscode.mkChange (Vscode.Range_new 0 0 0 0) 0 0 "const y = 2;"] in
  let idle := Pipeline.IdleTimer 500 "file:///a.ts" in
  let o := Pipeline.reactAll sc [connect; change; idle] fresh in
  let o' := Pipeline.reactAll sc [connect; change; Pipeline.StatsReset; idle] fresh in
  (SmartDiagnostics.sentToLsp (Pipeline.getStats o)
   + SmartDiagnostics.filteredOut (Pipeline.getStats o)
   + N.of_nat (Pipeline.pendingEdits o)
   ≤ SmartDiagnostics.totalChanges (Pipeline.getStats o))%N ∧
  (SmartDiagnostics.sentToLsp (Pipeline.getStats o')
   + SmartDiagnostics.filteredOut (Pipeline.getStats o')
   + N.of_nat (Pipeline.pendingEdits o')
   ≤ SmartDiagnostics.totalChanges (Pipeline.getStats o')
     + N.of_nat (Pipeline.carriedEdits sc
                   [connect; change; Pipeline.StatsReset; idle] fresh 0))%N.
Proof.
  intros doc sc fresh connect change idle o o'. split.
  - destruct (statistics_account_for_changes sc
                (Pipeline.mkPartialConfig None None None) [connect; change; idle])
      as (_ & H & _).
    apply H. rewrite !not_elem_of_cons. split_and!; try discriminate.
    apply not_elem_of_nil.
  - destruct (statistics_account_for_changes sc
                (Pipeline.mkPartialConfig None None None)
                [connect; change; Pipeline.StatsReset; idle]) as (H & _).
    exact H.
Defined.

Section EndToEndFacts.
Import Vscode Pipeline.
Implicit Types (o : Object) (sc : SmartDiagnostics.ScopeResolver).

Lemma moreChanges_0 s : moreChanges 0 s = s.
Proof.
  destruct s as [[t f n] cf l w lg]. unfold moreChanges.
  cbn [SmartDiagnostics.stats SmartDiagnostics.totalChanges
       SmartDiagnostics.filteredOut SmartDiagnostics.sentToLsp
       SmartDiagnostics.consecutiveFailures SmartDiagnostics.lastNotificationTime
       SmartDiagnostics.warningsShown SmartDiagnostics.logged].
  by rewrite N.add_0_r.
Qed.

Lemma moreChanges_add n k s : moreChanges k (moreChanges n s) = moreChanges (n + k) s.
Proof.
  unfold moreChanges.
  cbn [SmartDiagnostics.stats SmartDiagnostics.totalChanges
       SmartDiagnostics.filteredOut SmartDiagnostics.sentToLsp
       SmartDiagnostics.consecutiveFailures SmartDiagnostics.lastNotificationTime
       SmartDiagnostics.warningsShown SmartDiagnostics.logged].
  by rewrite N.add_assoc.
Qed.

Lemma changed_significant sc call o :
  enabled (config o) = true → significantFor o call →
  afterBurst o [call] (react sc (Changed call.1.1 "file" call.1.2 call.2) o).
Proof.
  intros Hen (cl & Hcl & Hsig). cbn [react]. unfold onDocumentChange.
  rewrite Hen. cbn [negb Js.strEq]. cbn [changeFilter withStats].
  replace (Js.strEq "file" "file") with true by reflexivity. cbn [negb].
  rewrite Hcl, Hsig. cbn [negb fst].
  unfold afterBurst, logChange, withEditBuffer, withStats.
  cbn [config changeFilter client editBuffer core].
  split_and!; try done.
Qed.

Lemma burst_changes sc calls o :
  enabled (config o) = true → Forall (significantFor o) calls →
  afterBurst o calls (reactAll sc (changeEvents calls) o).
Proof.
  intros Hen Hall. induction calls as [|call calls IH] using rev_ind.
  - unfold afterBurst. cbn. by rewrite moreChanges_0.
  - apply Forall_app in Hall as [Hall Hcall]. rewrite Forall_singleton in Hcall.
    destruct (IH Hall) as (Hcfg & Hflt & Hcli & Heb & Hcore).
    unfold changeEvents, reactAll in *. rewrite map_app, fold_left_app.
    cbn [map fold_left].
    set (o1 := fold_left (λ o e, react sc e o) (map _ calls) o) in *.
    destruct (changed_significant sc call o1) as (Hcfg' & Hflt' & Hcli' & Heb' & Hcore').
    + by rewrite Hcfg.
    + destruct Hcall as (cl & Hcl & Hsig). exists cl. by rewrite Hflt.
    + unfold afterBurst. rewrite Hcfg', Hflt', Hcli', Heb', Hcore', Hcfg, Hflt, Hcli,
        Heb, Hcore.
      split_and!; try done.
      * unfold EditBuffer.addEdits. by rewrite fold_left_app.
      * rewrite moreChanges_add, length_app. cbn [length]. f_equal. lia.
Qed.

Lemma processEdits_running cl sc u d edits t s :
  SmartDiagnostics.isRunning cl s = true → edits ≠ [] →
  SmartDiagnostics.stats (SmartDiagnostics.processEdits (Some cl) sc u d edits t s)
  = SmartDiagnostics.stats (SmartDiagnostics.countSent s).
Proof.
  intros Hrun Hne.
  destruct (processEdits_stats (Some cl) sc u d edits t s) as [Hsame|(_ & _ & H)];
    [|done].
  exfalso. revert Hsame. unfold SmartDiagnostics.processEdits. rewrite Hrun.
  cbn [negb]. destruct edits as [|e edits']; [done|].
  destruct (SmartDiagnostics.resolveScope sc d (e :: edits')
              (SmartDiagnostics.countSent s)) as [scope s1] eqn:Eres.
  rewrite sendToLSP_stats.
  replace s1 with (SmartDiagnostics.resolveScope sc d (e :: edits')
                     (SmartDiagnostics.countSent s)).2 by by rewrite Eres.
  rewrite resolveScope_stats.
  destruct s as [[tc fo sl] cf l w lg]. cbn. intros [= H]. lia.
Qed.

End EndToEndFacts.

(** X23. End to end: a burst of significant changes to one [file:]
    document that had no buffered edits, with the object enabled and a
    running client.  Each change is counted and buffered, none is
    dispatched.  Then the idle timer of the document, or a save of it,
    hands [processEdits] the document of the last change and all the edits
    in arrival order, exactly once: [sentToLsp] grows by one, and the buffer
    is back to what it was before the burst, without a timer for the
    document. *)
Theorem burst_dispatched_once (sc : SmartDiagnostics.ScopeResolver)
    (c : SmartDiagnostics.LanguageClient) (o : Pipeline.Object) (u : string)
    (calls : list (N * Vscode.TextDocument * list Vscode.TextDocumentContentChangeEvent))
    (call : N * Vscode.TextDocument * list Vscode.TextDocumentContentChangeEvent)
    (now : Z) :
  Pipeline.enabled (Pipeline.config o) = true →
  Pipeline.client o = Some c →
  (∀ s, SmartDiagnostics.isRunning c s = true) →
  EditBuffer.buffer (Pipeline.editBuffer o) !! u = None →
  Forall (λ k, Vscode.uri k.1.2 = u) calls → Vscode.uri call.1.2 = u →
  Forall (Pipeline.significantFor o) (calls ++ [call]) →
  let o1 := Pipeline.reactAll sc (Pipeline.changeEvents (calls ++ [call])) o in
  let counted := Pipeline.moreChanges (N.of_nat (S (length calls))) (Pipeline.core o) in
  let dispatched :=
    SmartDiagnostics.processEdits (Some c) sc u call.1.2
      (map EditBuffer.editOf (calls ++ [call])) now counted in
  Pipeline.core o1 = counted ∧
  EditBuffer.getBufferedEditCount u (Pipeline.editBuffer o1) = S (length calls) ∧
  (∀ o2, o2 = Pipeline.react sc (Pipeline.IdleTimer now u) o1 ∨
         o2 = Pipeline.react sc (Pipeline.Saved now "file" call.1.2) o1 →
         Pipeline.core o2 = dispatched ∧
         EditBuffer.buffer (Pipeline.editBuffer o2)
           = EditBuffer.buffer (Pipeline.editBuffer o) ∧
         (u ∉ EditBuffer.timers (Pipeline.editBuffer o2))) ∧
  SmartDiagnostics.stats dispatched =
    SmartDiagnostics.mkStats
      (SmartDiagnostics.totalChanges (SmartDiagnostics.stats (Pipeline.core o))
       + N.of_nat (S (length calls)))
      (SmartDiagnostics.filteredOut (SmartDiagnostics.stats (Pipeline.core o)))
      (SmartDiagnostics.sentToLsp (SmartDiagnostics.stats (Pipeline.core o)) + 1).
Proof.
  intros Hen Hcli Hrun Hnone Huris Huri Hsig o1 counted dispatched.
  destruct (burst_changes sc (calls ++ [call]) o Hen Hsig)
    as (Hcfg & Hflt & Hcl1 & Heb & Hcore).
  fold o1 in Hcfg, Hflt, Hcl1, Heb, Hcore.
  assert (Hlen : length (calls ++ [call]) = S (length calls))
    by (rewrite length_app; simpl; lia).
  rewrite Hlen in Hcore. fold counted in Hcore.
  destruct (addEdits_burst u calls call (Pipeline.editBuffer o) Huris Huri)
    as (Hb & Ht & Hi & Hc).
  rewrite <- Heb in Hb, Ht, Hi, Hc.
  assert (Hprior : EditBuffer.priorEdits u (Pipeline.editBuffer o) = [])
    by (unfold EditBuffer.priorEdits; by rewrite Hnone).
  rewrite Hprior in Hb. cbn [app] in Hb.
  set (entry := EditBuffer.mkEntry call.1.2 (map EditBuffer.editOf (calls ++ [call]))) in *.
  assert (Hlook : EditBuffer.buffer (Pipeline.editBuffer o1) !! u = Some entry)
    by (rewrite Hb; apply lookup_insert_eq).
  assert (Hedits : length (EditBuffer.edits entry) = S (length calls))
    by (unfold entry; cbn [EditBuffer.edits]; by rewrite length_map).
  assert (Hdel : delete u (EditBuffer.buffer (Pipeline.editBuffer o1))
                 = EditBuffer.buffer (Pipeline.editBuffer o))
    by (rewrite Hb; by apply delete_insert_id).
  split_and!.
  - done.
  - unfold EditBuffer.getBufferedEditCount. by rewrite Hlook.
  - intros o2 [->| ->].
    + cbn [Pipeline.react]. unfold Pipeline.onIdleTimer, EditBuffer.cancelTimer.
      cbn [EditBuffer.buffer EditBuffer.timers EditBuffer.idleMs EditBuffer.console].
      rewrite Hlook, Hedits. cbn [Nat.eqb].
      unfold Pipeline.withCore, Pipeline.withEditBuffer.
      cbn [Pipeline.core Pipeline.editBuffer Pipeline.client EditBuffer.buffer
           EditBuffer.timers].
      rewrite Hcl1, Hcli, Hcore, Hdel. split_and!; [done | done |].
      rewrite elem_of_difference, elem_of_singleton. tauto.
    + cbn [Pipeline.react]. unfold Pipeline.onDocumentSave.
      rewrite Hcfg, Hen. cbn [negb].
      replace (Js.strEq "file" "file") with true by reflexivity. cbn [negb].
      unfold EditBuffer.hasBufferedEdits, EditBuffer.flush, EditBuffer.cancelTimer.
      cbn [EditBuffer.buffer EditBuffer.timers EditBuffer.idleMs EditBuffer.console].
      rewrite Huri, Hlook, Hedits. cbn [Nat.eqb negb].
      unfold Pipeline.withCore, Pipeline.withEditBuffer, Pipeline.logChange.
      cbn [Pipeline.core Pipeline.editBuffer Pipeline.client EditBuffer.buffer
           EditBuffer.timers].
      rewrite Hcl1, Hcli, Hcore, Hdel. split_and!; [done | done |].
      rewrite elem_of_difference, elem_of_singleton. tauto.
  - unfold dispatched. rewrite processEdits_running.
    + unfold counted, SmartDiagnostics.countSent, Pipeline.moreChanges.
      by cbn [SmartDiagnostics.stats SmartDiagnostics.totalChanges
              SmartDiagnostics.filteredOut SmartDiagnostics.sentToLsp].
    + apply Hrun.
    + rewrite map_app. cbn [map]. by destruct (map _ calls).
Qed.

Lemma burst_dispatched_once_witness :
  let doc := Vscode.mkTextDocument "file:///a.ts" "typescript" 2 ["const x = 1;"] Js.LF in
  let call := (10%N, doc, [Vscode.mkChange (Vscode.Range_new 0 0 0 0) 0 0 "const y = 2;"]) in
  let client := SmartDiagnostics.clientAnswering (Js.Normal tt) in
  let o := Pipeline.setClient client
             (Pipeline.new (Pipeline.mkPartialConfig None None None)) in
  let o1 := Pipeline.reactAll (λ _ _ _, Js.Normal None)
              (Pipeline.changeEvents ([] ++ [call])) o in
  EditBuffer.getBufferedEditCount "file:///a.ts" (Pipeline.editBuffer o1) = 1.
Proof.
  intros doc call client o o1.
  pose proof (burst_dispatched_once (λ _ _ _, Js.Normal None) client o
                "file:///a.ts" [] call 0%Z) as H.
  destruct H as (_ & H & _).
  - reflexivity.
  - reflexivity.
  - intros s. reflexivity.
  - apply lookup_empty.
  - constructor.
  - reflexivity.
  - constructor; [|constructor].
    eexists. split; [vm_compute; reflexivity | reflexivity].
  - exact H.
Defined.

(** ** The two combined ranges, and the size of the symbol cache *)

Section RangeAgreement.
Import Vscode.

Lemma posMin_unique (xs : list Position) p1 p2 :
  (∀ x, x ∈ xs → isBeforeOrEqual p1 x = true) → p1 ∈ xs →
  (∀ x, x ∈ xs → isBeforeOrEqual p2 x = true) → p2 ∈ xs → p1 = p2.
Proof. intros H1 I1 H2 I2. apply isBeforeOrEqual_antisym; auto. Qed.

Lemma posMax_unique (xs : list Position) q1 q2 :
  (∀ x, x ∈ xs → isBeforeOrEqual x q1 = true) → q1 ∈ xs →
  (∀ x, x ∈ xs → isBeforeOrEqual x q2 = true) → q2 ∈ xs → q1 = q2.
Proof. intros H1 I1 H2 I2. apply isBeforeOrEqual_antisym; auto. Qed.

(** The least start and the greatest end of a non-empty list of ranges do
    not depend on where the two loops start from. *)
Lemma fold_seed_irrelevant (first : Range) (rs : list Range) :
  first ∈ rs →
  Forall (λ r, (line (start r) < EditBuffer.MAX_SAFE_INTEGER)%N) rs →
  fold_left posMin (map start rs)
    (mkPosition EditBuffer.MAX_SAFE_INTEGER EditBuffer.MAX_SAFE_INTEGER)
  = fold_left posMin (map start rs) (start first) ∧
  fold_left posMax (map end_ rs) (mkPosition 0 0)
  = fold_left posMax (map end_ rs) (end_ first).
Proof.
  intros Hfirst Hmax. rewrite Forall_forall in Hmax.
  set (p0 := mkPosition EditBuffer.MAX_SAFE_INTEGER EditBuffer.MAX_SAFE_INTEGER).
  set (q0 := mkPosition 0 0).
  destruct (fold_posMin (map start rs) p0) as (_ & Ha & Haatt).
  destruct (fold_posMin (map start rs) (start first)) as (_ & Hb & Hbatt).
  destruct (fold_posMax (map end_ rs) q0) as (_ & Hc & Hcatt).
  destruct (fold_posMax (map end_ rs) (end_ first)) as (_ & Hd & Hdatt).
  assert (Hs : start first ∈ map start rs) by (apply list_elem_of_fmap; eauto).
  assert (He : end_ first ∈ map end_ rs) by (apply list_elem_of_fmap; eauto).
  split.
  - apply (posMin_unique (map start rs)); [done | | done |].
    + destruct Haatt as [Heq|Hin]; [|done]. exfalso.
      specialize (Ha _ Hs). rewrite Heq in Ha. specialize (Hmax _ Hfirst).
      cbv beta in Hmax. revert Ha. unfold p0, isBeforeOrEqual. cbn [line character].
      destruct (N.ltb_spec EditBuffer.MAX_SAFE_INTEGER (line (start first))); [lia|].
      destruct (N.ltb_spec (line (start first)) EditBuffer.MAX_SAFE_INTEGER);
        [done | lia].
    + destruct Hbatt as [->|Hin]; done.
  - apply (posMax_unique (map end_ rs)); [done | | done |].
    + destruct Hcatt as [Heq|Hin]; [|done]. rewrite Heq.
      replace q0 with (end_ first); [done|].
      apply isBeforeOrEqual_antisym.
      * specialize (Hc _ He). by rewrite Heq in Hc.
      * unfold q0, isBeforeOrEqual. cbn [line character].
        destruct (N.ltb_spec 0 (line (end_ first))); [done|].
        destruct (N.ltb_spec (line (end_ first)) 0); [lia|]. apply N.leb_le. lia.
    + destruct Hdatt as [->|Hin]; done.
Qed.

End RangeAgreement.

(** X24. The classifier and the edit buffer compute the same range: for
    buffered edits whose change ranges start at line numbers below
    [Number.MAX_SAFE_INTEGER], the range the edit buffer combines at
    dispatch is the affected range the classifier computes for all their
    changes taken together (both are the zero range when there is no change
    at all). *)
Theorem combined_ranges_agree (edits : list EditBuffer.BufferedEdit) :
  Forall (λ r, (Vscode.line (Vscode.start r) < EditBuffer.MAX_SAFE_INTEGER)%N)
         (EditBuffer.changeRanges edits) →
  EditBuffer.getCombinedRange edits =
  ChangeFilter.getCombinedRange (concat (map EditBuffer.changes edits)).
Proof.
  intros Hmax.
  assert (Hrs : EditBuffer.changeRanges edits
                = map Vscode.range (concat (map EditBuffer.changes edits))).
  { unfold EditBuffer.changeRanges. clear.
    induction edits as [|e edits IH]; [done|].
    cbn [map concat]. by rewrite map_app, IH. }
  assert (Hfold : EditBuffer.getCombinedRange edits =
    let '(startLine, startChar, endLine, endChar) :=
      fold_left (λ acc r, EditBuffer.extend acc r) (EditBuffer.changeRanges edits)
        (EditBuffer.MAX_SAFE_INTEGER, EditBuffer.MAX_SAFE_INTEGER, 0%N, 0%N) in
    if (startLine =? EditBuffer.MAX_SAFE_INTEGER)%N then Vscode.Range_new 0 0 0 0
    else Vscode.Range_new startLine startChar endLine endChar).
  { unfold EditBuffer.getCombinedRange.
    destruct edits as [|e0 edits0]; [done|]. by rewrite fold_nested. }
  rewrite Hfold. clear Hfold. rewrite Hrs in *. clear Hrs.
  generalize dependent (concat (map EditBuffer.changes edits)). clear edits.
  intros changes Hmax.
  unfold ChangeFilter.getCombinedRange.
  destruct changes as [|first rest] eqn:Ech; [reflexivity|]. rewrite <- Ech in *.
  assert (Hfirst : Vscode.range first ∈ map Vscode.range changes).
  { apply list_elem_of_fmap. exists first. split; [done|]. rewrite Ech. left. }
  rewrite fold_extend_changes.
  change (EditBuffer.MAX_SAFE_INTEGER, EditBuffer.MAX_SAFE_INTEGER, 0%N, 0%N)
    with (Vscode.line (Vscode.mkPosition EditBuffer.MAX_SAFE_INTEGER
                         EditBuffer.MAX_SAFE_INTEGER),
          Vscode.character (Vscode.mkPosition EditBuffer.MAX_SAFE_INTEGER
                              EditBuffer.MAX_SAFE_INTEGER),
          Vscode.line (Vscode.mkPosition 0 0), Vscode.character (Vscode.mkPosition 0 0)).
  rewrite !fold_extend. cbv beta iota zeta.
  destruct (fold_seed_irrelevant (Vscode.range first) (map Vscode.range changes)
              Hfirst Hmax) as [-> ->].
  set (p' := fold_left Vscode.posMin _ _). set (q' := fold_left Vscode.posMax _ _).
  destruct (N.eqb_spec (Vscode.line p') EditBuffer.MAX_SAFE_INTEGER) as [Heq|]; [|done].
  exfalso.
  destruct (fold_posMin (map Vscode.start (map Vscode.range changes))
              (Vscode.start (Vscode.range first))) as (Hle & _).
  fold p' in Hle. rewrite Forall_forall in Hmax. specialize (Hmax _ Hfirst).
  cbv beta in Hmax. revert Hle. unfold Vscode.isBeforeOrEqual. rewrite Heq.
  destruct (N.ltb_spec EditBuffer.MAX_SAFE_INTEGER
              (Vscode.line (Vscode.start (Vscode.range first)))); [lia|].
  destruct (N.ltb_spec (Vscode.line (Vscode.start (Vscode.range first)))
              EditBuffer.MAX_SAFE_INTEGER); [done | lia].
Qed.

Lemma combined_ranges_agree_witness :
  let at_line l :=
    EditBuffer.mkBufferedEdit
      [Vscode.mkChange (Vscode.Range_new l 0 l 5) 0 5 "x"] 0 1 in
  EditBuffer.getCombinedRange [at_line 1%N; at_line 3%N] =
  ChangeFilter.getCombinedRange
    (concat (map EditBuffer.changes [at_line 1%N; at_line 3%N])).
Proof.
  intros at_line.
  apply (combined_ranges_agree [at_line 1%N; at_line 3%N]); by repeat constructor.
Defined.

(** X25. The symbol cache stays within its capacity in use: for a capacity
    of at least 1 and every sequence of [getDocumentSymbols] requests, for
    any documents and whatever the provider answers, the cache never holds
    more outlines than its capacity, and at most one per URI. *)
Theorem symbol_cache_bounded (N : Z)
    (requests : list (Js.Completion (option (list ScopeTracker.DocumentSymbol))
                      * Vscode.TextDocument)) :
  (1 ≤ N)%Z →
  let cache := ScopeTracker.requestAll requests (LRU.new N) in
  (Z.of_nat (LRU.size cache) ≤ N)%Z ∧ NoDup (LRU.keys cache) ∧ LRU.maxSize cache = N.
Proof.
  intros HN.
  assert (Hone : ∀ provider doc c h,
    LRU.lruInv N c h →
    ∃ h', LRU.lruInv N (ScopeTracker.getDocumentSymbols provider doc c).2 h').
  { intros provider doc c h Hinv.
    pose proof (lruInv_step N c h (LRU.OpGet (Vscode.uri doc)) HN Hinv) as Hget.
    cbn [LRU.step] in Hget.
    unfold ScopeTracker.getDocumentSymbols.
    destruct (LRU.get (Vscode.uri doc) c) as [cached c1] eqn:Eget. cbn [snd] in Hget.
    set (h1 := LRU.touched (LRU.OpGet (Vscode.uri doc)) c ++ h) in *.
    assert (Hfetch : ∃ h',
      LRU.lruInv N
        (match provider with
         | Js.Normal (Some symbols) =>
             (Some symbols,
              LRU.set (Vscode.uri doc)
                (ScopeTracker.mkCached symbols (Vscode.version doc)) c1)
         | Js.Normal None => (None, c1)
         | Js.Throw _ => (None, c1)
         end).2 h').
    { destruct provider as [[symbols|]|e]; cbn [snd]; [|by exists h1..].
      eexists.
      apply (lruInv_step N c1 h1
               (LRU.OpSet (Vscode.uri doc)
                  (ScopeTracker.mkCached symbols (Vscode.version doc))) HN Hget). }
    destruct cached as [entry|]; [|exact Hfetch].
    destruct (_ =? _)%N; [by exists h1 | exact Hfetch]. }
  assert (Hall : ∀ c h, LRU.lruInv N c h →
            ∃ h', LRU.lruInv N (ScopeTracker.requestAll requests c) h').
  { induction requests as [|[provider doc] rest IH]; intros c h Hinv; [by exists h|].
    cbn [ScopeTracker.requestAll].
    destruct (Hone provider doc c h Hinv) as [h' Hinv']. by apply (IH _ h'). }
  intros cache. destruct (Hall (LRU.new N) [] (lruInv_new N HN))
    as (h' & Hmax & Hnd & Hsz & _).
  by split_and!.
Qed.

Lemma symbol_cache_bounded_witness :
  let doc := Vscode.mkTextDocument "file:///a.ts" "typescript" 1 ["x"] Js.LF in
  (Z.of_nat (LRU.size (ScopeTracker.requestAll [(Js.Normal (Some []), doc)]
                         (LRU.new 1))) ≤ 1)%Z.
Proof.
  intros doc.
  pose proof (symbol_cache_bounded 1 [(Js.Normal (Some []), doc)]) as H.
  apply H. lia.
Defined.

(** ** The idle timer of the whole object *)

(** [Pipeline.onIdleTimer] treats the edit buffer exactly as the timer
    function of [EditBuffer] does with a callback that returns normally,
    which the [processEdits] promise handed to it always does. *)
Lemma onIdleTimer_editBuffer (sc : SmartDiagnostics.ScopeResolver) (now : Z)
    (u : string) (o : Pipeline.Object) :
  Pipeline.editBuffer (Pipeline.onIdleTimer sc now u o) =
  (EditBuffer.timerFires (Some (λ _ _ _, EditBuffer.ret tt)) u (Pipeline.editBuffer o)).1.
Proof.
  unfold Pipeline.onIdleTimer, EditBuffer.timerFires, EditBuffer.tryCatch,
    EditBuffer.bind, EditBuffer.modify, EditBuffer.onTimerFired, EditBuffer.ret.
  cbn [fst snd].
  destruct (EditBuffer.buffer (EditBuffer.cancelTimer u (Pipeline.editBuffer o)) !! u)
    as [entry|]; [|done].
  by destruct (Nat.eqb _ 0).
Qed.
